(** * Address decomposition and validation of the delinquency crawler

    A shallow embedding of the address handling of
    [deliquency-crawler/json_to_dealmachine_csv.py]
    ([parse_address_with_usaddress], [parse_address_regex], [parse_address],
    [validate_and_fix_address]) and of
    [deliquency-crawler/add_leads_to_dealmachine.py] ([parse_address]).

    Conventions of the embedding.
    - A Python [str] is a [string]; its characters are the code points below
      128.  The character classes below are Python's classes on that range
      ([str.isdigit], [str.isalpha], [str.isspace], and the classes [\d], [\s],
      [\w] of [re] on [str] patterns).  Code points from 128 on belong to no
      class.
    - A dict with a fixed set of keys is a record; a key that may be absent
      ([county]) is an [option].
    - Python truthiness of a string is [truthy]: the string is not empty.
    - Local variables that the source reassigns ([zip_clean], [errors]) are
      threaded through as pairs. *)

From Stdlib Require Import String Ascii List Bool Arith Lia.
From Stdlib Require Import Permutation Sorted.
Import ListNotations.
Open Scope list_scope.
Open Scope string_scope.

(** ** Python strings *)

Definition truthy (s : string) : bool :=
  match s with
  | EmptyString => false
  | String _ _ => true
  end.

Definition in_range (lo hi c : ascii) : bool :=
  (Ascii.leb lo c && Ascii.leb c hi)%bool.

(** [c.isdigit()] *)
Definition isdigit (c : ascii) : bool := in_range "0" "9" c.

(** [c.isalpha()] *)
Definition isalpha (c : ascii) : bool :=
  (in_range "A" "Z" c || in_range "a" "z" c)%bool.

(** [c.isspace()]: tab, line feed, vertical tab, form feed, carriage return,
    the four separators 28..31 and the space. *)
Definition isspace (c : ascii) : bool :=
  (in_range "009" "013" c || in_range "028" " " c)%bool.

(** [''.join(c for c in s if p(c))] *)
Fixpoint str_filter (p : ascii -> bool) (s : string) : string :=
  match s with
  | EmptyString => EmptyString
  | String c s' => if p c then String c (str_filter p s') else str_filter p s'
  end.

(** [all(p(c) for c in s)] and [any(p(c) for c in s)] *)
Fixpoint str_all (p : ascii -> bool) (s : string) : bool :=
  match s with
  | EmptyString => true
  | String c s' => (p c && str_all p s')%bool
  end.

Fixpoint str_any (p : ascii -> bool) (s : string) : bool :=
  match s with
  | EmptyString => false
  | String c s' => (p c || str_any p s')%bool
  end.

(** [s.isdigit()]: false on the empty string. *)
Definition str_isdigit (s : string) : bool :=
  (truthy s && str_all isdigit s)%bool.

(** [c in s] for a single character [c] *)
Definition has_char (c : ascii) (s : string) : bool :=
  str_any (Ascii.eqb c) s.

(** [s[:n]] and [s[n:]] for [n >= 0] *)
Fixpoint str_take (n : nat) (s : string) : string :=
  match n, s with
  | S n', String c s' => String c (str_take n' s')
  | _, _ => EmptyString
  end.

Fixpoint str_drop (n : nat) (s : string) : string :=
  match n, s with
  | S n', String _ s' => str_drop n' s'
  | _, _ => s
  end.

(** [s.split(sep)] for a single character [sep]: every occurrence splits, and
    the result always has at least one part. *)
Fixpoint str_split (sep : ascii) (s : string) : list string :=
  match s with
  | EmptyString => [EmptyString]
  | String c s' =>
      if Ascii.eqb c sep then EmptyString :: str_split sep s'
      else match str_split sep s' with
           | h :: t => String c h :: t
           | [] => [String c EmptyString]
           end
  end.

(** [sep.join(parts)] *)
Fixpoint str_join (sep : string) (parts : list string) : string :=
  match parts with
  | [] => EmptyString
  | [p] => p
  | p :: rest => p ++ sep ++ str_join sep rest
  end.

(** [sub in s] for strings *)
Fixpoint str_prefix (p s : string) : bool :=
  match p, s with
  | EmptyString, _ => true
  | String a p', String b s' => (Ascii.eqb a b && str_prefix p' s')%bool
  | String _ _, EmptyString => false
  end.

Fixpoint str_contains (sub s : string) : bool :=
  (str_prefix sub s ||
   match s with
   | EmptyString => false
   | String _ s' => str_contains sub s'
   end)%bool.

(** [l.append(x)], as a new list *)
Definition list_append {A : Type} (l : list A) (x : A) : list A :=
  (l ++ [x])%list.

(** [x in l] for a list of strings *)
Definition str_in (x : string) (l : list string) : bool :=
  existsb (String.eqb x) l.

(** [s.strip()], [s.lstrip()], [s.rstrip()]: whitespace removed at the ends;
    [s.rstrip(chars)] for a class of characters. *)
Fixpoint str_lstrip_by (p : ascii -> bool) (s : string) : string :=
  match s with
  | EmptyString => EmptyString
  | String c s' => if p c then str_lstrip_by p s' else s
  end.

Fixpoint str_rstrip_by (p : ascii -> bool) (s : string) : string :=
  match s with
  | EmptyString => EmptyString
  | String c s' =>
      match str_rstrip_by p s' with
      | EmptyString => if p c then EmptyString else String c EmptyString
      | r => String c r
      end
  end.

Definition str_strip (s : string) : string :=
  str_rstrip_by isspace (str_lstrip_by isspace s).

(** [s.replace(a, b)] for single characters *)
Fixpoint str_replace (a b : ascii) (s : string) : string :=
  match s with
  | EmptyString => EmptyString
  | String c s' =>
      String (if Ascii.eqb c a then b else c) (str_replace a b s')
  end.

(** [s.split(sep, 1)]: one split, at the first occurrence. *)
Fixpoint str_split1 (sep : ascii) (s : string) : list string :=
  match s with
  | EmptyString => [EmptyString]
  | String c s' =>
      if Ascii.eqb c sep then [EmptyString; s']
      else match str_split1 sep s' with
           | h :: t => String c h :: t
           | [] => [String c EmptyString]
           end
  end.

(** [s.split()]: the maximal runs of characters that are not whitespace.
    [word] is the run being read, in order. *)
Fixpoint str_words_from (word : string) (s : string) : list string :=
  match s with
  | EmptyString => if truthy word then [word] else []
  | String c s' =>
      if isspace c then
        if truthy word then word :: str_words_from EmptyString s'
        else str_words_from EmptyString s'
      else str_words_from (word ++ String c EmptyString) s'
  end.

Definition str_words (s : string) : list string :=
  str_words_from EmptyString s.

(** [s.upper()] *)
Definition chr_upper (c : ascii) : ascii :=
  if in_range "a" "z" c then ascii_of_nat (nat_of_ascii c - 32) else c.

Fixpoint str_upper (s : string) : string :=
  match s with
  | EmptyString => EmptyString
  | String c s' => String (chr_upper c) (str_upper s')
  end.

(** [l[:-n]] and [l[-n:]] for [n > 0] *)
Definition list_but_last {A : Type} (n : nat) (l : list A) : list A :=
  firstn (List.length l - n) l.

Definition list_last {A : Type} (n : nat) (l : list A) : list A :=
  skipn (List.length l - n) l.

(** ** Python exceptions *)

Inductive exn :=
  | AttributeError | IndexError | KeyError | TypeError | TaggerError.

Inductive res (A : Type) :=
  | Ok (a : A)
  | Raise (e : exn).
Arguments Ok {A} a.
Arguments Raise {A} e.

Definition bind {A B : Type} (m : res A) (f : A -> res B) : res B :=
  match m with
  | Ok a => f a
  | Raise e => Raise e
  end.

(** [try: body except Exception: handler] *)
Definition try_except {A : Type} (body : res A) (handler : exn -> res A)
  : res A :=
  match body with
  | Ok a => Ok a
  | Raise e => handler e
  end.

Notation "x <- m ;; f" := (bind m (fun x => f))
  (at level 61, m at next level, right associativity).

(** [l[i]] for [i >= 0], and [l[-1]] *)
Definition list_index {A : Type} (l : list A) (i : nat) : res A :=
  match nth_error l i with
  | Some a => Ok a
  | None => Raise IndexError
  end.

Definition list_index_last {A : Type} (l : list A) : res A :=
  match rev l with
  | a :: _ => Ok a
  | [] => Raise IndexError
  end.

(** ** The regular expressions of [re] that the scripts use *)

Module Re.

(** Patterns: a literal character, a greedy repetition [p{lo,hi}] of a
    character class ([hi = None]: no upper bound), a sequence, the greedy
    optional group [(?:r)?], the capturing group 1, [\b], [$] and the empty
    pattern. *)
Inductive re :=
  | Chr (c : ascii)
  | Rep (p : ascii -> bool) (lo : nat) (hi : option nat)
  | Seq (r1 r2 : re)
  | Opt (r : re)
  | Grp (r : re)
  | WordB
  | Eos
  | Eps.

(** A position in the subject: the character before it, its index and the
    rest of the subject. *)
Record cursor := Cursor {
  prev : option ascii;
  pos : nat;
  rest : string
}.

(** [\d], [\s], [\w] and [[A-Z]] *)
Definition is_d (c : ascii) : bool := isdigit c.
Definition is_s (c : ascii) : bool := isspace c.
Definition is_w (c : ascii) : bool :=
  (isalpha c || isdigit c || Ascii.eqb c "_")%bool.
Definition is_AZ (c : ascii) : bool := in_range "A" "Z" c.

Definition is_w_opt (c : option ascii) : bool :=
  match c with
  | Some a => is_w a
  | None => false
  end.

Definition next (c : cursor) : option ascii :=
  match rest c with
  | EmptyString => None
  | String a _ => Some a
  end.

(** [\b]: exactly one side of the position is a word character. *)
Definition at_boundary (c : cursor) : bool :=
  xorb (is_w_opt (prev c)) (is_w_opt (next c)).

(** [$] without [re.MULTILINE]: the end, or just before a final newline. *)
Definition at_end (c : cursor) : bool :=
  match rest c with
  | EmptyString => true
  | String a EmptyString => Ascii.eqb a "010"
  | _ => false
  end.

Definition below (n : nat) (hi : option nat) : bool :=
  match hi with
  | Some h => (n <? h)%nat
  | None => true
  end.

Section Matcher.
Context {A : Type}.

(** Greedy repetition: [n] characters of the class are consumed so far; one
    more is taken when possible, and on failure of the continuation the
    shorter repetition is tried. *)
Fixpoint rep (p : ascii -> bool) (lo : nat) (hi : option nat) (n : nat)
  (pv : option ascii) (i : nat) (s : string)
  (k : cursor -> option A) : option A :=
  let stop := if (lo <=? n)%nat then k (Cursor pv i s) else None in
  match s with
  | String a s' =>
      if (p a && below n hi)%bool then
        match rep p lo hi (S n) (Some a) (S i) s' k with
        | Some x => Some x
        | None => stop
        end
      else stop
  | EmptyString => stop
  end.

(** Backtracking matcher in continuation-passing style; [g] is the span of
    group 1. *)
Fixpoint run (r : re) (c : cursor) (g : option (nat * nat))
  (k : cursor -> option (nat * nat) -> option A) : option A :=
  match r with
  | Chr a =>
      match rest c with
      | String b s' =>
          if Ascii.eqb a b then k (Cursor (Some b) (S (pos c)) s') g else None
      | EmptyString => None
      end
  | Rep p lo hi => rep p lo hi 0 (prev c) (pos c) (rest c) (fun c' => k c' g)
  | Seq r1 r2 => run r1 c g (fun c' g' => run r2 c' g' k)
  | Opt r1 =>
      match run r1 c g k with
      | Some x => Some x
      | None => k c g
      end
  | Grp r1 => run r1 c g (fun c' _ => k c' (Some (pos c, pos c')))
  | WordB => if at_boundary c then k c g else None
  | Eos => if at_end c then k c g else None
  | Eps => k c g
  end.

End Matcher.

(** A match object: [m.start()], [m.end()] and the span of group 1. *)
Record mtch := Mtch {
  m_start : nat;
  m_end : nat;
  m_group1 : option (nat * nat)
}.

Definition match_at (r : re) (c : cursor) : option mtch :=
  run r c None (fun c' g => Some (Mtch (pos c) (pos c') g)).

(** [re.search(r, s)]: the match at the leftmost position that has one. *)
Fixpoint search_from (r : re) (pv : option ascii) (i : nat) (s : string)
  : option mtch :=
  match match_at r (Cursor pv i s) with
  | Some m => Some m
  | None =>
      match s with
      | String a s' => search_from r (Some a) (S i) s'
      | EmptyString => None
      end
  end.

Definition search (r : re) (s : string) : option mtch :=
  search_from r None 0 s.

(** [m.group(1)] on the subject [s]; [AttributeError] when [m] is [None].
    Python gives [None] when group 1 took no part in the match; no pattern
    of the scripts allows that, and the model raises there. *)
Definition group1 (m : option mtch) (s : string) : res string :=
  match m with
  | Some m =>
      match m_group1 m with
      | Some (b, e) => Ok (str_take (e - b) (str_drop b s))
      | None => Raise TypeError
      end
  | None => Raise AttributeError
  end.

(** [m.start()] *)
Definition start (m : option mtch) : res nat :=
  match m with
  | Some m => Ok (m_start m)
  | None => Raise AttributeError
  end.

(** [re.sub(r, repl, s)] for a pattern that matches no empty string: the
    matches are replaced from left to right, [skip] characters of the last
    match are still to be passed over. *)
Fixpoint sub_from (r : re) (repl : string) (skip : nat) (pv : option ascii)
  (i : nat) (s : string) : string :=
  match skip with
  | S n =>
      match s with
      | String a s' => sub_from r repl n (Some a) (S i) s'
      | EmptyString => EmptyString
      end
  | O =>
      let copy :=
        match s with
        | String a s' => String a (sub_from r repl 0 (Some a) (S i) s')
        | EmptyString => EmptyString
        end in
      match match_at r (Cursor pv i s) with
      | Some m =>
          if (i <? m_end m)%nat then
            repl ++ match s with
                    | String a s' =>
                        sub_from r repl (m_end m - i - 1) (Some a) (S i) s'
                    | EmptyString => EmptyString
                    end
          else copy
      | None => copy
      end
  end.

Definition sub (r : re) (repl : string) (s : string) : string :=
  sub_from r repl 0 None 0 s.

(** A character of a set, [[...]]. *)
Definition one_of (chars : string) : re :=
  Rep (fun c => has_char c chars) 1 (Some 1).

(** The patterns in which group 1 takes part in every match. *)
Fixpoint sets_group (r : re) : bool :=
  match r with
  | Grp _ => true
  | Seq r1 r2 => (sets_group r1 || sets_group r2)%bool
  | _ => false
  end.

(** The strings a pattern consumes; [\b] and [$] consume nothing. *)
Fixpoint matches (r : re) (t : string) : Prop :=
  match r with
  | Chr a => t = String a EmptyString
  | Rep p lo hi =>
      str_all p t = true /\ lo <= String.length t /\
      match hi with
      | Some h => String.length t <= h
      | None => True
      end
  | Seq r1 r2 => exists t1 t2, t = t1 ++ t2 /\ matches r1 t1 /\ matches r2 t2
  | Opt r1 => t = EmptyString \/ matches r1 t
  | Grp r1 => matches r1 t
  | WordB | Eos | Eps => t = EmptyString
  end.

(** The character before the position reached by reading [t]. *)
Fixpoint prev_after (pv : option ascii) (t : string) : option ascii :=
  match t with
  | EmptyString => pv
  | String a t' => prev_after (Some a) t'
  end.

(** The patterns that contain the capturing group. *)
Fixpoint has_group (r : re) : bool :=
  match r with
  | Grp _ => true
  | Seq r1 r2 => (has_group r1 || has_group r2)%bool
  | Opt r1 => has_group r1
  | _ => false
  end.

End Re.

(** ** json_to_dealmachine_csv.py: validation *)

Module JsonToCsv.

(** The dict [address_parts]: the four keys the parser sets and the key
    [county] the caller adds; [fixed_parts] has the first four only. *)
Record parts := Parts {
  street : string;
  city : string;
  state : string;
  zip_code : string;
  county : option string
}.

(** [address_parts.get('county')], as a truth value *)
Definition get_county (p : parts) : bool :=
  match county p with
  | Some c => truthy c
  | None => false
  end.

(** Lines 178-217: the zip repair.  The result is the new value of the local
    [zip_code] and the list [errors] at line 218. *)
Definition keep_zip_char (c : ascii) : bool :=
  (isdigit c || Ascii.eqb c "-")%bool.

(** Lines 181-194. *)
Definition zip_length_fix (state zip_clean : string) : string * list string :=
  if ((String.length zip_clean =? 6)%nat && negb (has_char "-" zip_clean))%bool then
    (str_take 5 zip_clean ++ "-" ++ str_drop 5 zip_clean, [])
  else if ((String.length zip_clean =? 4)%nat && negb (has_char "-" zip_clean))%bool then
    if String.eqb state "FL" then ("3" ++ zip_clean, [])
    else (zip_clean, ["Invalid 4-digit zip: " ++ zip_clean])
  else (zip_clean, []).

(** Lines 196-215. *)
Definition zip_format_check (zip_clean : string) (errors : list string)
  : string * list string :=
  if has_char "-" zip_clean then
    match str_split "-" zip_clean with
    | [p0; p1] =>
        if (negb (String.length p0 =? 5)%nat || negb (str_isdigit p0))%bool then
          (zip_clean, list_append errors ("Invalid zip format (first part): " ++ zip_clean))
        else if truthy p1 then
          if (String.length p1 <? 4)%nat then (p0, errors)
          else if (negb (String.length p1 =? 4)%nat || negb (str_isdigit p1))%bool then
            (zip_clean, list_append errors ("Invalid zip+4 format (second part): " ++ zip_clean))
          else (zip_clean, errors)
        else (zip_clean, errors)
    | _ =>
        (zip_clean, list_append errors ("Invalid zip+4 format (multiple hyphens): " ++ zip_clean))
    end
  else
    if (negb (String.length zip_clean =? 5)%nat || negb (str_isdigit zip_clean))%bool then
      (zip_clean, list_append errors ("Invalid zip format: " ++ zip_clean))
    else (zip_clean, errors).

Definition fix_zip (state zip_code : string) : string * list string :=
  if truthy zip_code then
    let zip_clean := str_filter keep_zip_char zip_code in
    let '(zip_clean, errors) := zip_length_fix state zip_clean in
    zip_format_check zip_clean errors
  else (zip_code, []).

Definition CANADIAN : list string :=
  ["ON"; "BC"; "AB"; "QC"; "MB"; "SK"; "NS"; "NB"; "PE"; "NL"; "YT"; "NT"; "NU"].

(** Lines 246-252: the reasons for missing fields. *)
Definition missing_reasons (street city zip_code : string) : list string :=
  ((if truthy street then [] else ["Missing street address"]) ++
   (if truthy city then [] else ["Missing city"]) ++
   (if truthy zip_code then [] else ["Missing zip code"]))%list.

(** The three [return] statements of [validate_and_fix_address]. *)
Inductive exit := ExitCanadian | ExitPostalCode | ExitChecked.

(** [validate_and_fix_address] up to the final ['; '.join(errors)]: the
    returned dict, the truth value of [is_valid], the list [errors] and the
    [return] taken.  [is_valid] itself may be a falsy string or [None] in the
    source (the operands of [and]/[or] are returned); its truth value is what
    the caller tests. *)
Definition validate_reasons (address_parts : parts)
  : parts * bool * list string * exit :=
  let street := street address_parts in
  let city := city address_parts in
  let state := state address_parts in
  let '(zip_code, errors) := fix_zip state (zip_code address_parts) in
  if str_in state CANADIAN then
    (address_parts, false,
     list_append errors ("Non-US address (Canadian province: " ++ state ++ ")"),
     ExitCanadian)
  else if (truthy zip_code && str_any isalpha zip_code)%bool then
    (address_parts, false,
     list_append errors ("Canadian/non-US postal code: " ++ zip_code),
     ExitPostalCode)
  else
    let has_full_address :=
      (truthy street && truthy city && truthy state && truthy zip_code)%bool in
    let has_county_fallback :=
      (get_county address_parts && truthy state && truthy zip_code)%bool in
    let errors :=
      if (negb (truthy street) && get_county address_parts)%bool then errors
      else if negb has_full_address then
        (errors ++ missing_reasons street city zip_code)%list
      else errors in
    let fixed_parts := Parts street city state zip_code None in
    let is_valid :=
      ((has_full_address || (has_county_fallback && truthy state))
       && (List.length errors =? 0)%nat)%bool in
    (fixed_parts, is_valid, errors, ExitChecked).

(** The returned tuple [(parts, is_valid, error_message)]; the argument
    [original_address] is not used by the source. *)
Definition validate_and_fix_address (address_parts : parts)
  (original_address : string) : parts * bool * string :=
  let '(p, is_valid, errors, _) := validate_reasons address_parts in
  (p, is_valid, str_join "; " errors).


(** The local [zip_code] and the list [errors] at line 218. *)
Definition repaired_zip (p : parts) : string :=
  fst (fix_zip (state p) (zip_code p)).

Definition zip_reasons (p : parts) : list string :=
  snd (fix_zip (state p) (zip_code p)).

(** The truth value of [is_valid] at line 263, from the truth values of the
    fields and the reasons of the zip repair. *)
Definition checked_valid (p : parts) : bool :=
  let full :=
    (truthy (street p) && truthy (city p) && truthy (state p)
     && truthy (repaired_zip p))%bool in
  let county_only :=
    (negb (truthy (street p)) && get_county p && truthy (state p)
     && truthy (repaired_zip p))%bool in
  ((full || county_only)
   && match zip_reasons p with [] => true | _ :: _ => false end)%bool.

(** The record with the county the caller stores at line 289. *)
Definition with_county (n : parts) (c : option string) : parts :=
  Parts (street n) (city n) (state n) (zip_code n) c.

(** The sufficiency check in the words of the specification: not
    short-circuited, a full address or county, state and zip, and no reason
    from the zip repair. *)
Definition valid_as_specified (p : parts) : Prop :=
  snd (validate_reasons p) = ExitChecked /\
  ((truthy (street p) && truthy (city p) && truthy (state p)
    && truthy (repaired_zip p))%bool = true \/
   (get_county p && truthy (state p) && truthy (repaired_zip p))%bool = true) /\
  zip_reasons p = [].

End JsonToCsv.

(** ** json_to_dealmachine_csv.py: decomposition *)

(** A value read from the JSON input; [VOther] is a list or an object, which
    the parsers do not look into. *)
Inductive value :=
  | VNone
  | VBool (b : bool)
  | VInt (n : nat)
  | VStr (s : string)
  | VOther.

(** [d.get(k)] on a dict with string values, as an association list *)
Fixpoint dict_get (d : list (string * string)) (k : string) : option string :=
  match d with
  | [] => None
  | (k', v) :: d' => if String.eqb k k' then Some v else dict_get d' k
  end.

(** [d[k]] *)
Definition dict_item (d : list (string * string)) (k : string) : res string :=
  match dict_get d k with
  | Some v => Ok v
  | None => Raise KeyError
  end.

(** [d.get(k, default)] *)
Definition dict_get_default (d : list (string * string)) (k default : string)
  : string :=
  match dict_get d k with
  | Some v => v
  | None => default
  end.

Definition is_some {A : Type} (o : option A) : bool :=
  match o with
  | Some _ => true
  | None => false
  end.

Module Decompose.
Import Re JsonToCsv.

(** [r'\s+'] *)
Definition WHITESPACE : re := Rep is_s 1 None.

(** [r'\b(\d{5}(?:-\d{4})?)\b'] *)
Definition ZIP : re :=
  Seq WordB
   (Seq (Grp (Seq (Rep is_d 5 (Some 5))
                  (Opt (Seq (Chr "-") (Rep is_d 4 (Some 4))))))
        WordB).

(** [r'\b([A-Z]{2})\s*[,.]?\s*$'] *)
Definition STATE : re :=
  Seq WordB
   (Seq (Grp (Rep is_AZ 2 (Some 2)))
   (Seq (Rep is_s 0 None)
   (Seq (Rep (fun c => has_char c ",.") 0 (Some 1))
   (Seq (Rep is_s 0 None) Eos)))).

(** [r'[,.]+\s*$'] *)
Definition TRAILING : re :=
  Seq (Rep (fun c => has_char c ",.") 1 None) (Seq (Rep is_s 0 None) Eos).

(** [r'[,.()*]'] *)
Definition PUNCT : re := one_of ",.()*".

Definition empty_parts : parts := Parts "" "" "" "" None.

(** Lines 106-108, shared by both parsers. *)
Definition clean_address (location_address : string) : string :=
  let address := str_strip location_address in
  let address := str_replace "/" "," address in
  sub WHITESPACE " " address.

(** Lines 110-117. *)
Definition extract_zip (address : string) : res (string * string) :=
  let zip_match := search ZIP address in
  zip_code <- (if is_some zip_match then group1 zip_match address else Ok "") ;;
  address_without_zip <-
    (if is_some zip_match then
       i <- start zip_match ;; Ok (str_strip (str_take i address))
     else Ok address) ;;
  Ok (zip_code, address_without_zip).

(** Lines 119-128. *)
Definition extract_state (address_without_zip : string)
  : res (string * string) :=
  let state_match := search STATE address_without_zip in
  state <- (if is_some state_match then group1 state_match address_without_zip
            else Ok "FL") ;;
  address_without_state <-
    (if is_some state_match then
       i <- start state_match ;; Ok (str_strip (str_take i address_without_zip))
     else Ok address_without_zip) ;;
  Ok (state, str_strip (sub TRAILING "" address_without_state)).

(** Lines 130-143. *)
Definition split_street_city (address_without_state : string)
  : res (string * string) :=
  if has_char "," address_without_state then
    let parts := map str_strip (str_split "," address_without_state) in
    let parts := filter truthy parts in
    if (2 <=? List.length parts)%nat then
      city <- list_index_last parts ;;
      Ok (str_join " " (list_but_last 1 parts), city)
    else
      street <- (if (0 <? List.length parts)%nat then list_index parts 0
                 else Ok "") ;;
      Ok (street, "")
  else Ok (address_without_state, "").

Definition parse_address_regex (location_address : value) : res parts :=
  match location_address with
  | VStr s =>
      if negb (truthy s) then Ok empty_parts
      else
        let address := clean_address s in
        zw <- extract_zip address ;;
        let '(zip_code, address_without_zip) := zw in
        sw <- extract_state address_without_zip ;;
        let '(state, address_without_state) := sw in
        sc <- split_street_city address_without_state ;;
        let '(street, city) := sc in
        let street := str_strip (sub PUNCT "" street) in
        let city := str_strip (sub PUNCT "" city) in
        Ok (Parts street city state zip_code None)
  | _ => Ok empty_parts
  end.

(** The local [address_without_state] at line 129. *)
Definition address_without_state (location_address : string) : res string :=
  zw <- extract_zip (clean_address location_address) ;;
  sw <- extract_state (snd zw) ;;
  Ok (snd sw).

Definition STREET_COMPONENTS : list string :=
  ["AddressNumber"; "StreetNamePreDirectional"; "StreetNamePreModifier";
   "StreetName"; "StreetNamePostType"; "StreetNamePostDirectional";
   "SubaddressType"; "SubaddressIdentifier"; "OccupancyType";
   "OccupancyIdentifier"].

(** Lines 47-51: [parsed[component]] for the components in [parsed]. *)
Fixpoint street_parts (parsed : list (string * string))
  (components : list string) : res (list string) :=
  match components with
  | [] => Ok []
  | c :: cs =>
      if is_some (dict_get parsed c) then
        v <- dict_item parsed c ;;
        vs <- street_parts parsed cs ;;
        Ok (v :: vs)
      else street_parts parsed cs
  end.

Section Tagger.

(** [usaddress.tag], the external tagger: the tagged components, or an
    exception; and the flag [USADDRESS_AVAILABLE] set at import. *)
Variable usaddress_tag : string -> res (list (string * string)).
Variable USADDRESS_AVAILABLE : bool.

Definition parse_address_with_usaddress (location_address : value)
  : res parts :=
  match location_address with
  | VStr s =>
      if negb (truthy s) then Ok empty_parts
      else
        let address := clean_address s in
        try_except
          (parsed <- usaddress_tag address ;;
           sp <- street_parts parsed STREET_COMPONENTS ;;
           let street := str_strip (str_join " " sp) in
           let city := dict_get_default parsed "PlaceName" "" in
           let state := dict_get_default parsed "StateName" "FL" in
           let zip_code := dict_get_default parsed "ZipCode" "" in
           let '(city, state) :=
             if (truthy state && (2 <? String.length state)%nat)%bool then
               (if truthy city then city ++ " " ++ state else state, "FL")
             else (city, state) in
           let street := str_strip (sub PUNCT "" street) in
           let city := str_strip (sub PUNCT "" city) in
           let state := str_strip (sub PUNCT "" state) in
           let zip_code :=
             if truthy zip_code then str_strip (sub PUNCT "" zip_code)
             else "" in
           Ok (Parts street city state zip_code None))
          (fun _ => parse_address_regex location_address)
  | _ => Ok empty_parts
  end.

Definition parse_address (location_address : value) : res parts :=
  if USADDRESS_AVAILABLE then parse_address_with_usaddress location_address
  else parse_address_regex location_address.

End Tagger.

End Decompose.

(** ** add_leads_to_dealmachine.py: decomposition *)

Module AddLeads.
Import Re.

(** The dict returned by [parse_address]. *)
Record lead_parts := LeadParts {
  address : string;
  city : string;
  state : string;
  zip : string
}.

(** [r'\b(\d{5}(?:-\d{4})?)\s*$'] *)
Definition ZIP : re :=
  Seq WordB
   (Seq (Grp (Seq (Rep is_d 5 (Some 5))
                  (Opt (Seq (Chr "-") (Rep is_d 4 (Some 4))))))
   (Seq (Rep is_s 0 None) Eos)).

(** [r'\b([A-Z]{2})\s*$'] *)
Definition STATE : re :=
  Seq WordB (Seq (Grp (Rep is_AZ 2 (Some 2))) (Seq (Rep is_s 0 None) Eos)).

Definition street_indicators : list string :=
  ["ST"; "STREET"; "AVE"; "AVENUE"; "ROAD"; "RD"; "BLVD";
   "BOULEVARD"; "LANE"; "LN"; "DR"; "DRIVE"; "CT"; "COURT";
   "WAY"; "PL"; "PLACE"; "PKWY"; "PARKWAY"; "CIR"; "CIRCLE";
   "TER"; "TERRACE"; "HWY"; "HIGHWAY"].

(** [word.rstrip('.').upper() in street_indicators] *)
Definition is_indicator (word : string) : bool :=
  str_in (str_upper (str_rstrip_by (Ascii.eqb ".") word)) street_indicators.

(** Lines 181-188: the loop over [enumerate(words)] from index [idx]; the
    result is [street_end_idx]. *)
Fixpoint find_street_end (idx : nat) (words : list string) : option nat :=
  match words with
  | [] => None
  | word :: words' =>
      if is_indicator word then Some (idx + 1)
      else find_street_end (S idx) words'
  end.

(** Lines 141-158: the zip, the state and what is left of the string. *)
Definition extract (address_string : string) : res (string * string * string) :=
  let zip_match := search ZIP address_string in
  zip_code <- (if is_some zip_match then group1 zip_match address_string
               else Ok "") ;;
  address_without_zip <-
    (if truthy zip_code then
       i <- start zip_match ;; Ok (str_strip (str_take i address_string))
     else Ok address_string) ;;
  let state_match := search STATE address_without_zip in
  state <- (if is_some state_match then group1 state_match address_without_zip
            else Ok "") ;;
  address_without_state <-
    (if truthy state then
       i <- start state_match ;; Ok (str_strip (str_take i address_without_zip))
     else Ok address_without_zip) ;;
  Ok (zip_code, state, address_without_state).

(** Lines 194-203: the last one or two words are the city. *)
Definition last_words_city (address_without_state : string)
  (words : list string) : res (string * string) :=
  if (3 <? List.length words)%nat then
    Ok (str_join " " (list_but_last 2 words), str_join " " (list_last 2 words))
  else if (1 <? List.length words)%nat then
    c <- list_index_last words ;;
    Ok (str_join " " (list_but_last 1 words), c)
  else Ok (address_without_state, "").

(** Lines 169-203.  [street_end_idx] is [None] or a positive number; it is
    truthy when it is not [None] and not zero. *)
Definition split_street_city (address_without_state : string)
  : res (string * string) :=
  if has_char "," address_without_state then
    let parts := str_split1 "," address_without_state in
    p0 <- list_index parts 0 ;;
    p1 <- list_index parts 1 ;;
    Ok (str_strip p0, str_strip p1)
  else if has_char "/" address_without_state then
    let parts := str_split1 "/" address_without_state in
    p0 <- list_index parts 0 ;;
    p1 <- list_index parts 1 ;;
    Ok (str_strip p0, str_strip p1)
  else
    let words := str_words address_without_state in
    let street_end_idx := find_street_end 0 words in
    match street_end_idx with
    | Some i =>
        if ((0 <? i)%nat && (i <? List.length words)%nat)%bool then
          Ok (str_join " " (firstn i words), str_join " " (skipn i words))
        else last_words_city address_without_state words
    | None => last_words_city address_without_state words
    end.

Definition parse_address (address_string : string) : res lead_parts :=
  try_except
    (zsa <- extract address_string ;;
     let '(zip_code, state, address_without_state) := zsa in
     if (truthy state && truthy zip_code)%bool then
       sc <- split_street_city address_without_state ;;
       let '(street_address, city) := sc in
       Ok (LeadParts street_address city state zip_code)
     else Ok (LeadParts address_string "" "" ""))
    (fun _ => Ok (LeadParts address_string "" "" "")).

End AddLeads.

(** ** json_to_dealmachine_csv.py: the conversion loop *)

Module Convert.
Import JsonToCsv Decompose.

(** What the loop reads of a record of the input: the values of
    [record.get(key, '')] for the six keys.  The county and the business name
    are strings, or [None] for a JSON null; the other values are written out
    as they are. *)
Record tax_record := TaxRecord {
  location_address : value;
  record_county : option string;
  owner_name : value;
  business_name : option string;
  total_warrant_amount : value;
  number_of_warrants : value
}.

(** The dicts appended to [csv_rows] and to [skipped_rows]. *)
Record csv_row := CsvRow {
  address_line_1 : string;
  row_city : string;
  row_state : string;
  row_zip_code : string;
  row_county : option string;
  row_owner_name : value;
  row_business_name : string;
  row_total_warrant_amount : value;
  row_number_of_warrants : value;
  row_original_address : value
}.

Record skipped_row := SkippedRow {
  skipped_original : value;
  skipped_reason : string;
  skipped_owner : value;
  skipped_county : option string;
  skipped_amount : value;
  skipped_warrants : value
}.

(** [x or ''] for a string or [None] *)
Definition or_empty (x : option string) : string :=
  match x with
  | Some s => s
  | None => ""
  end.

(** The truth value of a string or [None] *)
Definition truthy_opt (x : option string) : bool :=
  match x with
  | Some s => truthy s
  | None => false
  end.

(** The second argument of [validate_and_fix_address], which it does not
    use. *)
Definition address_text (v : value) : string :=
  match v with
  | VStr s => s
  | _ => ""
  end.

Section Tagger.

Variable usaddress_tag : string -> res (list (string * string)).
Variable USADDRESS_AVAILABLE : bool.

(** Lines 282-321: the body of the loop, from the lists so far to the lists
    after the record. *)
Definition convert_record (record : tax_record)
  (csv_rows : list csv_row) (skipped_rows : list skipped_row)
  : res (list csv_row * list skipped_row) :=
  let original_address := location_address record in
  address_parts <- parse_address usaddress_tag USADDRESS_AVAILABLE
                     original_address ;;
  let address_parts := with_county address_parts (record_county record) in
  let '(fixed_parts, is_valid, error_msg) :=
    validate_and_fix_address address_parts (address_text original_address) in
  if negb is_valid then
    Ok (csv_rows,
        list_append skipped_rows
          (SkippedRow original_address error_msg (owner_name record)
             (record_county record) (total_warrant_amount record)
             (number_of_warrants record)))
  else
    let row :=
      CsvRow (street fixed_parts) (city fixed_parts) (state fixed_parts)
        (zip_code fixed_parts) (record_county record) (owner_name record)
        (or_empty (business_name record)) (total_warrant_amount record)
        (number_of_warrants record) original_address in
    if (truthy (address_line_1 row) || truthy_opt (row_county row))%bool then
      Ok (list_append csv_rows row, skipped_rows)
    else Ok (csv_rows, skipped_rows).

(** Lines 279-321: the loop over [data]. *)
Fixpoint convert_loop (data : list tax_record)
  (csv_rows : list csv_row) (skipped_rows : list skipped_row)
  : res (list csv_row * list skipped_row) :=
  match data with
  | [] => Ok (csv_rows, skipped_rows)
  | record :: data' =>
      lists <- convert_record record csv_rows skipped_rows ;;
      convert_loop data' (fst lists) (snd lists)
  end.

Definition convert_records (data : list tax_record)
  : res (list csv_row * list skipped_row) :=
  convert_loop data [] [].

End Tagger.

End Convert.

(** ** acs_income_by_zip.py *)

Module Census.

(** [s.startswith(p)] is [str_prefix p s]; [s[-n:]] for [n > 0]: *)
Definition str_last (n : nat) (s : string) : string :=
  str_drop (String.length s - n) s.

(** [extract_zip_from_geo_id]; the argument is [None] for a missing value
    ([pd.isna]), and a string otherwise (the data is read with
    [dtype=str]). *)
Definition extract_zip_from_geo_id (geo_id : option string) : option string :=
  match geo_id with
  | None => None
  | Some geo_id =>
      if (str_prefix "860Z" geo_id && (14 <=? String.length geo_id)%nat)%bool then
        let zip_code := str_last 5 geo_id in
        if (str_isdigit zip_code && (String.length zip_code =? 5)%nat)%bool
        then Some zip_code
        else None
      else None
  end.

End Census.

(** ** deduplicate.py *)

Module Dedup.

Section Amounts.

(** The numbers of the amounts are floats: the type, [0.0], [+], [round(x, 2)]
    and [<] are taken as they come. *)
Variable amount : Type.
Variable zero : amount.
Variable add : amount -> amount -> amount.
Variable round2 : amount -> amount.
Variable ltb : amount -> amount -> bool.

(** An entry of the input.  The owner name and the address, the two parts of
    the key, are strings or [None] for a JSON null. *)
Record entry := Entry {
  e_business_name : value;
  e_owner_name : option string;
  e_location_address : option string;
  e_county : value;
  e_warrant_number : value;
  e_amount : amount
}.

Definition key : Type := (option string * option string)%type.

Definition opt_eqb (a b : option string) : bool :=
  match a, b with
  | Some x, Some y => String.eqb x y
  | None, None => true
  | _, _ => false
  end.

Definition key_eqb (k1 k2 : key) : bool :=
  (opt_eqb (fst k1) (fst k2) && opt_eqb (snd k1) (snd k2))%bool.

Definition entry_key (e : entry) : key :=
  (e_owner_name e, e_location_address e).

(** A value of the [defaultdict]. *)
Record group := Group {
  warrant_numbers : list value;
  total_amount : amount;
  dba_business_name : value;
  g_owner_name : option string;
  g_location_address : option string;
  g_county : value
}.

(** Lines 18-25: the default value. *)
Definition default_group : group :=
  Group [] zero VNone None None VNone.

(** Lines 33-42: the six updates of [deduplicated[key]]. *)
Definition update_group (e : entry) (g : group) : group :=
  Group (list_append (warrant_numbers g) (e_warrant_number e))
        (add (total_amount g) (e_amount e))
        (e_business_name e) (e_owner_name e) (e_location_address e)
        (e_county e).

(** [deduplicated[key]] updated: a dict keeps its keys in the order of their
    first insertion, a missing key is added at the end with the default
    value. *)
Fixpoint update_key (k : key) (e : entry) (d : list (key * group))
  : list (key * group) :=
  match d with
  | [] => [(k, update_group e default_group)]
  | (k', g) :: d' =>
      if key_eqb k k' then (k', update_group e g) :: d'
      else (k', g) :: update_key k e d'
  end.

(** Lines 28-42: the loop over [data], from left to right. *)
Definition deduplicate (data : list entry) : list (key * group) :=
  fold_left (fun d e => update_key (entry_key e) e d) data [].

(** A dict of [output_data]. *)
Record output_row := OutputRow {
  o_business_name : value;
  o_owner_name : option string;
  o_location_address : option string;
  o_county : value;
  o_warrant_numbers : list value;
  o_total_warrant_amount : amount;
  o_number_of_warrants : nat
}.

(** Lines 47-55. *)
Definition output_of (g : group) : output_row :=
  OutputRow (dba_business_name g) (g_owner_name g) (g_location_address g)
            (g_county g) (warrant_numbers g) (round2 (total_amount g))
            (List.length (warrant_numbers g)).

(** Line 58: [sort(key=..., reverse=True)], a stable sort into descending
    order of the amounts: a row is placed after the rows that are not smaller
    and came before it. *)
Fixpoint insert_desc (x : output_row) (l : list output_row) : list output_row :=
  match l with
  | [] => [x]
  | y :: l' =>
      if ltb (o_total_warrant_amount x) (o_total_warrant_amount y)
      then y :: insert_desc x l'
      else x :: y :: l'
  end.

Definition sort_desc (l : list output_row) : list output_row :=
  fold_right insert_desc [] l.

(** The entries of the input with a given key, in the order of the input,
    and the group that the six updates make of a list of entries. *)
Definition entries_with (k : key) (data : list entry) : list entry :=
  filter (fun e => key_eqb (entry_key e) k) data.

Definition group_of (es : list entry) : group :=
  fold_left (fun g e => update_group e g) es default_group.

(** The key of a row of the output. *)
Definition row_key (r : output_row) : key :=
  (o_owner_name r, o_location_address r).

(** Lines 28-58: [output_data] as it is written. *)
Definition deduplicate_taxes (data : list entry) : list output_row :=
  sort_desc (map (fun kg => output_of (snd kg)) (deduplicate data)).

End Amounts.

Arguments Entry {amount}.
Arguments e_business_name {amount} e.
Arguments e_owner_name {amount} e.
Arguments e_location_address {amount} e.
Arguments e_county {amount} e.
Arguments e_warrant_number {amount} e.
Arguments e_amount {amount} e.
Arguments Group {amount}.
Arguments warrant_numbers {amount} g.
Arguments total_amount {amount} g.
Arguments dba_business_name {amount} g.
Arguments g_owner_name {amount} g.
Arguments g_location_address {amount} g.
Arguments g_county {amount} g.
Arguments OutputRow {amount}.
Arguments o_business_name {amount} o.
Arguments o_owner_name {amount} o.
Arguments o_location_address {amount} o.
Arguments o_county {amount} o.
Arguments o_warrant_numbers {amount} o.
Arguments o_total_warrant_amount {amount} o.
Arguments o_number_of_warrants {amount} o.
Arguments entry_key {amount} e.
Arguments default_group {amount} zero.
Arguments update_group {amount} add e g.
Arguments update_key {amount} zero add k e d.
Arguments deduplicate {amount} zero add data.
Arguments output_of {amount} round2 g.
Arguments insert_desc {amount} ltb x l.
Arguments sort_desc {amount} ltb l.
Arguments entries_with {amount} k data.
Arguments group_of {amount} zero add es.
Arguments row_key {amount} r.
Arguments deduplicate_taxes {amount} zero add round2 ltb data.

End Dedup.

(** ** The splits of the specification *)

(** The split of step 4, first case: once, at the first comma of what is left
    after the zip and the state; the left part is the street and the right
    part, later commas included, the city. *)
Definition first_comma_split (rest street city : string) : Prop :=
  exists l r,
    rest = l ++ "," ++ r /\ has_char "," l = false /\
    street = str_strip l /\ city = str_strip r.

(** The split of step 4, second case: at the first word that is a street
    suffix; the words up to and including it are the street, the others the
    city. *)
Definition suffix_split (words : list string) (street city : string) : Prop :=
  exists pre w post,
    words = (pre ++ w :: post)%list /\
    Forall (fun x => AddLeads.is_indicator x = false) pre /\
    AddLeads.is_indicator w = true /\
    street = str_join " " (pre ++ [w])%list /\
    city = str_join " " post.

(** The zip token of step 2: five digits, or five digits, a hyphen and four
    digits. *)
Definition zip_token (z : string) : Prop :=
  (String.length z = 5 /\ str_all isdigit z = true) \/
  (exists a b,
     z = a ++ "-" ++ b /\
     String.length a = 5 /\ str_all isdigit a = true /\
     String.length b = 4 /\ str_all isdigit b = true).

(** A token at the end of the string: only whitespace follows it. *)
Definition trailing (z s : string) : Prop :=
  exists pre ws, s = pre ++ z ++ ws /\ str_all isspace ws = true.

(** ** The zips of the validator *)

(** The cleaned zips (digits and hyphens only) that the repair takes without
    recording a reason: without a hyphen five or six characters, or four when
    the state is FL; with one hyphen, five characters before it and at most
    four after it. *)
Definition acceptable_zip (state c : string) : Prop :=
  (has_char "-" c = false /\
   (String.length c = 5 \/ String.length c = 6 \/
    (String.length c = 4 /\ state = "FL"))) \/
  (exists p0 p1,
     c = p0 ++ "-" ++ p1 /\
     has_char "-" p0 = false /\ has_char "-" p1 = false /\
     String.length p0 = 5 /\ String.length p1 <= 4).

(** The zips of accepted records: a zip token, or five digits and a hyphen. *)
Definition accepted_zip (z : string) : Prop :=
  zip_token z \/
  (exists a, z = a ++ "-" /\ String.length a = 5 /\ str_all isdigit a = true).

(** ** The rows of the conversion *)

(** A row made from a record: with its original address and its county. *)
Definition row_of_record (row : Convert.csv_row) (record : Convert.tax_record)
  : Prop :=
  Convert.row_original_address row = Convert.location_address record /\
  Convert.row_county row = Convert.record_county record.

(** A row with what an upload needs: a zip in one of the accepted forms, a
    state that is not empty and not a Canadian province, and a street with a
    city or, without a street, a county. *)
Definition row_ok (row : Convert.csv_row) : Prop :=
  accepted_zip (Convert.row_zip_code row) /\
  truthy (Convert.row_state row) = true /\
  str_in (Convert.row_state row) JsonToCsv.CANADIAN = false /\
  (truthy (Convert.address_line_1 row) = true /\
   truthy (Convert.row_city row) = true \/
   truthy (Convert.address_line_1 row) = false /\
   Convert.truthy_opt (Convert.row_county row) = true).

(** ** The fields of the decomposers *)

(** A state code: two capital letters. *)
Definition two_capitals (st : string) : Prop :=
  String.length st = 2 /\ str_all Re.is_AZ st = true.

(** The characters that [parse_address_regex] removes from street and city,
    and the slash that it turns into a comma first. *)
Definition is_punct (c : ascii) : bool := has_char c ",.()*/".

(** A street or a city as [parse_address_regex] returns it: stripped, and
    without comma, period, parenthesis, asterisk or slash. *)
Definition plain_field (f : string) : Prop :=
  str_strip f = f /\ str_any is_punct f = false.

(** A field without the characters that [parse_address] removes from its
    results: comma, period, parentheses and asterisk. *)
Definition clean_field (f : string) : Prop :=
  str_any (fun c => has_char c ",.()*") f = false.

(** ** Whitespace at the ends of a string *)

(** The string does not start, and does not end, with a whitespace
    character. *)
Definition no_lead_space (s : string) : bool :=
  match s with
  | String c _ => negb (isspace c)
  | EmptyString => true
  end.

Fixpoint no_trail_space (s : string) : bool :=
  match s with
  | EmptyString => true
  | String c EmptyString => negb (isspace c)
  | String _ s' => no_trail_space s'
  end.

(** * Properties *)

(** ** Strings *)

Lemma truthy_true_iff (s : string) : truthy s = true <-> s <> "".
Proof. destruct s; simpl; split; congruence. Qed.

Lemma truthy_false_iff (s : string) : truthy s = false <-> s = "".
Proof. destruct s; simpl; split; congruence. Qed.

Lemma str_length_append (s t : string) :
  String.length (s ++ t) = String.length s + String.length t.
Proof. induction s; simpl; auto. Qed.

Lemma str_append_assoc (s t u : string) : (s ++ t) ++ u = s ++ t ++ u.
Proof. induction s; simpl; congruence. Qed.

Lemma str_append_nil_r (s : string) : s ++ "" = s.
Proof. induction s; simpl; congruence. Qed.

Lemma str_all_append (p : ascii -> bool) (s t : string) :
  str_all p (s ++ t) = (str_all p s && str_all p t)%bool.
Proof. induction s; simpl; auto. rewrite IHs, andb_assoc. reflexivity. Qed.

Lemma str_any_append (p : ascii -> bool) (s t : string) :
  str_any p (s ++ t) = (str_any p s || str_any p t)%bool.
Proof. induction s; simpl; auto. rewrite IHs, orb_assoc. reflexivity. Qed.

Lemma str_all_impl (p q : ascii -> bool) (s : string) :
  (forall c, p c = true -> q c = true) ->
  str_all p s = true -> str_all q s = true.
Proof.
  intros Hpq. induction s as [|c s IH]; simpl; auto.
  intros H. apply andb_true_iff in H as [Hc Hs].
  rewrite (Hpq _ Hc), (IH Hs). reflexivity.
Qed.

Lemma str_any_none (p q : ascii -> bool) (s : string) :
  (forall c, p c = true -> q c = false) ->
  str_all p s = true -> str_any q s = false.
Proof.
  intros Hpq. induction s as [|c s IH]; simpl; auto.
  intros H. apply andb_true_iff in H as [Hc Hs].
  rewrite (Hpq _ Hc), (IH Hs). reflexivity.
Qed.

Lemma str_filter_all (p : ascii -> bool) (s : string) :
  str_all p (str_filter p s) = true.
Proof.
  induction s as [|c s IH]; simpl; auto.
  destruct (p c) eqn:E; simpl; auto. rewrite E, IH. reflexivity.
Qed.

Lemma str_filter_id (p : ascii -> bool) (s : string) :
  str_all p s = true -> str_filter p s = s.
Proof.
  induction s as [|c s IH]; simpl; auto.
  intros H. apply andb_true_iff in H as [Hc Hs].
  rewrite Hc, (IH Hs). reflexivity.
Qed.

Lemma str_all_take (p : ascii -> bool) (n : nat) (s : string) :
  str_all p s = true -> str_all p (str_take n s) = true.
Proof.
  revert s. induction n as [|n IH]; intros [|c s]; simpl; auto.
  intros H. apply andb_true_iff in H as [Hc Hs].
  rewrite Hc, (IH _ Hs). reflexivity.
Qed.

Lemma str_all_drop (p : ascii -> bool) (n : nat) (s : string) :
  str_all p s = true -> str_all p (str_drop n s) = true.
Proof.
  revert s. induction n as [|n IH]; intros [|c s]; simpl; auto.
  intros H. apply andb_true_iff in H as [Hc Hs]. auto.
Qed.

(** Every part of a split satisfies what the whole string satisfies, and
    holds no separator. *)
Lemma str_split_all (p : ascii -> bool) (sep : ascii) (s : string) :
  str_all p s = true -> Forall (fun x => str_all p x = true) (str_split sep s).
Proof.
  induction s as [|c s IH]; simpl; intros H.
  - repeat constructor.
  - apply andb_true_iff in H as [Hc Hs]. specialize (IH Hs).
    destruct (Ascii.eqb c sep).
    + constructor; auto.
    + destruct (str_split sep s) as [|h t].
      * repeat constructor. simpl. rewrite Hc. reflexivity.
      * inversion IH; subst. constructor; auto. simpl. rewrite Hc. auto.
Qed.

Lemma str_split_no_sep (sep : ascii) (s : string) :
  Forall (fun x => has_char sep x = false) (str_split sep s).
Proof.
  induction s as [|c s IH]; simpl.
  - repeat constructor.
  - destruct (Ascii.eqb c sep) eqn:E.
    + constructor; auto.
    + destruct (str_split sep s) as [|h t].
      * repeat constructor. unfold has_char. simpl.
        rewrite Ascii.eqb_sym, E. reflexivity.
      * inversion IH; subst. constructor; auto.
        unfold has_char in *. simpl. rewrite Ascii.eqb_sym, E. auto.
Qed.

Lemma str_prefix_append (p t : string) : str_prefix p (p ++ t) = true.
Proof. induction p; simpl; auto. rewrite Ascii.eqb_refl. auto. Qed.

Lemma str_contains_prefix (sub s : string) :
  str_prefix sub s = true -> str_contains sub s = true.
Proof. intros H. destruct s; simpl in *; rewrite H; reflexivity. Qed.

Lemma str_contains_append_l (sub s t : string) :
  str_contains sub t = true -> str_contains sub (s ++ t) = true.
Proof.
  intros H. induction s as [|c s IH]; simpl; auto.
  rewrite IH. apply orb_true_r.
Qed.

(** The last reason is a suffix of the joined message. *)
Lemma str_join_last (sep : string) (l : list string) (x : string) :
  exists pre, str_join sep (list_append l x) = pre ++ x.
Proof.
  unfold list_append. induction l as [|a l IH]; simpl.
  - exists "". reflexivity.
  - destruct IH as [pre IH]. destruct (l ++ [x])%list eqn:E.
    + destruct l; discriminate.
    + exists (a ++ sep ++ pre). rewrite IH, !str_append_assoc. reflexivity.
Qed.

(** The first reason is a prefix of the joined message. *)
Lemma str_join_first (sep x : string) (l : list string) :
  str_prefix x (str_join sep (x :: l)) = true.
Proof.
  destruct l; simpl.
  - rewrite <- (str_append_nil_r x) at 2. apply str_prefix_append.
  - apply str_prefix_append.
Qed.

(** ** Zip repair *)

Module ZipProps.
Import JsonToCsv.

Ltac by_cases_on_char c :=
  destruct c as [[] [] [] [] [] [] [] []]; vm_compute; intros; congruence.

Lemma digit_keep (c : ascii) : isdigit c = true -> keep_zip_char c = true.
Proof. by_cases_on_char c. Qed.

Lemma keep_not_alpha (c : ascii) : keep_zip_char c = true -> isalpha c = false.
Proof. by_cases_on_char c. Qed.

Lemma digit_not_hyphen (c : ascii) : isdigit c = true -> Ascii.eqb "-" c = false.
Proof. by_cases_on_char c. Qed.

Lemma keep_digit_or_hyphen (c : ascii) :
  keep_zip_char c = true -> Ascii.eqb "-" c = false -> isdigit c = true.
Proof. by_cases_on_char c. Qed.

(** A string of digits and hyphens without a hyphen is a string of digits. *)
Lemma keep_no_hyphen_digits (s : string) :
  str_all keep_zip_char s = true -> has_char "-" s = false ->
  str_all isdigit s = true.
Proof.
  unfold has_char. induction s as [|c s IH]; simpl; auto.
  intros H N. apply andb_true_iff in H as [Hc Hs].
  apply orb_false_iff in N as [Nc Ns].
  rewrite (keep_digit_or_hyphen _ Hc Nc), (IH Hs Ns). reflexivity.
Qed.

Lemma digits_no_hyphen (s : string) :
  str_all isdigit s = true -> has_char "-" s = false.
Proof. apply str_any_none. exact digit_not_hyphen. Qed.

Lemma has_hyphen_truthy (s : string) : has_char "-" s = true -> truthy s = true.
Proof. destruct s; simpl; auto. Qed.

Lemma length_truthy (s : string) (n : nat) :
  String.length s = S n -> truthy s = true.
Proof. destruct s; simpl; auto. discriminate. Qed.

(** The length repair keeps the string within digits and hyphens. *)
Lemma zip_length_fix_keep (st zc0 zc : string) (e : list string) :
  str_all keep_zip_char zc0 = true ->
  zip_length_fix st zc0 = (zc, e) ->
  str_all keep_zip_char zc = true.
Proof.
  intros K. unfold zip_length_fix.
  destruct ((String.length zc0 =? 6)%nat && negb (has_char "-" zc0))%bool.
  - intros H. apply pair_equal_spec in H as [<- _].
    rewrite !str_all_append, str_all_take, str_all_drop; auto.
  - destruct ((String.length zc0 =? 4)%nat && negb (has_char "-" zc0))%bool.
    + destruct (String.eqb st "FL"); intros [= <- <-]; auto.
    + intros [= <- <-]. exact K.
Qed.

(** A string with a hyphen is left alone by the length repair. *)
Lemma zip_length_fix_hyphen (st zc : string) :
  has_char "-" zc = true -> zip_length_fix st zc = (zc, []).
Proof.
  intros H. unfold zip_length_fix. rewrite H. simpl.
  rewrite !andb_false_r. reflexivity.
Qed.

Lemma zip_length_fix_five (st zc : string) :
  String.length zc = 5 -> zip_length_fix st zc = (zc, []).
Proof. intros H. unfold zip_length_fix. rewrite H. reflexivity. Qed.

Lemma list_append_not_nil {A : Type} (l : list A) (x : A) : list_append l x <> [].
Proof. unfold list_append. destruct l; discriminate. Qed.

(** The format check only adds reasons. *)
Lemma zip_format_check_errors (zc z' : string) (e e' : list string) :
  zip_format_check zc e = (z', e') -> e' = e \/ exists x, e' = list_append e x.
Proof.
  unfold zip_format_check.
  repeat match goal with
         | |- context [match ?x with _ => _ end] => destruct x
         end; intros [= <- <-]; eauto.
Qed.

(** What a zip that passed the format check looks like: the cleaned string
    with its hyphen, or five digits. *)
Lemma zip_format_check_passed (zc z' : string) (e : list string) :
  str_all keep_zip_char zc = true ->
  zip_format_check zc e = (z', []) ->
  e = [] /\
  ((z' = zc /\ has_char "-" zc = true) \/
   (String.length z' = 5 /\ str_isdigit z' = true)).
Proof.
  intros K H. split.
  - destruct (zip_format_check_errors _ _ _ _ H) as [E | [x E]]; auto.
    symmetry in E. apply list_append_not_nil in E. contradiction.
  - revert H. unfold zip_format_check.
    destruct (has_char "-" zc) eqn:Hy.
    + destruct (str_split "-" zc) as [|p0 [|p1 [|? ?]]];
        try (intros [= _ E]; apply list_append_not_nil in E; contradiction).
      destruct (negb (String.length p0 =? 5)%nat || negb (str_isdigit p0))%bool eqn:E0;
        try (intros [= _ E]; apply list_append_not_nil in E; contradiction).
      apply orb_false_iff in E0 as [L0 D0].
      apply negb_false_iff in L0, D0. apply Nat.eqb_eq in L0.
      destruct (truthy p1); [|intros [= <- _]; auto].
      destruct (String.length p1 <? 4)%nat; [intros [= <- _]; auto|].
      destruct (_ || _)%bool;
        try (intros [= _ E]; apply list_append_not_nil in E; contradiction).
      intros [= <- _]; auto.
    + destruct (negb (String.length zc =? 5)%nat || negb (str_isdigit zc))%bool eqn:E0;
        try (intros [= _ E]; apply list_append_not_nil in E; contradiction).
      apply orb_false_iff in E0 as [L0 D0].
      apply negb_false_iff in L0, D0. apply Nat.eqb_eq in L0.
      intros [= <- _]. auto.
Qed.

(** Five digits pass the whole repair unchanged. *)
Lemma fix_zip_five_digits (st z : string) :
  String.length z = 5 -> str_isdigit z = true -> fix_zip st z = (z, []).
Proof.
  intros L D. unfold fix_zip. rewrite (length_truthy _ _ L).
  unfold str_isdigit in D. apply andb_true_iff in D as [T D].
  rewrite (str_filter_id _ _ (str_all_impl _ _ _ digit_keep D)).
  rewrite (zip_length_fix_five _ _ L).
  unfold zip_format_check. rewrite (digits_no_hyphen _ D), L.
  unfold str_isdigit. rewrite T, D. reflexivity.
Qed.

(** The repair leaves a non-empty zip within digits and hyphens, without
    letters. *)
Lemma fix_zip_keep (st z z' : string) (e : list string) :
  truthy z = true -> fix_zip st z = (z', e) ->
  str_all keep_zip_char z' = true.
Proof.
  intros T. unfold fix_zip. rewrite T.
  destruct (zip_length_fix st (str_filter keep_zip_char z)) as [zc e0] eqn:E.
  pose proof (zip_length_fix_keep _ _ _ _ (str_filter_all _ _) E) as K.
  unfold zip_format_check.
  destruct (has_char "-" zc).
  - pose proof (str_split_all keep_zip_char "-" zc K) as F.
    destruct (str_split "-" zc) as [|p0 [|p1 [|? ?]]];
      try (intros [= <- _]; exact K).
    inversion F; subst.
    repeat match goal with
           | |- context [if ?x then _ else _] => destruct x
           end; intros [= <- _]; auto.
  - destruct (_ || _)%bool; intros [= <- _]; exact K.
Qed.

Lemma fix_zip_no_alpha (st z z' : string) (e : list string) :
  fix_zip st z = (z', e) -> (truthy z' && str_any isalpha z')%bool = false.
Proof.
  intros H. destruct (truthy z) eqn:T.
  - rewrite (str_any_none _ _ _ keep_not_alpha (fix_zip_keep _ _ _ _ T H)).
    apply andb_false_r.
  - unfold fix_zip in H. rewrite T in H. injection H as <- _.
    rewrite T. reflexivity.
Qed.

(** A repaired zip without reasons is repaired to itself. *)
Lemma fix_zip_stable (st z z' : string) :
  truthy z = true -> fix_zip st z = (z', []) -> fix_zip st z' = (z', []).
Proof.
  intros T. unfold fix_zip at 1. rewrite T.
  destruct (zip_length_fix st (str_filter keep_zip_char z)) as [zc e0] eqn:E.
  pose proof (zip_length_fix_keep _ _ _ _ (str_filter_all _ _) E) as K.
  intros H.
  destruct (zip_format_check_passed _ _ _ K H) as [-> [[-> Hy] | [L D]]].
  - unfold fix_zip. rewrite (has_hyphen_truthy _ Hy), (str_filter_id _ _ K).
    rewrite (zip_length_fix_hyphen _ _ Hy). exact H.
  - apply fix_zip_five_digits; assumption.
Qed.

End ZipProps.

(** ** Validation *)

Module ValidatorProps.
Import JsonToCsv ZipProps.

Lemma str_in_iff (x : string) (l : list string) : str_in x l = true <-> In x l.
Proof.
  unfold str_in. rewrite existsb_exists. split.
  - intros [y [Hy E]]. apply String.eqb_eq in E. subst. exact Hy.
  - intros H. exists x. split; auto. apply String.eqb_refl.
Qed.

Lemma fix_zip_eq (p : parts) :
  fix_zip (state p) (zip_code p) = (repaired_zip p, zip_reasons p).
Proof. unfold repaired_zip, zip_reasons. destruct (fix_zip _ _); reflexivity. Qed.

(** The statement at line 220 is reached with these values, and the second
    early [return] is never taken: a repaired zip holds no letter. *)
Lemma validate_reasons_canadian (p : parts) :
  str_in (state p) CANADIAN = true ->
  validate_reasons p =
    (p, false,
     list_append (zip_reasons p)
       ("Non-US address (Canadian province: " ++ state p ++ ")"),
     ExitCanadian).
Proof.
  intros H. unfold validate_reasons. rewrite (fix_zip_eq p), H. reflexivity.
Qed.

Lemma validate_reasons_checked (p : parts) :
  str_in (state p) CANADIAN = false ->
  exists errors,
    validate_reasons p =
      (Parts (street p) (city p) (state p) (repaired_zip p) None,
       checked_valid p, errors, ExitChecked).
Proof.
  intros H. unfold validate_reasons, checked_valid.
  rewrite (fix_zip_eq p), H.
  rewrite (fix_zip_no_alpha _ _ _ _ (fix_zip_eq p)).
  eexists. f_equal. f_equal. f_equal.
  unfold missing_reasons.
  destruct (truthy (street p)), (truthy (city p)), (truthy (state p)),
    (truthy (repaired_zip p)), (get_county p), (zip_reasons p);
    reflexivity.
Qed.

Lemma postal_code_exit_unreachable (p : parts) :
  snd (validate_reasons p) <> ExitPostalCode.
Proof.
  destruct (str_in (state p) CANADIAN) eqn:E.
  - rewrite (validate_reasons_canadian _ E). discriminate.
  - destruct (validate_reasons_checked _ E) as [es ->]. discriminate.
Qed.

Lemma checked_valid_iff (p : parts) :
  checked_valid p = true <->
  zip_reasons p = [] /\
  ((truthy (street p) && truthy (city p) && truthy (state p)
    && truthy (repaired_zip p))%bool = true \/
   truthy (street p) = false /\
   (get_county p && truthy (state p) && truthy (repaired_zip p))%bool = true).
Proof.
  unfold checked_valid.
  destruct (truthy (street p)), (truthy (city p)), (truthy (state p)),
    (truthy (repaired_zip p)), (get_county p), (zip_reasons p);
    simpl; intuition congruence.
Qed.

(** C1, as amended.  [validate_and_fix_address] marks a record valid if and
    only if no early [return] was taken, the zip repair recorded no reason,
    and either street, city, state and zip are all non-empty, or the street is
    empty and county, state and zip are all non-empty.  With a street and
    without a city the county does not make the record valid.  A record with
    empty street and city, a non-empty county, state FL and zip 33405 is
    valid. *)
Theorem validity_condition (p : parts) (o : string) :
  (snd (fst (validate_and_fix_address p o)) = true <->
   snd (validate_reasons p) = ExitChecked /\
   zip_reasons p = [] /\
   ((truthy (street p) && truthy (city p) && truthy (state p)
     && truthy (repaired_zip p))%bool = true \/
    truthy (street p) = false /\
    (get_county p && truthy (state p) && truthy (repaired_zip p))%bool = true))
  /\
  (forall c, truthy c = true ->
     validate_and_fix_address (Parts "" "" "FL" "33405" (Some c)) o =
       (Parts "" "" "FL" "33405" None, true, "")).
Proof.
  split.
  - unfold validate_and_fix_address.
    destruct (str_in (state p) CANADIAN) eqn:E.
    + rewrite (validate_reasons_canadian _ E). simpl.
      split; [discriminate | intros [H _]; discriminate].
    + destruct (validate_reasons_checked _ E) as [es ->]. simpl.
      rewrite checked_valid_iff. tauto.
  - intros c Hc. unfold validate_and_fix_address, validate_reasons, get_county.
    simpl. rewrite Hc. reflexivity.
Qed.

Lemma validity_condition_witness :
  validate_and_fix_address (Parts "" "" "FL" "33405" (Some "PALM BEACH")) "" =
    (Parts "" "" "FL" "33405" None, true, "").
Proof.
  apply (proj2 (validity_condition (Parts "" "" "FL" "33405" None) "")).
  reflexivity.
Defined.

(** C1, as stated, fails: with a street, no city, a county, state FL and zip
    33405 the specified condition holds, and the record is invalid with the
    reason [Missing city]. *)
Lemma county_fallback_needs_empty_street :
  let p := Parts "1 MAIN ST" "" "FL" "33405" (Some "PALM BEACH") in
  valid_as_specified p /\
  validate_and_fix_address p "" =
    (Parts "1 MAIN ST" "" "FL" "33405" None, false, "Missing city") /\
  ~ (snd (fst (validate_and_fix_address p "")) = true <-> valid_as_specified p).
Proof.
  assert (V : valid_as_specified
                (Parts "1 MAIN ST" "" "FL" "33405" (Some "PALM BEACH"))).
  { unfold valid_as_specified. vm_compute. auto. }
  simpl. split; [exact V|]. split; [reflexivity|].
  intros [_ H]. specialize (H V). vm_compute in H. discriminate.
Qed.

(** C2.  When the cleaned zip is four digits without a hyphen: with state FL
    the zip becomes ["3"] followed by the four digits and the repair records
    no reason; with any other state the repair leaves the four digits, its
    first reason is [Invalid 4-digit zip: <value>], the record is invalid,
    the message starts with that reason, and the returned zip is the four
    digits (the zip as given, when the state is a Canadian province). *)
Theorem four_digit_zip (p : parts) (o : string) :
  let z := str_filter keep_zip_char (zip_code p) in
  String.length z = 4 -> has_char "-" z = false ->
  (state p = "FL" ->
     fix_zip (state p) (zip_code p) = ("3" ++ z, []) /\
     zip_code (fst (fst (validate_and_fix_address p o))) = "3" ++ z) /\
  (state p <> "FL" ->
     fix_zip (state p) (zip_code p) =
       (z, ["Invalid 4-digit zip: " ++ z; "Invalid zip format: " ++ z]) /\
     snd (fst (validate_and_fix_address p o)) = false /\
     str_prefix ("Invalid 4-digit zip: " ++ z)
       (snd (validate_and_fix_address p o)) = true /\
     zip_code (fst (fst (validate_and_fix_address p o))) =
       (if str_in (state p) CANADIAN then zip_code p else z)).
Proof.
  intros z L Hy.
  assert (T : truthy (zip_code p) = true).
  { destruct (zip_code p); [discriminate L | reflexivity]. }
  assert (D : str_all isdigit z = true).
  { apply keep_no_hyphen_digits; [apply str_filter_all | exact Hy]. }
  split.
  - intros St.
    assert (F : fix_zip (state p) (zip_code p) = ("3" ++ z, [])).
    { unfold fix_zip. rewrite T. fold z. unfold zip_length_fix.
      rewrite L, Hy, St. simpl.
      unfold zip_format_check, has_char. simpl. fold (has_char "-" z).
      rewrite Hy, L. unfold str_isdigit. simpl. rewrite D. reflexivity. }
    split; [exact F|].
    unfold validate_and_fix_address.
    assert (E : str_in (state p) CANADIAN = false) by (rewrite St; reflexivity).
    destruct (validate_reasons_checked _ E) as [es ->]. simpl.
    unfold repaired_zip. rewrite F. reflexivity.
  - intros St. apply String.eqb_neq in St.
    assert (F : fix_zip (state p) (zip_code p) =
                (z, ["Invalid 4-digit zip: " ++ z; "Invalid zip format: " ++ z])).
    { unfold fix_zip. rewrite T. fold z. unfold zip_length_fix.
      rewrite L, Hy, St. simpl.
      unfold zip_format_check. rewrite Hy, L. reflexivity. }
    split; [exact F|].
    unfold validate_and_fix_address.
    destruct (str_in (state p) CANADIAN) eqn:E.
    + rewrite (validate_reasons_canadian _ E). unfold zip_reasons. rewrite F.
      cbn [fst snd]. split; [reflexivity|]. split; [|reflexivity].
      apply str_join_first.
    + assert (R : zip_reasons p <> []) by (unfold zip_reasons; rewrite F; discriminate).
      unfold validate_reasons. rewrite F, E.
      rewrite (fix_zip_no_alpha _ _ _ _ F).
      cbn [fst snd]. split; [|split].
      * destruct (negb (truthy (street p)) && get_county p)%bool;
          [rewrite andb_false_r; reflexivity|].
        destruct (negb _); rewrite andb_false_r; reflexivity.
      * destruct (negb (truthy (street p)) && get_county p)%bool;
          [apply str_join_first|].
        destruct (negb _); apply str_join_first.
      * reflexivity.
Qed.

Lemma four_digit_zip_witness :
  zip_code (fst (fst (validate_and_fix_address
                        (Parts "1 MAIN ST" "TAMPA" "FL" "5678" None) ""))) = "35678"
  /\
  snd (fst (validate_and_fix_address
              (Parts "1 MAIN ST" "DALLAS" "TX" "5678" None) "")) = false /\
  str_prefix "Invalid 4-digit zip: 5678"
    (snd (validate_and_fix_address
            (Parts "1 MAIN ST" "DALLAS" "TX" "5678" None) "")) = true.
Proof.
  split.
  - apply (proj1 (four_digit_zip (Parts "1 MAIN ST" "TAMPA" "FL" "5678" None) ""
                    eq_refl eq_refl) eq_refl).
  - pose proof (proj2 (four_digit_zip (Parts "1 MAIN ST" "DALLAS" "TX" "5678" None) ""
                         eq_refl eq_refl)) as H.
    assert (N : "TX" <> "FL") by discriminate.
    destruct (H N) as [_ [V [M _]]]. split; [exact V | exact M].
Defined.

(** C6.  When the state is one of the thirteen Canadian province codes,
    whatever the zip, the first early [return] is taken: the reasons are those
    of the zip repair followed by one that contains [Canadian], no reason for
    a missing field is added, the record is invalid and the message contains
    [Canadian]. *)
Theorem canadian_province_rejected (p : parts) (o : string) :
  In (state p)
     ["ON"; "BC"; "AB"; "QC"; "MB"; "SK"; "NS"; "NB"; "PE"; "NL"; "YT"; "NT"; "NU"] ->
  validate_reasons p =
    (p, false,
     list_append (zip_reasons p)
       ("Non-US address (Canadian province: " ++ state p ++ ")"),
     ExitCanadian) /\
  snd (fst (validate_and_fix_address p o)) = false /\
  str_contains "Canadian" (snd (validate_and_fix_address p o)) = true.
Proof.
  intros H. apply (str_in_iff (state p) CANADIAN) in H.
  pose proof (validate_reasons_canadian _ H) as V.
  split; [exact V|]. unfold validate_and_fix_address. rewrite V.
  cbn [fst snd]. split; [reflexivity|].
  destruct (str_join_last "; " (zip_reasons p)
              ("Non-US address (Canadian province: " ++ state p ++ ")"))
    as [pre ->].
  apply str_contains_append_l.
  change ("Non-US address (Canadian province: " ++ state p ++ ")")
    with ("Non-US address (" ++ "Canadian" ++ " province: " ++ state p ++ ")").
  apply str_contains_append_l, str_contains_prefix, str_prefix_append.
Qed.

Lemma canadian_province_rejected_witness :
  snd (fst (validate_and_fix_address
              (Parts "1 MAIN ST" "TORONTO" "ON" "33405" None) "")) = false /\
  str_contains "Canadian"
    (snd (validate_and_fix_address
            (Parts "1 MAIN ST" "TORONTO" "ON" "33405" None) "")) = true.
Proof.
  apply (canadian_province_rejected
           (Parts "1 MAIN ST" "TORONTO" "ON" "33405" None) "").
  simpl. auto.
Defined.

(** C8, as amended.  When a record is accepted with normalized components
    [n], validating [n] again with the same county returns [n] unchanged,
    valid and without reasons.  Validating [n] as returned, which holds no
    county, returns [n] unchanged as well, and valid exactly when its street
    is not empty. *)
Theorem revalidation (x : parts) (o : string) (n : parts) (msg : string) :
  validate_and_fix_address x o = (n, true, msg) ->
  validate_and_fix_address (with_county n (county x)) o = (n, true, "") /\
  fst (fst (validate_and_fix_address n o)) = n /\
  snd (fst (validate_and_fix_address n o)) = truthy (street n).
Proof.
  unfold validate_and_fix_address at 1.
  destruct (str_in (state x) CANADIAN) eqn:E.
  { rewrite (validate_reasons_canadian _ E). discriminate. }
  destruct (validate_reasons_checked _ E) as [es V]. rewrite V.
  intros H. injection H as <- Hv _.
  pose proof Hv as Hc. apply checked_valid_iff in Hc as [R Hc].
  assert (Tz : truthy (repaired_zip x) = true).
  { destruct Hc as [Hc | [_ Hc]]; apply andb_true_iff in Hc; tauto. }
  assert (Ti : truthy (zip_code x) = true).
  { destruct (truthy (zip_code x)) eqn:Ti; auto.
    unfold repaired_zip, fix_zip in Tz. rewrite Ti in Tz.
    simpl in Tz. congruence. }
  assert (F : fix_zip (state x) (repaired_zip x) = (repaired_zip x, [])).
  { apply (fix_zip_stable _ (zip_code x)); auto.
    rewrite (fix_zip_eq x), R. reflexivity. }
  assert (W : forall c,
             exists es',
               validate_reasons (Parts (street x) (city x) (state x)
                                       (repaired_zip x) c) =
               (Parts (street x) (city x) (state x) (repaired_zip x) None,
                checked_valid (Parts (street x) (city x) (state x)
                                     (repaired_zip x) c),
                es', ExitChecked) /\
               (checked_valid (Parts (street x) (city x) (state x)
                                     (repaired_zip x) c) = true -> es' = [])).
  { intros c.
    unfold validate_reasons, checked_valid, repaired_zip, zip_reasons.
    cbn [street city state zip_code]. fold (repaired_zip x).
    rewrite F, E. cbn [fst snd].
    rewrite (fix_zip_no_alpha _ _ _ _ F).
    eexists. split.
    - f_equal. f_equal. f_equal.
      unfold missing_reasons, get_county. cbn [county].
      destruct (truthy (street x)), (truthy (city x)), (truthy (state x)),
        (truthy (repaired_zip x)), c as [[|? ?]|]; reflexivity.
    - unfold missing_reasons, get_county. cbn [county].
      destruct (truthy (street x)), (truthy (city x)), (truthy (state x)),
        (truthy (repaired_zip x)), c as [[|? ?]|]; simpl; congruence. }
  assert (Q : forall c, get_county (Parts (street x) (city x) (state x)
                                          (repaired_zip x) c)
                        = match c with Some s => truthy s | None => false end)
    by reflexivity.
  split; [|split].
  - unfold with_county. cbn [street city state zip_code].
    destruct (W (county x)) as [es' [W1 W2]].
    unfold validate_and_fix_address. rewrite W1.
    assert (C : checked_valid (Parts (street x) (city x) (state x)
                                     (repaired_zip x) (county x)) = true).
    { apply checked_valid_iff. unfold zip_reasons, repaired_zip.
      cbn [street city state zip_code]. fold (repaired_zip x).
      rewrite F. cbn [fst snd]. rewrite Q. split; auto. }
    rewrite C, (W2 C). reflexivity.
  - destruct (W None) as [es' [W1 _]].
    unfold validate_and_fix_address. rewrite W1. reflexivity.
  - destruct (W None) as [es' [W1 _]].
    unfold validate_and_fix_address. rewrite W1. cbn [fst snd street].
    unfold checked_valid, zip_reasons, repaired_zip.
    cbn [street city state zip_code]. fold (repaired_zip x).
    rewrite F, Q. cbn [fst snd]. rewrite Tz.
    destruct Hc as [Hc | [Hs Hc]].
    + apply andb_true_iff in Hc as [Hc _]. apply andb_true_iff in Hc as [Hc T3].
      apply andb_true_iff in Hc as [T1 T2]. rewrite T1, T2, T3. reflexivity.
    + rewrite Hs. reflexivity.
Qed.

Lemma revalidation_witness :
  validate_and_fix_address
    (with_county (Parts "1 MAIN ST" "TAMPA" "FL" "33605" None) None) "" =
    (Parts "1 MAIN ST" "TAMPA" "FL" "33605" None, true, "").
Proof.
  apply (revalidation (Parts "1 MAIN ST" "TAMPA" "FL" "336051" None) ""
           (Parts "1 MAIN ST" "TAMPA" "FL" "33605" None) "").
  reflexivity.
Defined.

(** C8, as stated, fails: a record accepted on its county is returned without
    the county, and validating the returned components again rejects them. *)
Lemma revalidation_loses_county :
  let x := Parts "" "" "FL" "33405" (Some "PALM BEACH") in
  let n := Parts "" "" "FL" "33405" None in
  validate_and_fix_address x "" = (n, true, "") /\
  validate_and_fix_address n "" =
    (n, false, "Missing street address; Missing city") /\
  snd (fst (validate_and_fix_address n "")) <> true.
Proof. split; [reflexivity|]. split; [reflexivity | discriminate]. Qed.

(** C9.  When the record is rejected for a Canadian province code, or for a
    letter in the zip, the returned components are the input itself: the zip
    is the one given, not the repaired one. *)
Theorem short_circuit_returns_input (p : parts) (o : string) :
  str_in (state p) CANADIAN = true \/
  (truthy (repaired_zip p) && str_any isalpha (repaired_zip p))%bool = true ->
  fst (fst (validate_and_fix_address p o)) = p /\
  snd (fst (validate_and_fix_address p o)) = false.
Proof.
  intros [H | H].
  - unfold validate_and_fix_address.
    rewrite (validate_reasons_canadian _ H). split; reflexivity.
  - rewrite (fix_zip_no_alpha _ _ _ _ (fix_zip_eq p)) in H. discriminate.
Qed.

Lemma short_circuit_returns_input_witness :
  repaired_zip (Parts "1 MAIN ST" "TORONTO" "ON" "336051" None) = "33605" /\
  fst (fst (validate_and_fix_address
              (Parts "1 MAIN ST" "TORONTO" "ON" "336051" None) "")) =
    Parts "1 MAIN ST" "TORONTO" "ON" "336051" None.
Proof.
  split; [reflexivity|].
  apply (short_circuit_returns_input
           (Parts "1 MAIN ST" "TORONTO" "ON" "336051" None) "").
  left. reflexivity.
Defined.

(** C10.  The street, the city and the state of the returned components are
    those of the input. *)
Theorem validation_frame (p : parts) (o : string) :
  street (fst (fst (validate_and_fix_address p o))) = street p /\
  city (fst (fst (validate_and_fix_address p o))) = city p /\
  state (fst (fst (validate_and_fix_address p o))) = state p.
Proof.
  unfold validate_and_fix_address.
  destruct (str_in (state p) CANADIAN) eqn:E.
  - rewrite (validate_reasons_canadian _ E). auto.
  - destruct (validate_reasons_checked _ E) as [es ->]. auto.
Qed.

End ValidatorProps.

(** ** Regular expressions *)

Module ReProps.
Import Re.

(** A repetition that matches hands some cursor to its continuation. *)
Lemma rep_some {A : Type} (p : ascii -> bool) (lo : nat) (hi : option nat)
  (s : string) :
  forall (n : nat) (pv : option ascii) (i : nat) (k : cursor -> option A) (x : A),
    rep p lo hi n pv i s k = Some x -> exists c', k c' = Some x.
Proof.
  induction s as [|a s IH]; intros n pv i k x; simpl.
  - destruct (lo <=? n)%nat; [eauto | discriminate].
  - destruct (p a && below n hi)%bool.
    + destruct (rep p lo hi (S n) (Some a) (S i) s k) eqn:R.
      * intros [= <-]. eapply IH. exact R.
      * destruct (lo <=? n)%nat; [eauto | discriminate].
    + destruct (lo <=? n)%nat; [eauto | discriminate].
Qed.

Lemma run_group {A : Type} (r : re) :
  forall (c : cursor) (g : option (nat * nat))
         (k : cursor -> option (nat * nat) -> option A) (x : A),
    run r c g k = Some x ->
    exists c' g',
      k c' g' = Some x /\ (sets_group r = true \/ g <> None -> g' <> None).
Proof.
  induction r as [a | p lo hi | r1 IHr1 r2 IHr2 | r IHr | r IHr | | | ];
    intros c g k x; simpl.
  - destruct (rest c) as [|b s']; [discriminate|].
    destruct (Ascii.eqb a b); [|discriminate].
    intros H. do 2 eexists. split; [exact H|]. intros [E|E]; [discriminate|auto].
  - intros H. apply rep_some in H as [c' H].
    exists c', g. split; [exact H|]. intros [E|E]; [discriminate|auto].
  - intros H. apply IHr1 in H as [c1 [g1 [H G1]]].
    apply IHr2 in H as [c2 [g2 [H G2]]].
    exists c2, g2. split; [exact H|].
    intros [E|E]; apply G2.
    + apply orb_true_iff in E as [E|E]; [right; apply G1|]; auto.
    + right. apply G1. auto.
  - destruct (run r c g k) eqn:R.
    + intros [= <-]. apply IHr in R as [c' [g' [H G]]].
      exists c', g'. split; [exact H|]. intros [E|E]; [discriminate|auto].
    + intros H. exists c, g. split; [exact H|].
      intros [E|E]; [discriminate|auto].
  - intros H. apply IHr in H as [c' [g' [H _]]].
    do 2 eexists. split; [exact H|]. discriminate.
  - destruct (at_boundary c); [|discriminate].
    intros H. exists c, g. split; [exact H|]. intros [E|E]; [discriminate|auto].
  - destruct (at_end c); [|discriminate].
    intros H. exists c, g. split; [exact H|]. intros [E|E]; [discriminate|auto].
  - intros H. exists c, g. split; [exact H|]. intros [E|E]; [discriminate|auto].
Qed.

Lemma search_from_group (r : re) (s : string) :
  sets_group r = true ->
  forall (pv : option ascii) (i : nat) (m : mtch),
    search_from r pv i s = Some m -> m_group1 m <> None.
Proof.
  intros G. induction s as [|a s IH]; intros pv i m; simpl;
    destruct (match_at r _) as [m'|] eqn:M.
  1, 3: intros [= <-]; unfold match_at in M;
        apply run_group in M as [c' [g' [M N]]];
        injection M as <-; simpl; auto.
  - discriminate.
  - apply IH.
Qed.

(** [m.group(1)] and [m.start()] do not raise on a match. *)
Lemma group1_ok (r : re) (s : string) :
  sets_group r = true -> is_some (search r s) = true ->
  exists v, group1 (search r s) s = Ok v.
Proof.
  intros G H. unfold search in *.
  destruct (search_from r None 0 s) as [m|] eqn:M; [|discriminate].
  pose proof (search_from_group _ _ G _ _ _ M) as N. unfold group1.
  destruct (m_group1 m) as [[b e]|]; [eauto | congruence].
Qed.

Lemma start_ok (m : option mtch) :
  is_some m = true -> exists i, start m = Ok i.
Proof. destruct m; simpl; [eauto | discriminate]. Qed.

(** What a repetition that matches has consumed. *)
Lemma rep_sound {A : Type} (p : ascii -> bool) (lo : nat) (hi : option nat)
  (s : string) :
  forall (n : nat) (pv : option ascii) (i : nat) (k : cursor -> option A) (x : A),
    rep p lo hi n pv i s k = Some x ->
    exists c' t,
      k c' = Some x /\ s = t ++ rest c' /\ pos c' = i + String.length t /\
      str_all p t = true /\ lo <= n + String.length t /\
      (forall h, hi = Some h -> n <= h -> n + String.length t <= h).
Proof.
  assert (Stop : forall n pv i s' (k : cursor -> option A) x,
             (if (lo <=? n)%nat then k (Cursor pv i s') else None) = Some x ->
             exists c' t,
               k c' = Some x /\ s' = t ++ rest c' /\
               pos c' = i + String.length t /\
               str_all p t = true /\ lo <= n + String.length t /\
               (forall h, hi = Some h -> n <= h -> n + String.length t <= h)).
  { intros n pv i s' k x H. destruct (lo <=? n)%nat eqn:L; [|discriminate].
    apply Nat.leb_le in L. exists (Cursor pv i s'), "". simpl.
    repeat split; auto; lia. }
  induction s as [|a s IH]; intros n pv i k x; cbn [rep].
  - apply Stop.
  - destruct (p a && below n hi)%bool eqn:E; [|apply Stop].
    destruct (rep p lo hi (S n) (Some a) (S i) s k) eqn:R; [|apply Stop].
    intros [= <-]. apply IH in R as [c' [t [K [S1 [P1 [Ap [Lo Hi]]]]]]].
    apply andb_true_iff in E as [Pa B].
    exists c', (String a t). simpl. rewrite Pa, Ap.
    repeat split; auto; try lia.
    + rewrite S1. reflexivity.
    + intros h Hh Hn. subst hi. simpl in B. apply Nat.ltb_lt in B.
      specialize (Hi h eq_refl). lia.
Qed.

(** What a pattern that matches has consumed. *)
Lemma run_sound {A : Type} (r : re) :
  forall (c : cursor) (g : option (nat * nat))
         (k : cursor -> option (nat * nat) -> option A) (x : A),
    run r c g k = Some x ->
    exists c' g' t,
      k c' g' = Some x /\ rest c = t ++ rest c' /\
      pos c' = pos c + String.length t /\ matches r t.
Proof.
  induction r as [a | p lo hi | r1 IHr1 r2 IHr2 | r IHr | r IHr | | | ];
    intros c g k x; cbn [run matches].
  - destruct (rest c) as [|b s'] eqn:R; [discriminate|].
    destruct (Ascii.eqb a b) eqn:E; [|discriminate].
    apply Ascii.eqb_eq in E. subst b. intros H.
    exists (Cursor (Some a) (S (pos c)) s'), g, (String a "").
    split; [exact H|]. simpl. repeat split. lia.
  - intros H. apply rep_sound in H as [c' [t [K [S1 [P1 [Ap [Lo Hi]]]]]]].
    exists c', g, t. repeat split; auto.
    destruct hi as [h|]; auto. specialize (Hi h eq_refl). lia.
  - intros H. apply IHr1 in H as [c1 [g1 [t1 [H [R1 [P1 M1]]]]]].
    apply IHr2 in H as [c2 [g2 [t2 [H [R2 [P2 M2]]]]]].
    exists c2, g2, (t1 ++ t2). split; [exact H|].
    rewrite R1, R2, P2, P1, str_append_assoc, str_length_append.
    repeat split; [lia|]. exists t1, t2. auto.
  - destruct (run r c g k) eqn:R.
    + intros [= <-]. apply IHr in R as [c' [g' [t [H [R1 [P1 M1]]]]]].
      exists c', g', t. auto.
    + intros H. exists c, g, "". simpl. repeat split; auto.
  - intros H. apply IHr in H as [c' [g' [t [H [R1 [P1 M1]]]]]].
    eexists _, _, t. split; [exact H|]. auto.
  - destruct (at_boundary c); [|discriminate].
    intros H. exists c, g, "". simpl. repeat split; auto.
  - destruct (at_end c); [|discriminate].
    intros H. exists c, g, "". simpl. repeat split; auto.
  - intros H. exists c, g, "". simpl. repeat split; auto.
Qed.

(** A match found by [search] is a match at some position of the subject. *)
Lemma search_from_sound (r : re) (s : string) :
  forall (pv : option ascii) (i : nat) (m : mtch),
    search_from r pv i s = Some m ->
    exists j pv',
      match_at r (Cursor pv' (i + j) (str_drop j s)) = Some m.
Proof.
  induction s as [|a s IH]; intros pv i m; cbn [search_from];
    destruct (match_at r _) as [m'|] eqn:M.
  - intros [= <-]. exists 0, pv. rewrite Nat.add_0_r. exact M.
  - discriminate.
  - intros [= <-]. exists 0, pv. rewrite Nat.add_0_r. exact M.
  - intros H. apply IH in H as [j [pv' H]].
    exists (S j), pv'. rewrite Nat.add_succ_r. exact H.
Qed.

Lemma str_take_drop (n : nat) (s : string) : str_take n s ++ str_drop n s = s.
Proof.
  revert s. induction n as [|n IH]; intros [|c s]; simpl; auto.
  rewrite IH. reflexivity.
Qed.

Lemma str_take_length_append (t u : string) :
  str_take (String.length t) (t ++ u) = t.
Proof. induction t; simpl; [destruct u|]; congruence. Qed.

(** After [\s*$] only whitespace is left. *)
Lemma spaces_to_end_sound {A : Type} (c : cursor) (g : option (nat * nat))
  (k : cursor -> option (nat * nat) -> option A) (x : A) :
  run (Seq (Rep is_s 0 None) Eos) c g k = Some x ->
  exists c', k c' g = Some x /\ str_all isspace (rest c) = true.
Proof.
  cbn [run]. intros H.
  apply rep_sound in H as [c' [t [K [S1 [_ [Ap _]]]]]].
  destruct (at_end c') eqn:E; [|discriminate].
  exists c'. split; [exact K|]. rewrite S1, str_all_append.
  change (str_all isspace t = true) in Ap. rewrite Ap. unfold at_end in E.
  destruct (rest c') as [|b [|? ?]]; try discriminate; [reflexivity|].
  apply Ascii.eqb_eq in E. subst b. reflexivity.
Qed.

End ReProps.

(** ** Decomposition *)

Module DecomposeProps.
Import Re ReProps JsonToCsv Decompose.

Lemma list_index_last_ok {A : Type} (l : list A) :
  (0 < List.length l)%nat -> exists a, list_index_last l = Ok a.
Proof.
  intros H. unfold list_index_last.
  destruct (rev l) eqn:E; [|eauto].
  apply (f_equal (@List.length A)) in E. rewrite length_rev in E.
  simpl in E. lia.
Qed.

Lemma list_index_ok {A : Type} (l : list A) (i : nat) :
  (i < List.length l)%nat -> exists a, list_index l i = Ok a.
Proof.
  intros H. unfold list_index.
  destruct (nth_error l i) eqn:E; [eauto|].
  apply nth_error_None in E. lia.
Qed.

Lemma extract_zip_ok (address : string) :
  exists zip_code rest, extract_zip address = Ok (zip_code, rest).
Proof.
  unfold extract_zip. destruct (is_some (search ZIP address)) eqn:M.
  - destruct (group1_ok ZIP address eq_refl M) as [v ->].
    destruct (start_ok _ M) as [i ->]. simpl. eauto.
  - simpl. eauto.
Qed.

Lemma extract_state_ok (address : string) :
  exists state rest, extract_state address = Ok (state, rest).
Proof.
  unfold extract_state. destruct (is_some (search STATE address)) eqn:M.
  - destruct (group1_ok STATE address eq_refl M) as [v ->].
    destruct (start_ok _ M) as [i ->]. simpl. eauto.
  - simpl. eauto.
Qed.

Lemma split_street_city_ok (rest : string) :
  exists street city, split_street_city rest = Ok (street, city).
Proof.
  unfold split_street_city. destruct (has_char "," rest); [|eauto].
  set (parts := filter truthy (map str_strip (str_split "," rest))).
  destruct (2 <=? List.length parts)%nat eqn:L.
  - apply Nat.leb_le in L.
    destruct (list_index_last_ok parts) as [c ->]; [lia|]. simpl. eauto.
  - destruct (0 <? List.length parts)%nat eqn:L0; [|simpl; eauto].
    apply Nat.ltb_lt in L0.
    destruct (list_index_ok parts 0 L0) as [a ->]. simpl. eauto.
Qed.

Lemma parse_address_regex_ok (v : value) :
  exists p,
    parse_address_regex v = Ok p /\ county p = None /\
    ((forall s, v = VStr s -> s = "") -> p = empty_parts).
Proof.
  destruct v as [| b | n | s |]; simpl;
    try (exists empty_parts; repeat split; reflexivity).
  destruct s as [|a s].
  - exists empty_parts. repeat split; reflexivity.
  - cbn [truthy negb].
    destruct (extract_zip_ok (clean_address (String a s))) as [z [r1 ->]].
    cbn [bind].
    destruct (extract_state_ok r1) as [st [r2 ->]]. cbn [bind].
    destruct (split_street_city_ok r2) as [str [cty ->]]. cbn [bind].
    eexists. split; [reflexivity|]. split; [reflexivity|].
    intros H. specialize (H _ eq_refl). discriminate.
Qed.

Lemma street_parts_ok (parsed : list (string * string)) (cs : list string) :
  exists sp, street_parts parsed cs = Ok sp.
Proof.
  induction cs as [|c cs [sp IH]]; simpl; [eauto|].
  unfold dict_item. destruct (dict_get parsed c); simpl; [|eauto].
  rewrite IH. simpl. eauto.
Qed.

(** C7.  For every input value, with or without the tagger and whatever
    the tagger returns or raises, [parse_address] and [parse_address_regex]
    return a dict and raise nothing; the dict has the four string fields and
    no other; for an input that is not a non-empty string the four fields
    are empty. *)
Theorem parse_address_total
  (usaddress_tag : string -> res (list (string * string)))
  (USADDRESS_AVAILABLE : bool) (v : value) :
  (exists p,
     parse_address usaddress_tag USADDRESS_AVAILABLE v = Ok p /\
     county p = None /\
     ((forall s, v = VStr s -> s = "") -> p = empty_parts)) /\
  (exists p,
     parse_address_regex v = Ok p /\
     county p = None /\
     ((forall s, v = VStr s -> s = "") -> p = empty_parts)).
Proof.
  split; [|apply parse_address_regex_ok].
  unfold parse_address. destruct USADDRESS_AVAILABLE;
    [|apply parse_address_regex_ok].
  unfold parse_address_with_usaddress.
  destruct v as [| b | n | s |];
    try (exists empty_parts; repeat split; reflexivity).
  destruct s as [|a s].
  - exists empty_parts. repeat split; reflexivity.
  - cbn [truthy negb].
    destruct (usaddress_tag (clean_address (String a s))) as [parsed|e].
    + cbn [bind].
      destruct (street_parts_ok parsed STREET_COMPONENTS) as [sp ->].
      cbn [bind].
      destruct (truthy (dict_get_default parsed "StateName" "FL") &&
                (2 <? String.length (dict_get_default parsed "StateName" "FL"))%nat)%bool;
        cbn [try_except]; eexists; (split; [reflexivity|]);
        (split; [reflexivity|]); intros H; specialize (H _ eq_refl);
        discriminate.
    + cbn [bind try_except].
      destruct (parse_address_regex_ok (VStr (String a s))) as [p [P [C _]]].
      exists p. split; [exact P|]. split; [exact C|].
      intros H. specialize (H _ eq_refl). discriminate.
Qed.

Lemma parse_address_total_witness :
  parse_address (fun _ => Raise TaggerError) true (VInt 7) = Ok empty_parts /\
  parse_address (fun _ => Raise TaggerError) true (VStr "") = Ok empty_parts.
Proof.
  split.
  - destruct (proj1 (parse_address_total (fun _ => Raise TaggerError) true (VInt 7)))
      as [p [P [_ E]]].
    rewrite P. f_equal. apply E. intros s H. discriminate H.
  - destruct (proj1 (parse_address_total (fun _ => Raise TaggerError) true (VStr "")))
      as [p [P [_ E]]].
    rewrite P. f_equal. apply E. intros s H. injection H as <-. reflexivity.
Defined.

(** [split(sep, 1)] cuts at the first separator, and only there. *)
Lemma str_split1_at (sep : ascii) (l r : string) :
  has_char sep l = false -> str_split1 sep (l ++ String sep r) = [l; r].
Proof.
  unfold has_char. induction l as [|c l IH]; simpl.
  - rewrite Ascii.eqb_refl. reflexivity.
  - intros H. apply orb_false_iff in H as [Hc Hl].
    rewrite Ascii.eqb_sym, Hc, (IH Hl). reflexivity.
Qed.

Lemma str_split1_found (sep : ascii) (s : string) :
  has_char sep s = true ->
  exists l r,
    s = l ++ String sep r /\ has_char sep l = false /\
    str_split1 sep s = [l; r].
Proof.
  unfold has_char. induction s as [|c s IH]; simpl; [discriminate|].
  destruct (Ascii.eqb sep c) eqn:E.
  - intros _. apply Ascii.eqb_eq in E. subst c.
    exists "", s. rewrite Ascii.eqb_refl. auto.
  - simpl. intros H. destruct (IH H) as [l [r [-> [N S]]]].
    exists (String c l), r. rewrite Ascii.eqb_sym, E, S. simpl.
    rewrite E, N. auto.
Qed.

(** The loop stops at the first street suffix. *)
Lemma find_street_end_at (pre : list string) (w : string) (post : list string) :
  Forall (fun x => AddLeads.is_indicator x = false) pre ->
  AddLeads.is_indicator w = true ->
  forall idx,
    AddLeads.find_street_end idx (pre ++ w :: post) =
      Some (idx + List.length pre + 1).
Proof.
  intros F W. induction pre as [|x pre IH]; intros idx; simpl.
  - rewrite W. f_equal. lia.
  - inversion F as [|? ? Hx F']; subst. rewrite Hx, (IH F'). f_equal. lia.
Qed.

Lemma bind_ok {A B : Type} (m : res A) (f : A -> res B) (y : B) :
  bind m f = Ok y -> exists a, m = Ok a /\ f a = Ok y.
Proof. destruct m; simpl; [eauto | discriminate]. Qed.

(** The zip that the anchored pattern finds is a zip token at the end of the
    subject. *)
Lemma add_leads_zip_match (s : string) (m : mtch) :
  search AddLeads.ZIP s = Some m ->
  exists z, group1 (Some m) s = Ok z /\ trailing z s /\ zip_token z.
Proof.
  unfold search. intros H.
  apply search_from_sound in H as [j [pv H]]. simpl in H.
  unfold match_at, AddLeads.ZIP in H.
  remember (Seq (Rep is_d 5 (Some 5))
              (Opt (Seq (Chr "-") (Rep is_d 4 (Some 4))))) as G eqn:HG.
  remember (Seq (Rep is_s 0 None) Eos) as Y eqn:HY.
  cbn [run pos] in H.
  destruct (at_boundary _); [|discriminate].
  apply run_sound in H as [c1 [g1 [t1 [H [R1 [P1 M1]]]]]].
  subst Y. apply spaces_to_end_sound in H as [c2 [H W]].
  injection H as <-. cbn [pos rest] in *.
  exists t1. split; [|split].
  - unfold group1. cbn [m_group1]. rewrite P1, R1, Nat.add_comm, Nat.add_sub.
    rewrite str_take_length_append. reflexivity.
  - exists (str_take j s), (rest c1). split; [|exact W].
    rewrite <- R1. symmetry. apply str_take_drop.
  - subst G. cbn [matches] in M1.
    destruct M1 as [ta [tb [-> [[Da [La1 La2]] Hb]]]].
    change (str_all isdigit ta = true) in Da.
    destruct Hb as [-> | [tc [td [-> [-> [Dd [Ld1 Ld2]]]]]]].
    + left. rewrite str_append_nil_r. split; [lia | exact Da].
    + right. exists ta, td. repeat split; auto; lia.
Qed.

Lemma add_leads_extract_zip (s z st rest : string) :
  AddLeads.extract s = Ok (z, st, rest) ->
  z = "" \/ (trailing z s /\ zip_token z).
Proof.
  unfold AddLeads.extract. intros H.
  apply bind_ok in H as [z0 [Hz H]].
  apply bind_ok in H as [awz [_ H]].
  apply bind_ok in H as [st0 [_ H]].
  apply bind_ok in H as [aws [_ H]].
  injection H as <- _ _.
  destruct (search AddLeads.ZIP s) as [m|] eqn:M; cbn [is_some] in Hz.
  - right. destruct (add_leads_zip_match _ _ M) as [z [G T]].
    rewrite G in Hz. injection Hz as <-. exact T.
  - left. injection Hz as <-. reflexivity.
Qed.

(** [parse_address] of [add_leads_to_dealmachine.py] returns as zip a zip
    token at the end of the string, or nothing. *)
Lemma add_leads_zip_trailing (s : string) (p : AddLeads.lead_parts) :
  AddLeads.parse_address s = Ok p ->
  AddLeads.zip p = "" \/ (trailing (AddLeads.zip p) s /\ zip_token (AddLeads.zip p)).
Proof.
  unfold AddLeads.parse_address.
  destruct (AddLeads.extract s) as [[[z st] rest]|e] eqn:E; cbn [bind try_except].
  - destruct (truthy st && truthy z)%bool.
    + destruct (AddLeads.split_street_city rest) as [[str cty]|e];
        cbn [bind try_except]; intros [= <-]; cbn [AddLeads.zip]; auto.
      eapply add_leads_extract_zip. exact E.
    + intros [= <-]. auto.
  - intros [= <-]. auto.
Qed.

(** C3.  [parse_address_regex] searches the zip pattern without an anchor:
    on the address of the docstring of the other parser it takes the house
    number as the zip and loses street and city.  [parse_address] of
    [add_leads_to_dealmachine.py], whose pattern ends in [\s*$], finds the
    zip at the end of the same address, and on every string its zip is a zip
    token followed by whitespace only, or empty. *)
Theorem zip_taken_from_house_number :
  parse_address_regex (VStr "10491 72ND ST SEMINOLE FL  33777-1500") =
    Ok (Parts "" "" "FL" "10491" None) /\
  AddLeads.parse_address "10491 72ND ST SEMINOLE FL  33777-1500" =
    Ok (AddLeads.LeadParts "10491 72ND ST" "SEMINOLE" "FL" "33777-1500") /\
  (forall s p,
     AddLeads.parse_address s = Ok p ->
     AddLeads.zip p = "" \/
     (trailing (AddLeads.zip p) s /\ zip_token (AddLeads.zip p))).
Proof.
  split; [vm_compute; reflexivity|]. split; [vm_compute; reflexivity|].
  exact add_leads_zip_trailing.
Qed.

Lemma zip_taken_from_house_number_witness :
  trailing "33777-1500" "10491 72ND ST SEMINOLE FL  33777-1500" /\
  zip_token "33777-1500".
Proof.
  destruct (proj2 (proj2 zip_taken_from_house_number)
              "10491 72ND ST SEMINOLE FL  33777-1500"
              (AddLeads.LeadParts "10491 72ND ST" "SEMINOLE" "FL" "33777-1500")
              eq_refl) as [H | H].
  - discriminate H.
  - exact H.
Defined.

(** C4, as amended.  In [parse_address] of [add_leads_to_dealmachine.py],
    when zip and state are both found and a comma is left, the split is made
    once at the first comma: the stripped left part is the street, the
    stripped right part, later commas included, the city.  In
    [parse_address_regex] every comma splits: of the stripped non-empty
    pieces, when there are two or more, the last is the city and the others,
    joined by spaces, the street. *)
Theorem comma_split (s zip st rest : string) :
  (AddLeads.extract s = Ok (zip, st, rest) ->
   truthy st = true -> truthy zip = true -> has_char "," rest = true ->
   exists street city,
     AddLeads.parse_address s = Ok (AddLeads.LeadParts street city st zip) /\
     first_comma_split rest street city) /\
  (forall init c,
     has_char "," rest = true ->
     filter truthy (map str_strip (str_split "," rest)) = (init ++ [c])%list ->
     init <> [] ->
     split_street_city rest = Ok (str_join " " init, c)).
Proof.
  split.
  - intros E Ts Tz C. unfold AddLeads.parse_address. rewrite E. cbn [bind].
    rewrite Ts, Tz. cbn [andb]. unfold AddLeads.split_street_city. rewrite C.
    destruct (str_split1_found "," rest C) as [l [r [R [N ->]]]].
    cbn. do 2 eexists. split; [reflexivity|].
    exists l, r. auto.
  - intros init c C P N. unfold split_street_city. rewrite C, P.
    assert (L : (2 <=? List.length (init ++ [c]))%nat = true).
    { apply Nat.leb_le. rewrite length_app. simpl.
      destruct init; [congruence | simpl; lia]. }
    rewrite L. unfold list_index_last, list_but_last.
    rewrite rev_app_distr. cbn [rev app bind].
    rewrite length_app, Nat.add_sub, firstn_app, Nat.sub_diag, firstn_all.
    cbn [List.length firstn]. rewrite app_nil_r. reflexivity.
Qed.

Lemma comma_split_witness :
  (exists street city,
     AddLeads.parse_address "1 A ST, APT 2, TAMPA FL 33601" =
       Ok (AddLeads.LeadParts street city "FL" "33601") /\
     first_comma_split "1 A ST, APT 2, TAMPA" street city) /\
  split_street_city "1 A ST, APT 2, TAMPA" = Ok ("1 A ST APT 2", "TAMPA").
Proof.
  pose proof (comma_split "1 A ST, APT 2, TAMPA FL 33601" "33601" "FL"
                "1 A ST, APT 2, TAMPA") as [H1 H2].
  split.
  - apply H1; reflexivity.
  - apply (H2 ["1 A ST"; "APT 2"] "TAMPA"); [reflexivity | reflexivity |].
    discriminate.
Defined.

(** C4, as stated, fails for [parse_address_regex]: with two commas left the
    returned street is what is left of the last comma, not of the first. *)
Lemma last_comma_splits :
  address_without_state "1 A ST, APT 2, TAMPA FL 33601" =
    Ok "1 A ST, APT 2, TAMPA" /\
  parse_address_regex (VStr "1 A ST, APT 2, TAMPA FL 33601") =
    Ok (Parts "1 A ST APT 2" "TAMPA" "FL" "33601" None) /\
  ~ first_comma_split "1 A ST, APT 2, TAMPA" "1 A ST APT 2" "TAMPA".
Proof.
  split; [vm_compute; reflexivity|]. split; [vm_compute; reflexivity|].
  intros [l [r [E [N [S _]]]]].
  pose proof (str_split1_at "," l r N) as H.
  change (l ++ String "," r) with (l ++ "," ++ r) in H. rewrite <- E in H.
  vm_compute in H. injection H as <- _. vm_compute in S. discriminate.
Qed.

(** C5, as amended.  In [parse_address] of [add_leads_to_dealmachine.py],
    when zip and state are both found, neither a comma nor a slash is left
    and the first word that is a street suffix (whatever its case, final
    periods dropped) is not the last word, the words up to and including it,
    joined by spaces, are the street and the other words the city.
    [parse_address_regex] has no such split: without a comma all that is
    left is the street and the city is empty. *)
Theorem street_suffix_split (s zip st rest : string) :
  (AddLeads.extract s = Ok (zip, st, rest) ->
   truthy st = true -> truthy zip = true ->
   has_char "," rest = false -> has_char "/" rest = false ->
   forall pre w post,
     str_words rest = (pre ++ w :: post)%list ->
     Forall (fun x => AddLeads.is_indicator x = false) pre ->
     AddLeads.is_indicator w = true ->
     post <> [] ->
     AddLeads.parse_address s =
       Ok (AddLeads.LeadParts (str_join " " (pre ++ [w])) (str_join " " post)
             st zip)) /\
  (has_char "," rest = false -> split_street_city rest = Ok (rest, "")).
Proof.
  split.
  - intros E Ts Tz C Sl pre w post W F I P.
    unfold AddLeads.parse_address. rewrite E. cbn [bind].
    rewrite Ts, Tz. cbn [andb]. unfold AddLeads.split_street_city.
    rewrite C, Sl, W, (find_street_end_at pre w post F I 0).
    cbn [Nat.add].
    assert (L : ((0 <? List.length pre + 1)%nat &&
                 (List.length pre + 1 <? List.length (pre ++ w :: post))%nat)%bool
                = true).
    { apply andb_true_iff. split; [apply Nat.ltb_lt; lia|].
      apply Nat.ltb_lt. rewrite length_app. simpl.
      destruct post; [congruence | simpl; lia]. }
    rewrite L.
    replace (pre ++ w :: post)%list with ((pre ++ [w]) ++ post)%list
      by (rewrite <- app_assoc; reflexivity).
    replace (List.length pre + 1) with (List.length (pre ++ [w]))%list
      by (rewrite length_app; reflexivity).
    rewrite firstn_app, Nat.sub_diag, firstn_all, skipn_app, Nat.sub_diag,
      skipn_all.
    cbn [firstn skipn app bind try_except]. rewrite app_nil_r. reflexivity.
  - intros C. unfold split_street_city. rewrite C. reflexivity.
Qed.

Lemma street_suffix_split_witness :
  AddLeads.parse_address "10491 72ND ST SEMINOLE FL  33777-1500" =
    Ok (AddLeads.LeadParts "10491 72ND ST" "SEMINOLE" "FL" "33777-1500") /\
  split_street_city "10491 72ND ST SEMINOLE" = Ok ("10491 72ND ST SEMINOLE", "").
Proof.
  pose proof (street_suffix_split "10491 72ND ST SEMINOLE FL  33777-1500"
                "33777-1500" "FL" "10491 72ND ST SEMINOLE") as [H1 H2].
  split.
  - apply (H1 eq_refl eq_refl eq_refl eq_refl eq_refl
              ["10491"; "72ND"] "ST" ["SEMINOLE"]).
    + reflexivity.
    + repeat constructor.
    + reflexivity.
    + discriminate.
  - apply H2. reflexivity.
Defined.

(** C5, as stated, fails.  [parse_address_regex] does not split at the
    street suffix, and [parse_address] of [add_leads_to_dealmachine.py] does
    not when the suffix is the last word. *)
Lemma street_suffix_not_split :
  (address_without_state "123 MAIN ST TAMPA FL 33601" = Ok "123 MAIN ST TAMPA" /\
   parse_address_regex (VStr "123 MAIN ST TAMPA FL 33601") =
     Ok (Parts "123 MAIN ST TAMPA" "" "FL" "33601" None) /\
   ~ suffix_split (str_words "123 MAIN ST TAMPA") "123 MAIN ST TAMPA" "") /\
  (AddLeads.extract "123 MAIN ST FL 33601" = Ok ("33601", "FL", "123 MAIN ST") /\
   AddLeads.parse_address "123 MAIN ST FL 33601" =
     Ok (AddLeads.LeadParts "123 MAIN" "ST" "FL" "33601") /\
   ~ suffix_split (str_words "123 MAIN ST") "123 MAIN" "ST").
Proof.
  split; (split; [vm_compute; reflexivity|]); (split; [vm_compute; reflexivity|]).
  - intros [pre [w [post [E [_ [I [_ C]]]]]]].
    change (str_words "123 MAIN ST TAMPA") with ["123"; "MAIN"; "ST"; "TAMPA"] in E.
    destruct pre as [|a [|b [|c [|d pre]]]]; simpl in E; inversion E; subst;
      try (vm_compute in I; discriminate I);
      try discriminate C.
    destruct pre; discriminate.
  - intros [pre [w [post [E [_ [I [S _]]]]]]].
    change (str_words "123 MAIN ST") with ["123"; "MAIN"; "ST"] in E.
    destruct pre as [|a [|b [|c pre]]]; simpl in E; inversion E; subst;
      try (vm_compute in I; discriminate I);
      try (vm_compute in S; discriminate S).
Qed.

End DecomposeProps.

(** ** The examples of the specification and of the docstrings *)

Module Examples.
Import JsonToCsv Decompose.

Example fix_zip_missing_hyphen : fix_zip "FL" "336051" = ("33605", []).
Proof. reflexivity. Qed.

Example fix_zip_plus_four : fix_zip "FL" "33777-1500" = ("33777-1500", []).
Proof. reflexivity. Qed.

Example fix_zip_letters :
  fix_zip "FL" "K1A 0B1" = ("101", ["Invalid zip format: 101"]).
Proof. reflexivity. Qed.

Example regex_slash_separator :
  parse_address_regex (VStr "1423 ALLENDALE RD/ WEST PALM BEACH FL 33405") =
    Ok (Parts "1423 ALLENDALE RD" "WEST PALM BEACH" "FL" "33405" None).
Proof. vm_compute. reflexivity. Qed.

Example regex_default_state :
  parse_address_regex (VStr "HELLO") = Ok (Parts "HELLO" "" "FL" "" None).
Proof. vm_compute. reflexivity. Qed.

Example regex_comma_before_state :
  parse_address_regex (VStr "4390 SW 20TH AVE GAINESVILLE, FL 32607") =
    Ok (Parts "4390 SW 20TH AVE GAINESVILLE" "" "FL" "32607" None).
Proof. vm_compute. reflexivity. Qed.

Example tagger_failure_falls_back :
  parse_address (fun _ => Raise TaggerError) true
    (VStr "1423 ALLENDALE RD/ WEST PALM BEACH FL 33405") =
    Ok (Parts "1423 ALLENDALE RD" "WEST PALM BEACH" "FL" "33405" None).
Proof. vm_compute. reflexivity. Qed.

Example add_leads_slash_separator :
  AddLeads.parse_address "1423 ALLENDALE RD/ WEST PALM BEACH FL 33405" =
    Ok (AddLeads.LeadParts "1423 ALLENDALE RD" "WEST PALM BEACH" "FL" "33405").
Proof. vm_compute. reflexivity. Qed.

Example add_leads_without_state :
  AddLeads.parse_address "1 MAIN ST, TAMPA" =
    Ok (AddLeads.LeadParts "1 MAIN ST, TAMPA" "" "" "").
Proof. vm_compute. reflexivity. Qed.

Example county_fallback_valid :
  validate_and_fix_address (Parts "" "" "FL" "33405" (Some "PALM BEACH")) "" =
    (Parts "" "" "FL" "33405" None, true, "").
Proof. reflexivity. Qed.

End Examples.

(** ** Zip repair: what is accepted *)

Module ZipExtra.
Import JsonToCsv ZipProps.

Lemma str_split_none (sep : ascii) (s : string) :
  has_char sep s = false -> str_split sep s = [s].
Proof.
  unfold has_char. induction s as [|c s IH]; simpl; auto.
  intros H. apply orb_false_iff in H as [Hc Hs].
  rewrite Ascii.eqb_sym, Hc, (IH Hs). reflexivity.
Qed.

Lemma str_split_app (sep : ascii) (l r : string) :
  has_char sep l = false ->
  str_split sep (l ++ String sep r) = l :: str_split sep r.
Proof.
  unfold has_char. induction l as [|c l IH]; simpl.
  - rewrite Ascii.eqb_refl. reflexivity.
  - intros H. apply orb_false_iff in H as [Hc Hl].
    rewrite Ascii.eqb_sym, Hc, (IH Hl). reflexivity.
Qed.

Lemma str_split_not_nil (sep : ascii) (s : string) : str_split sep s <> [].
Proof.
  destruct s as [|c s]; simpl; [discriminate|].
  destruct (Ascii.eqb c sep); [discriminate|].
  destruct (str_split sep s); discriminate.
Qed.

(** Joining the parts of a split gives the string back. *)
Lemma str_join_split (sep : ascii) (s : string) :
  str_join (String sep "") (str_split sep s) = s.
Proof.
  induction s as [|c s IH]; simpl; auto.
  destruct (Ascii.eqb c sep) eqn:E.
  - apply Ascii.eqb_eq in E. subst c.
    destruct (str_split sep s) eqn:S; [apply str_split_not_nil in S; contradiction|].
    rewrite <- IH. reflexivity.
  - destruct (str_split sep s) as [|h t] eqn:S;
      [apply str_split_not_nil in S; contradiction|].
    rewrite <- IH. destruct t; reflexivity.
Qed.

(** A split in two parts is a string with exactly one separator. *)
Lemma str_split_two (sep : ascii) (c p0 p1 : string) :
  str_split sep c = [p0; p1] <->
  c = p0 ++ String sep p1 /\ has_char sep p0 = false /\ has_char sep p1 = false.
Proof.
  split.
  - intros H. pose proof (str_join_split sep c) as J.
    pose proof (str_split_no_sep sep c) as N. rewrite H in J, N.
    apply Forall_cons_iff in N as [N0 N']. apply Forall_cons_iff in N' as [N1 _].
    simpl in J. auto.
  - intros [-> [N0 N1]]. rewrite (str_split_app _ _ _ N0), (str_split_none _ _ N1).
    reflexivity.
Qed.

Lemma str_take_length (n : nat) (s : string) :
  n <= String.length s -> String.length (str_take n s) = n.
Proof.
  revert s. induction n as [|n IH]; intros [|c s]; simpl; auto; try lia.
  intros H. rewrite IH; lia.
Qed.

Lemma str_drop_length (n : nat) (s : string) :
  String.length (str_drop n s) = String.length s - n.
Proof. revert s. induction n as [|n IH]; intros [|c s]; simpl; auto. Qed.

Lemma str_isdigit_intro (s : string) (n : nat) :
  String.length s = S n -> str_all isdigit s = true -> str_isdigit s = true.
Proof.
  intros L D. unfold str_isdigit. rewrite (length_truthy _ _ L), D. reflexivity.
Qed.

Lemma has_char_append (c : ascii) (s t : string) :
  has_char c (s ++ t) = (has_char c s || has_char c t)%bool.
Proof. apply str_any_append. Qed.

Lemma has_hyphen_mid (p0 p1 : string) : has_char "-" (p0 ++ "-" ++ p1) = true.
Proof. rewrite has_char_append. apply orb_true_iff. right. reflexivity. Qed.

(** The format check of five digits, a hyphen and digits. *)
Lemma zip_format_check_one_hyphen (p0 p1 : string) :
  str_all isdigit p0 = true -> str_all isdigit p1 = true ->
  zip_format_check (p0 ++ "-" ++ p1) [] =
    let c := p0 ++ "-" ++ p1 in
    if negb (String.length p0 =? 5)%nat then
      (c, ["Invalid zip format (first part): " ++ c])
    else if (String.length p1 =? 0)%nat then (c, [])
    else if (String.length p1 <? 4)%nat then (p0, [])
    else if (String.length p1 =? 4)%nat then (c, [])
    else (c, ["Invalid zip+4 format (second part): " ++ c]).
Proof.
  intros D0 D1. cbv zeta.
  unfold zip_format_check. rewrite has_hyphen_mid.
  replace (str_split "-" (p0 ++ "-" ++ p1)) with [p0; p1]
    by (symmetry; apply str_split_two; auto using digits_no_hyphen).
  destruct (String.length p0 =? 5)%nat eqn:L0; cbn [negb orb]; [|reflexivity].
  apply Nat.eqb_eq in L0. rewrite (str_isdigit_intro _ _ L0 D0). cbn [negb].
  destruct p1 as [|a p1]; [reflexivity|].
  cbn [truthy]. change (String.length (String a p1) =? 0)%nat with false.
  destruct (String.length (String a p1) <? 4)%nat; [reflexivity|].
  destruct (String.length (String a p1) =? 4)%nat eqn:L1; cbn [negb orb].
  - unfold str_isdigit. cbn [truthy andb]. rewrite D1. reflexivity.
  - reflexivity.
Qed.

(** The repair of a cleaned zip without a hyphen, by its length. *)
Lemma fix_zip_plain (st z : string) :
  truthy z = true ->
  has_char "-" (str_filter keep_zip_char z) = false ->
  fix_zip st z =
    let c := str_filter keep_zip_char z in
    if (String.length c =? 6)%nat then (str_take 5 c, [])
    else if (String.length c =? 4)%nat then
      if String.eqb st "FL" then ("3" ++ c, [])
      else (c, ["Invalid 4-digit zip: " ++ c; "Invalid zip format: " ++ c])
    else if (String.length c =? 5)%nat then (c, [])
    else (c, ["Invalid zip format: " ++ c]).
Proof.
  intros T Hy. cbv zeta. set (c := str_filter keep_zip_char z) in *.
  assert (D : str_all isdigit c = true).
  { apply keep_no_hyphen_digits; [apply str_filter_all | exact Hy]. }
  unfold fix_zip. rewrite T. fold c. unfold zip_length_fix. rewrite Hy.
  cbn [negb]. rewrite !andb_true_r.
  destruct (String.length c =? 6)%nat eqn:L6.
  - apply Nat.eqb_eq in L6.
    rewrite (zip_format_check_one_hyphen _ _ (str_all_take _ 5 _ D)
               (str_all_drop _ 5 _ D)).
    cbv zeta. rewrite str_take_length, str_drop_length, L6 by lia. reflexivity.
  - destruct (String.length c =? 4)%nat eqn:L4.
    + apply Nat.eqb_eq in L4. destruct (String.eqb st "FL").
      * unfold zip_format_check.
        change (has_char "-" ("3" ++ c)) with (has_char "-" c). rewrite Hy.
        change (String.length ("3" ++ c)) with (S (String.length c)).
        rewrite L4. unfold str_isdigit. simpl. rewrite D. reflexivity.
      * unfold zip_format_check. rewrite Hy, L4. reflexivity.
    + unfold zip_format_check. rewrite Hy.
      destruct (String.length c =? 5)%nat eqn:L5.
      * apply Nat.eqb_eq in L5. rewrite (str_isdigit_intro _ _ L5 D). reflexivity.
      * reflexivity.
Qed.

(** The repair of a cleaned zip with one hyphen, by the lengths of its two
    parts. *)
Lemma fix_zip_one_hyphen (st z p0 p1 : string) :
  truthy z = true ->
  str_filter keep_zip_char z = p0 ++ "-" ++ p1 ->
  has_char "-" p0 = false -> has_char "-" p1 = false ->
  fix_zip st z =
    let c := p0 ++ "-" ++ p1 in
    if negb (String.length p0 =? 5)%nat then
      (c, ["Invalid zip format (first part): " ++ c])
    else if (String.length p1 =? 0)%nat then (c, [])
    else if (String.length p1 <? 4)%nat then (p0, [])
    else if (String.length p1 =? 4)%nat then (c, [])
    else (c, ["Invalid zip+4 format (second part): " ++ c]).
Proof.
  intros T C N0 N1.
  assert (K : str_all keep_zip_char (p0 ++ "-" ++ p1) = true)
    by (rewrite <- C; apply str_filter_all).
  rewrite !str_all_append in K. apply andb_true_iff in K as [K0 K1].
  apply andb_true_iff in K1 as [_ K1].
  pose proof (keep_no_hyphen_digits _ K0 N0) as D0.
  pose proof (keep_no_hyphen_digits _ K1 N1) as D1.
  unfold fix_zip. rewrite T, C, (zip_length_fix_hyphen _ _ (has_hyphen_mid p0 p1)).
  apply zip_format_check_one_hyphen; assumption.
Qed.

(** The repair of a cleaned zip with two hyphens or more. *)
Lemma fix_zip_hyphens (st z : string) :
  truthy z = true ->
  has_char "-" (str_filter keep_zip_char z) = true ->
  (forall p0 p1, str_filter keep_zip_char z <> p0 ++ "-" ++ p1 \/
                 has_char "-" p0 = true \/ has_char "-" p1 = true) ->
  fix_zip st z =
    (str_filter keep_zip_char z,
     ["Invalid zip+4 format (multiple hyphens): " ++ str_filter keep_zip_char z]).
Proof.
  intros T Hy M. unfold fix_zip. rewrite T, (zip_length_fix_hyphen _ _ Hy).
  unfold zip_format_check. rewrite Hy.
  destruct (str_split "-" (str_filter keep_zip_char z)) as [|p0 [|p1 [|? ?]]] eqn:S;
    try reflexivity.
  apply str_split_two in S as [E [N0 N1]].
  destruct (M p0 p1) as [H|[H|H]]; [contradiction | congruence | congruence].
Qed.

(** The zip repair records no reason exactly for the zips that, once
    cleaned of everything but digits and hyphens, are five or six digits, four
    digits with state FL, or five digits, a hyphen and at most four digits. *)
Theorem zip_acceptance (st z : string) :
  truthy z = true ->
  (snd (fix_zip st z) = [] <-> acceptable_zip st (str_filter keep_zip_char z)).
Proof.
  intros T. set (c := str_filter keep_zip_char z).
  destruct (has_char "-" c) eqn:Hy.
  - destruct (str_split "-" c) as [|p0 [|p1 [|p2 ps]]] eqn:S.
    1, 2, 4:
      rewrite (fix_zip_hyphens st z T Hy);
      [ split; [discriminate|];
        intros [[N _] | [q0 [q1 [E [N0 [N1 _]]]]]]; [unfold c in *; congruence|];
        assert (S' : str_split "-" c = [q0; q1]) by (apply str_split_two; auto);
        rewrite S in S'; discriminate
      | intros q0 q1;
        destruct (has_char "-" q0) eqn:N0; auto;
        destruct (has_char "-" q1) eqn:N1; auto;
        left; intros E;
        assert (S' : str_split "-" c = [q0; q1]) by (apply str_split_two; auto);
        rewrite S in S'; discriminate ].
    apply str_split_two in S as [E [N0 N1]].
    rewrite (fix_zip_one_hyphen st z p0 p1 T E N0 N1). cbv zeta.
    assert (U : forall q0 q1,
               c = q0 ++ "-" ++ q1 -> has_char "-" q0 = false ->
               has_char "-" q1 = false -> q0 = p0 /\ q1 = p1).
    { intros q0 q1 E' M0 M1.
      assert (S1 : str_split "-" c = [q0; q1]) by (apply str_split_two; auto).
      assert (S2 : str_split "-" c = [p0; p1]) by (apply str_split_two; auto).
      rewrite S1 in S2. injection S2 as -> ->. auto. }
    destruct (String.length p0 =? 5)%nat eqn:L0; cbn [negb].
    + apply Nat.eqb_eq in L0.
      destruct (String.length p1 =? 0)%nat eqn:L1;
        [apply Nat.eqb_eq in L1
        |apply Nat.eqb_neq in L1;
         destruct (String.length p1 <? 4)%nat eqn:L2;
           [apply Nat.ltb_lt in L2
           |apply Nat.ltb_ge in L2;
            destruct (String.length p1 =? 4)%nat eqn:L3;
              [apply Nat.eqb_eq in L3 | apply Nat.eqb_neq in L3]]];
        cbn [snd].
      1, 2, 3: split; [intros _ | reflexivity];
               right; exists p0, p1; repeat split; auto; lia.
      split; [discriminate|].
      intros [[N _] | [q0 [q1 [E' [M0 [M1 [_ L]]]]]]]; [congruence|].
      destruct (U _ _ E' M0 M1) as [-> ->]. lia.
    + apply Nat.eqb_neq in L0. cbn [snd]. split; [discriminate|].
      intros [[N _] | [q0 [q1 [E' [M0 [M1 [L _]]]]]]]; [congruence|].
      destruct (U _ _ E' M0 M1) as [-> ->]. congruence.
  - rewrite (fix_zip_plain st z T Hy). cbv zeta. fold c.
    assert (R : forall q0 q1, c <> q0 ++ "-" ++ q1).
    { intros q0 q1 E. rewrite E, has_hyphen_mid in Hy. discriminate. }
    destruct (String.length c =? 6)%nat eqn:L6.
    { apply Nat.eqb_eq in L6. cbn [snd]. split; [|reflexivity].
      intros _. left. auto. }
    apply Nat.eqb_neq in L6.
    destruct (String.length c =? 4)%nat eqn:L4.
    { apply Nat.eqb_eq in L4. destruct (String.eqb st "FL") eqn:F; cbn [snd].
      - apply String.eqb_eq in F. split; [|reflexivity]. intros _. left. auto.
      - apply String.eqb_neq in F. split; [discriminate|].
        intros [[_ [L|[L|[_ L]]]] | [q0 [q1 [E _]]]];
          [lia | lia | congruence | apply R in E; contradiction]. }
    apply Nat.eqb_neq in L4.
    destruct (String.length c =? 5)%nat eqn:L5; cbn [snd].
    + apply Nat.eqb_eq in L5. split; [|reflexivity]. intros _. left. auto.
    + apply Nat.eqb_neq in L5. split; [discriminate|].
      intros [[_ [L|[L|[L _]]]] | [q0 [q1 [E _]]]];
        [lia | lia | lia | apply R in E; contradiction].
Qed.

Lemma zip_acceptance_witness :
  snd (fix_zip "TX" "33777 - 15") = [] /\ snd (fix_zip "TX" "5678") <> [].
Proof.
  split.
  - apply (proj2 (zip_acceptance "TX" "33777 - 15" eq_refl)).
    right. exists "33777", "15". repeat split; simpl; lia.
  - intros H. apply (proj1 (zip_acceptance "TX" "5678" eq_refl)) in H.
    destruct H as [[_ [L|[L|[_ L]]]] | [q0 [q1 [E _]]]]; try discriminate.
    assert (Hy : has_char "-" "5678" = true)
      by (change "5678" with (str_filter keep_zip_char "5678");
          rewrite E; apply has_hyphen_mid).
    discriminate Hy.
Defined.

(** The repaired zip is the cleaned zip, or five digits without a reason. *)
Lemma fix_zip_result (st z : string) :
  truthy z = true ->
  fst (fix_zip st z) = str_filter keep_zip_char z \/
  (String.length (fst (fix_zip st z)) = 5 /\
   str_all isdigit (fst (fix_zip st z)) = true /\
   snd (fix_zip st z) = []).
Proof.
  intros T. set (c := str_filter keep_zip_char z).
  assert (K : str_all keep_zip_char c = true) by apply str_filter_all.
  destruct (has_char "-" c) eqn:Hy.
  - destruct (str_split "-" c) as [|p0 [|p1 [|p2 ps]]] eqn:S.
    1, 2, 4:
      rewrite (fix_zip_hyphens st z T Hy); [left; reflexivity|];
      intros q0 q1;
      destruct (has_char "-" q0) eqn:N0; auto;
      destruct (has_char "-" q1) eqn:N1; auto;
      left; intros E;
      assert (S' : str_split "-" c = [q0; q1]) by (apply str_split_two; auto);
      rewrite S in S'; discriminate.
    apply str_split_two in S as [E [N0 N1]].
    rewrite (fix_zip_one_hyphen st z p0 p1 T E N0 N1). cbv zeta.
    fold c. change (p0 ++ "-" ++ p1) with (p0 ++ String "-" p1). rewrite <- E.
    destruct (String.length p0 =? 5)%nat eqn:L0; cbn [negb]; [|left; reflexivity].
    destruct (String.length p1 =? 0)%nat; [left; reflexivity|].
    destruct (String.length p1 <? 4)%nat;
      [|destruct (String.length p1 =? 4)%nat; left; reflexivity].
    right. cbn [fst snd]. apply Nat.eqb_eq in L0. repeat split; auto.
    apply keep_no_hyphen_digits; auto.
    rewrite E, str_all_append in K. apply andb_true_iff in K. tauto.
  - pose proof (keep_no_hyphen_digits _ K Hy) as D.
    rewrite (fix_zip_plain st z T Hy). cbv zeta. fold c.
    destruct (String.length c =? 6)%nat eqn:L6.
    { right. cbn [fst snd]. apply Nat.eqb_eq in L6.
      rewrite str_take_length by lia. repeat split; auto.
      apply str_all_take, D. }
    destruct (String.length c =? 4)%nat eqn:L4.
    { destruct (String.eqb st "FL"); [|left; reflexivity].
      right. cbn [fst snd]. apply Nat.eqb_eq in L4.
      change (String.length ("3" ++ c)) with (S (String.length c)).
      rewrite L4. repeat split; auto. }
    destruct (String.length c =? 5)%nat; left; reflexivity.
Qed.

(** The repair only looks at the cleaned zip. *)
Lemma fix_zip_of_cleaned (st z : string) :
  truthy z = true -> truthy (str_filter keep_zip_char z) = true ->
  fix_zip st (str_filter keep_zip_char z) = fix_zip st z.
Proof.
  intros T Tc. unfold fix_zip. rewrite T, Tc.
  rewrite (str_filter_id _ _ (str_filter_all keep_zip_char z)). reflexivity.
Qed.

Lemma fix_zip_empty (st z : string) : truthy z = false -> fix_zip st z = (z, []).
Proof. intros T. unfold fix_zip. rewrite T. reflexivity. Qed.

Lemma fix_zip_again (st z : string) :
  fst (fix_zip st (fst (fix_zip st z))) = fst (fix_zip st z) /\
  (truthy (fst (fix_zip st z)) = true ->
   fix_zip st (fst (fix_zip st z)) = fix_zip st z).
Proof.
  destruct (truthy z) eqn:T.
  - destruct (fix_zip_result st z T) as [E | [L [D R]]].
    + rewrite E. destruct (truthy (str_filter keep_zip_char z)) eqn:Tc.
      * rewrite (fix_zip_of_cleaned _ _ T Tc). auto.
      * rewrite (fix_zip_empty _ _ Tc). split; [reflexivity | discriminate].
    + rewrite (fix_zip_five_digits st _ L (str_isdigit_intro _ _ L D)).
      split; [reflexivity|]. intros _.
      rewrite <- R. destruct (fix_zip st z); reflexivity.
  - rewrite (fix_zip_empty _ _ T). cbn [fst]. rewrite (fix_zip_empty _ _ T).
    split; [reflexivity | congruence].
Qed.

(** The zip of an accepted record. *)
Lemma fix_zip_accepted_shape (st z z' : string) :
  truthy z = true -> fix_zip st z = (z', []) -> accepted_zip z'.
Proof.
  intros T F.
  assert (A : snd (fix_zip st z) = []) by (rewrite F; reflexivity).
  destruct (fix_zip_result st z T) as [E | [L [D _]]].
  - rewrite F in E. cbn [fst] in E. subst z'.
    apply (zip_acceptance st z T) in A.
    set (c := str_filter keep_zip_char z) in *.
    assert (K : str_all keep_zip_char c = true) by apply str_filter_all.
    destruct A as [[Hy Len] | [p0 [p1 [E [N0 [N1 [L0 L1]]]]]]].
    + pose proof (keep_no_hyphen_digits _ K Hy) as D.
      rewrite (fix_zip_plain st z T Hy) in F. cbv zeta in F. fold c in F.
      destruct Len as [L | [L | [L St]]].
      * left. left. auto.
      * rewrite L in F. change (6 =? 6)%nat with true in F. cbv iota in F.
        apply pair_equal_spec in F as [F _].
        apply (f_equal String.length) in F.
        rewrite str_take_length in F by lia. lia.
      * rewrite L in F. subst st.
        change (4 =? 6)%nat with false in F. change (4 =? 4)%nat with true in F.
        change (String.eqb "FL" "FL") with true in F. cbv iota in F.
        apply pair_equal_spec in F as [F _].
        apply (f_equal String.length) in F.
        change (String.length ("3" ++ c)) with (S (String.length c)) in F. lia.
    + rewrite E, !str_all_append in K. apply andb_true_iff in K as [K0 K1].
      apply andb_true_iff in K1 as [_ K1].
      pose proof (keep_no_hyphen_digits _ K0 N0) as D0.
      pose proof (keep_no_hyphen_digits _ K1 N1) as D1.
      rewrite (fix_zip_one_hyphen st z p0 p1 T E N0 N1) in F. cbv zeta in F.
      rewrite L0 in F. cbn [Nat.eqb negb] in F.
      destruct (String.length p1 =? 0)%nat eqn:Z.
      * apply Nat.eqb_eq in Z. destruct p1; [|discriminate Z].
        right. exists p0. rewrite E. auto.
      * destruct (String.length p1 <? 4)%nat eqn:L2.
        { injection F as F. apply (f_equal String.length) in F.
          rewrite E, str_length_append in F. simpl in F. lia. }
        apply Nat.ltb_ge in L2.
        left. right. exists p0, p1. rewrite E. repeat split; auto. lia.
  - rewrite F in L, D. left. left. auto.
Qed.

(** A six-digit zip is cut to its first five digits, and a zip+4 with one to
    three digits after the hyphen to the five digits before it; neither
    records a reason, whatever the state. *)
Theorem short_suffix_dropped (st z : string) :
  let c := str_filter keep_zip_char z in
  (String.length c = 6 -> has_char "-" c = false ->
   fix_zip st z = (str_take 5 c, [])) /\
  (forall p0 p1,
     c = p0 ++ "-" ++ p1 ->
     has_char "-" p0 = false -> has_char "-" p1 = false ->
     String.length p0 = 5 -> 1 <= String.length p1 <= 3 ->
     fix_zip st z = (p0, [])).
Proof.
  cbv zeta. split.
  - intros L Hy.
    assert (T : truthy z = true).
    { destruct z; [discriminate L | reflexivity]. }
    rewrite (fix_zip_plain st z T Hy). cbv zeta. rewrite L. reflexivity.
  - intros p0 p1 E N0 N1 L0 L1.
    assert (T : truthy z = true).
    { destruct z; [|reflexivity]. simpl in E. destruct p0; discriminate. }
    rewrite (fix_zip_one_hyphen st z p0 p1 T E N0 N1). cbv zeta.
    rewrite L0. cbn [Nat.eqb negb].
    destruct (String.length p1 =? 0)%nat eqn:Z; [apply Nat.eqb_eq in Z; lia|].
    destruct (String.length p1 <? 4)%nat eqn:L2; [reflexivity|].
    apply Nat.ltb_ge in L2. lia.
Qed.

Lemma short_suffix_dropped_witness :
  fix_zip "GA" "336051" = ("33605", []) /\
  fix_zip "GA" "33777-15" = ("33777", []).
Proof.
  split.
  - apply (proj1 (short_suffix_dropped "GA" "336051")); reflexivity.
  - apply (proj2 (short_suffix_dropped "GA" "33777-15") "33777" "15");
      try reflexivity.
    simpl. lia.
Defined.

End ZipExtra.

(** ** Validation: accepted and rejected records *)

Module ValidatorExtra.
Import JsonToCsv ZipProps ValidatorProps ZipExtra.

(** The list [errors] at line 263 when no early [return] was taken. *)
Lemma validate_reasons_checked_errors (p : parts) :
  str_in (state p) CANADIAN = false ->
  validate_reasons p =
    (Parts (street p) (city p) (state p) (repaired_zip p) None,
     checked_valid p,
     (if (negb (truthy (street p)) && get_county p)%bool then zip_reasons p
      else if negb (truthy (street p) && truthy (city p) && truthy (state p)
                    && truthy (repaired_zip p))%bool
           then (zip_reasons p ++
                 missing_reasons (street p) (city p) (repaired_zip p))%list
           else zip_reasons p),
     ExitChecked).
Proof.
  intros H. unfold validate_reasons, checked_valid.
  rewrite (fix_zip_eq p), H.
  rewrite (fix_zip_no_alpha _ _ _ _ (fix_zip_eq p)).
  f_equal. f_equal. f_equal.
  unfold missing_reasons.
  destruct (truthy (street p)), (truthy (city p)), (truthy (state p)),
    (truthy (repaired_zip p)), (get_county p), (zip_reasons p);
    reflexivity.
Qed.

Lemma repaired_zip_truthy (p : parts) :
  truthy (repaired_zip p) = true -> truthy (zip_code p) = true.
Proof.
  intros H. destruct (truthy (zip_code p)) eqn:T; auto.
  unfold repaired_zip in H. rewrite (fix_zip_empty _ _ T) in H.
  cbn [fst] in H. congruence.
Qed.

(** Every reason is a non-empty string, so a message is empty only when there
    is no reason. *)
Lemma truthy_append_l (a b : string) : truthy a = true -> truthy (a ++ b) = true.
Proof. destruct a; simpl; [discriminate | reflexivity]. Qed.

Lemma str_join_empty (sep : string) (l : list string) :
  Forall (fun e => truthy e = true) l -> str_join sep l = "" -> l = [].
Proof.
  intros F. destruct F as [|e l He F]; auto.
  simpl. destruct l.
  - intros E. rewrite E in He. discriminate.
  - intros E. apply (f_equal truthy) in E.
    rewrite (truthy_append_l _ _ He) in E. discriminate.
Qed.

Lemma list_append_truthy (l : list string) (e : string) :
  Forall (fun e => truthy e = true) l -> truthy e = true ->
  Forall (fun e => truthy e = true) (list_append l e).
Proof.
  intros F T. unfold list_append. apply Forall_app. split; auto.
Qed.

Lemma zip_reasons_truthy (p : parts) :
  Forall (fun e => truthy e = true) (zip_reasons p).
Proof.
  unfold zip_reasons, fix_zip.
  destruct (truthy (zip_code p)); [|constructor].
  destruct (zip_length_fix (state p) (str_filter keep_zip_char (zip_code p)))
    as [zc e0] eqn:E.
  assert (F0 : Forall (fun e => truthy e = true) e0).
  { revert E. unfold zip_length_fix.
    repeat match goal with
           | |- context [if ?x then _ else _] => destruct x
           end;
      intros H; apply pair_equal_spec in H as [_ <-]; repeat constructor. }
  unfold zip_format_check.
  repeat match goal with
         | |- context [match ?x with _ => _ end] => destruct x
         end; cbn [snd]; auto; apply list_append_truthy; auto.
Qed.

Lemma missing_reasons_truthy (a b c : string) :
  Forall (fun e => truthy e = true) (missing_reasons a b c).
Proof.
  unfold missing_reasons.
  destruct (truthy a), (truthy b), (truthy c); repeat constructor.
Qed.

(** What holds of an accepted record. *)
Lemma valid_facts (p : parts) (o : string) (n : parts) (msg : string) :
  validate_and_fix_address p o = (n, true, msg) ->
  msg = "" /\
  county n = None /\
  accepted_zip (zip_code n) /\
  truthy (state n) = true /\ str_in (state n) CANADIAN = false /\
  (truthy (street n) = true /\ truthy (city n) = true \/
   truthy (street n) = false /\ get_county p = true).
Proof.
  unfold validate_and_fix_address.
  destruct (str_in (state p) CANADIAN) eqn:E.
  { rewrite (validate_reasons_canadian _ E). discriminate. }
  rewrite (validate_reasons_checked_errors _ E).
  intros H. injection H as <- V M.
  pose proof V as Hc. apply checked_valid_iff in Hc as [R Hc].
  cbn [street city state zip_code county].
  assert (Tz : truthy (repaired_zip p) = true).
  { destruct Hc as [Hc | [_ Hc]]; apply andb_true_iff in Hc; tauto. }
  assert (Ts : truthy (state p) = true).
  { destruct Hc as [Hc | [_ Hc]]; apply andb_true_iff in Hc as [Hc _];
      apply andb_true_iff in Hc; tauto. }
  split; [|split; [reflexivity|split; [|split; [exact Ts|split; [exact E|]]]]].
  - subst msg. rewrite R.
    destruct Hc as [Hc | [Hs Hc]].
    + rewrite Hc.
      apply andb_true_iff in Hc as [Hc _]. apply andb_true_iff in Hc as [Hc _].
      apply andb_true_iff in Hc as [T1 _]. rewrite T1. reflexivity.
    + rewrite Hs. apply andb_true_iff in Hc as [Hc _].
      apply andb_true_iff in Hc as [Hc _]. rewrite Hc. reflexivity.
  - apply (fix_zip_accepted_shape (state p) (zip_code p)).
    + apply repaired_zip_truthy, Tz.
    + rewrite (fix_zip_eq p), R. reflexivity.
  - destruct Hc as [Hc | [Hs Hc]].
    + left. apply andb_true_iff in Hc as [Hc _]. apply andb_true_iff in Hc as [Hc _].
      apply andb_true_iff in Hc. exact Hc.
    + right. split; [exact Hs|]. apply andb_true_iff in Hc as [Hc _].
      apply andb_true_iff in Hc. tauto.
Qed.

(** An accepted record: the message is empty, the returned dict has the four
    fields only, its zip is five digits, five digits and a hyphen, or five
    digits, a hyphen and four digits, its state is not empty and not a
    Canadian province, and either street and city are not empty or the street
    is empty and the county is not. *)
Theorem accepted_record (p : parts) (o : string) (n : parts) (msg : string) :
  validate_and_fix_address p o = (n, true, msg) ->
  msg = "" /\
  county n = None /\
  accepted_zip (zip_code n) /\
  truthy (state n) = true /\ str_in (state n) CANADIAN = false /\
  (truthy (street n) = true /\ truthy (city n) = true \/
   truthy (street n) = false /\ get_county p = true).
Proof. apply valid_facts. Qed.

Lemma accepted_record_witness :
  accepted_zip "33777-" /\ "" = "".
Proof.
  destruct (accepted_record (Parts "" "LARGO" "FL" "33777-" (Some "PINELLAS")) ""
              (Parts "" "LARGO" "FL" "33777-" None) "" eq_refl)
    as [M [_ [A _]]].
  split; [exact A | exact M].
Defined.

(** A record is rejected with an empty message exactly when the state is not
    a Canadian province, the zip repair recorded no reason, and either street,
    city and zip are present and the state is empty, or the street is empty,
    the county is present and the state or the zip is empty. *)
Theorem rejected_without_reason (p : parts) (o : string) :
  snd (fst (validate_and_fix_address p o)) = false /\
  snd (validate_and_fix_address p o) = "" <->
  str_in (state p) CANADIAN = false /\ zip_reasons p = [] /\
  (truthy (street p) = true /\ truthy (city p) = true /\
   truthy (repaired_zip p) = true /\ truthy (state p) = false \/
   truthy (street p) = false /\ get_county p = true /\
   (truthy (state p) = false \/ truthy (repaired_zip p) = false)).
Proof.
  unfold validate_and_fix_address.
  destruct (str_in (state p) CANADIAN) eqn:E.
  { rewrite (validate_reasons_canadian _ E). cbn [fst snd].
    split; [|intros [H _]; discriminate].
    intros [_ H]. apply str_join_empty in H.
    - apply list_append_not_nil in H. contradiction.
    - apply list_append_truthy; [apply zip_reasons_truthy | reflexivity]. }
  rewrite (validate_reasons_checked_errors _ E). cbn [fst snd].
  pose proof (zip_reasons_truthy p) as Fz.
  pose proof (missing_reasons_truthy (street p) (city p) (repaired_zip p)) as Fm.
  unfold checked_valid.
  assert (J : forall l, Forall (fun e => truthy e = true) l ->
                        (str_join "; " l = "" <-> l = [])).
  { intros l F. split; [apply str_join_empty, F | intros ->; reflexivity]. }
  unfold missing_reasons in *.
  destruct (truthy (street p)), (truthy (city p)), (truthy (state p)),
    (truthy (repaired_zip p)), (get_county p);
    cbn [negb andb orb app] in *;
    try rewrite app_nil_r;
    repeat match goal with
           | |- context [str_join "; " ?l] =>
               let H := fresh "H" in
               assert (H : str_join "; " l = "" <-> l = [])
                 by (apply J; try apply Forall_app; auto);
               rewrite H; clear H
           end;
    destruct (zip_reasons p); cbn [app];
    intuition (try congruence; try discriminate).
Qed.

Lemma rejected_without_reason_witness :
  validate_and_fix_address (Parts "1 MAIN ST" "TAMPA" "" "33605" None) "" =
    (Parts "1 MAIN ST" "TAMPA" "" "33605" None, false, "").
Proof.
  pose proof (proj2 (rejected_without_reason
                       (Parts "1 MAIN ST" "TAMPA" "" "33605" None) "")) as H.
  destruct H as [V M].
  - split; [reflexivity|]. split; [reflexivity|]. left. repeat split.
  - destruct (validate_and_fix_address (Parts "1 MAIN ST" "TAMPA" "" "33605" None) "")
      as [[q v] m] eqn:R.
    cbn [fst snd] in V, M. subst v m. f_equal. f_equal.
    change q with (fst (fst (q, false, ""))). rewrite <- R. reflexivity.
Defined.

(** The zip that reaches line 225 holds no letter, whatever the input: the
    early [return] for a non-US postal code is never taken, and a zip with
    letters is reported with the reasons of the format check. *)
Theorem postal_code_return_dead (p : parts) :
  str_any isalpha (repaired_zip p) = false /\
  snd (validate_reasons p) <> ExitPostalCode.
Proof.
  split.
  - destruct (truthy (zip_code p)) eqn:T.
    + apply (str_any_none _ _ _ keep_not_alpha).
      apply (fix_zip_keep (state p) (zip_code p) _ (zip_reasons p) T).
      apply fix_zip_eq.
    + unfold repaired_zip. rewrite (fix_zip_empty _ _ T). cbn [fst].
      destruct (zip_code p); [reflexivity | discriminate].
  - destruct (str_in (state p) CANADIAN) eqn:E.
    + rewrite (validate_reasons_canadian _ E). discriminate.
    + rewrite (validate_reasons_checked_errors _ E). discriminate.
Qed.

(** Validation is idempotent on the components of every record, accepted or
    not: validating the returned components again returns them unchanged.
    The repaired zip is a fixed point of the repair, and when it is not empty
    the repair records the same reasons for it. *)
Theorem normalization_idempotent (p : parts) (o : string) :
  fst (fst (validate_and_fix_address
              (fst (fst (validate_and_fix_address p o))) o)) =
    fst (fst (validate_and_fix_address p o)) /\
  fst (fix_zip (state p) (repaired_zip p)) = repaired_zip p /\
  (truthy (repaired_zip p) = true ->
   snd (fix_zip (state p) (repaired_zip p)) = zip_reasons p).
Proof.
  destruct (fix_zip_again (state p) (zip_code p)) as [I1 I2].
  split; [|split; [exact I1|]].
  - unfold validate_and_fix_address.
    destruct (str_in (state p) CANADIAN) eqn:E.
    + rewrite (validate_reasons_canadian _ E). cbn [fst].
      rewrite (validate_reasons_canadian _ E). reflexivity.
    + rewrite (validate_reasons_checked_errors _ E). cbn [fst].
      rewrite validate_reasons_checked_errors by exact E. cbn [fst].
      unfold repaired_zip. cbn [state zip_code street city].
      rewrite I1. reflexivity.
  - intros T. unfold zip_reasons. unfold repaired_zip in *.
    rewrite (I2 T). reflexivity.
Qed.

Lemma normalization_idempotent_witness :
  fix_zip "TX" "5678" =
    ("5678", ["Invalid 4-digit zip: 5678"; "Invalid zip format: 5678"]) /\
  snd (fix_zip "TX" "5678") =
    ["Invalid 4-digit zip: 5678"; "Invalid zip format: 5678"].
Proof.
  split; [reflexivity|].
  apply (proj2 (proj2 (normalization_idempotent
                         (Parts "1 MAIN ST" "DALLAS" "TX" "56 78" None) ""))).
  reflexivity.
Defined.

End ValidatorExtra.

(** ** The conversion loop *)

Module ConvertProps.
Import JsonToCsv Decompose DecomposeProps ValidatorExtra Convert.

(** [parse_address] returns a dict without a county and raises nothing. *)
Lemma parse_address_ok
  (tag : string -> res (list (string * string))) (avail : bool) (v : value) :
  exists p, parse_address tag avail v = Ok p /\ county p = None.
Proof.
  assert (R : exists p, parse_address_regex v = Ok p /\ county p = None).
  { destruct (parse_address_regex_ok v) as [p [P [C _]]]. eauto. }
  unfold parse_address. destruct avail; [|exact R].
  unfold parse_address_with_usaddress.
  destruct v as [| b | n | s |]; try (exists empty_parts; split; reflexivity).
  destruct s as [|a s]; [exists empty_parts; split; reflexivity|].
  cbn [truthy negb].
  destruct (tag (clean_address (String a s))) as [parsed|e].
  - cbn [bind].
    destruct (street_parts_ok parsed STREET_COMPONENTS) as [sp ->].
    cbn [bind].
    destruct (truthy (dict_get_default parsed "StateName" "FL") &&
              (2 <? String.length (dict_get_default parsed "StateName" "FL"))%nat)%bool;
      cbn [try_except]; eexists; split; reflexivity.
  - cbn [bind try_except]. exact R.
Qed.

(** What the body of the loop does for a record: it appends a row, or an
    entry of the skipped list, and raises nothing. *)
Lemma convert_record_appends
  (tag : string -> res (list (string * string))) (avail : bool)
  (record : tax_record) (rows : list csv_row) (skipped : list skipped_row) :
  (exists row,
     convert_record tag avail record rows skipped =
       Ok (list_append rows row, skipped) /\
     row_of_record row record /\ row_ok row) \/
  (exists entry,
     convert_record tag avail record rows skipped =
       Ok (rows, list_append skipped entry) /\
     skipped_original entry = location_address record).
Proof.
  unfold convert_record.
  destruct (parse_address_ok tag avail (location_address record)) as [q [-> Cq]].
  cbn [bind].
  destruct (validate_and_fix_address (with_county q (record_county record))
              (address_text (location_address record)))
    as [[n v] msg] eqn:V.
  destruct v; cbn [negb].
  - left. destruct (valid_facts _ _ _ _ V) as [_ [_ [Z [Ts [Nc A]]]]].
    assert (G : get_county (with_county q (record_county record)) =
                truthy_opt (record_county record)) by reflexivity.
    rewrite G in A. cbn [address_line_1 row_county].
    assert (T : (truthy (street n) || truthy_opt (record_county record))%bool = true).
    { destruct A as [[A _] | [_ A]]; rewrite A; auto using orb_true_r. }
    rewrite T. eexists. split; [reflexivity|].
    split; [split; reflexivity|]. repeat split; auto.
  - right. eexists. split; reflexivity.
Qed.

Lemma convert_loop_appends
  (tag : string -> res (list (string * string))) (avail : bool)
  (data : list tax_record) :
  forall rows skipped,
  exists rows' skipped',
    convert_loop tag avail data rows skipped =
      Ok ((rows ++ rows')%list, (skipped ++ skipped')%list) /\
    List.length rows' + List.length skipped' = List.length data /\
    Forall row_ok rows' /\
    Forall (fun row => exists record, In record data /\ row_of_record row record)
      rows' /\
    Permutation
      (map row_original_address rows' ++ map skipped_original skipped')
      (map location_address data).
Proof.
  induction data as [|record data IH]; intros rows skipped; cbn [convert_loop].
  - exists [], []. rewrite !app_nil_r. repeat split; constructor.
  - destruct (convert_record_appends tag avail record rows skipped)
      as [[row [-> [O K]]] | [entry [-> O]]]; cbn [bind fst snd].
    + destruct (IH (list_append rows row) skipped) as [r' [s' [-> [L [F [G P]]]]]].
      exists (row :: r'), s'. unfold list_append. rewrite <- app_assoc.
      split; [reflexivity|]. cbn [List.length map app]. split; [lia|].
      split; [constructor; assumption|]. split.
      * constructor; [exists record; split; [left; reflexivity | exact O]|].
        eapply Forall_impl; [|exact G].
        intros x [rec [I R]]. exists rec. split; [right; exact I | exact R].
      * destruct O as [O _]. rewrite O. constructor. exact P.
    + destruct (IH rows (list_append skipped entry)) as [r' [s' [-> [L [F [G P]]]]]].
      exists r', (entry :: s'). unfold list_append. rewrite <- app_assoc.
      split; [reflexivity|]. cbn [List.length map app]. split; [lia|].
      split; [assumption|]. split.
      * eapply Forall_impl; [|exact G].
        intros x [rec [I R]]. exists rec. split; [right; exact I | exact R].
      * rewrite <- O.
        apply Permutation_sym, Permutation_cons_app, Permutation_sym. exact P.
Qed.

(** Every record of the input gives exactly one entry of the output: a row
    or an entry of the skipped list.  No record raises, none is dropped by
    the test of line 320, and the original addresses of the rows and of the
    skipped entries are together those of the records. *)
Theorem every_record_written
  (usaddress_tag : string -> res (list (string * string)))
  (USADDRESS_AVAILABLE : bool) (data : list tax_record) :
  exists rows skipped,
    convert_records usaddress_tag USADDRESS_AVAILABLE data = Ok (rows, skipped) /\
    List.length rows + List.length skipped = List.length data /\
    Permutation
      (map row_original_address rows ++ map skipped_original skipped)
      (map location_address data).
Proof.
  destruct (convert_loop_appends usaddress_tag USADDRESS_AVAILABLE data [] [])
    as [rows [skipped [E [L [_ [_ P]]]]]].
  exists rows, skipped. auto.
Qed.

(** Every row that is written comes from a record of the input, with its
    county and its original address, and has a state that is not empty and not
    a Canadian province, a zip of five digits, of five digits and a hyphen,
    or of five digits, a hyphen and four digits, and either a street and a
    city or, without a street, a county. *)
Theorem written_rows
  (usaddress_tag : string -> res (list (string * string)))
  (USADDRESS_AVAILABLE : bool) (data : list tax_record)
  (rows : list csv_row) (skipped : list skipped_row) :
  convert_records usaddress_tag USADDRESS_AVAILABLE data = Ok (rows, skipped) ->
  Forall row_ok rows /\
  Forall (fun row => exists record, In record data /\ row_of_record row record)
    rows.
Proof.
  destruct (convert_loop_appends usaddress_tag USADDRESS_AVAILABLE data [] [])
    as [rows' [skipped' [E [_ [F [G _]]]]]].
  unfold convert_records. rewrite E. intros [= <- <-]. auto.
Qed.

Lemma written_rows_witness :
  Forall row_ok
    [CsvRow "1423 ALLENDALE RD" "WEST PALM BEACH" "FL" "33405"
       (Some "PALM BEACH") (VStr "A B") "" (VInt 1) (VInt 1)
       (VStr "1423 ALLENDALE RD/ WEST PALM BEACH FL 33405")].
Proof.
  apply (written_rows (fun _ => Raise TaggerError) false
           [TaxRecord (VStr "1423 ALLENDALE RD/ WEST PALM BEACH FL 33405")
              (Some "PALM BEACH") (VStr "A B") None (VInt 1) (VInt 1);
            TaxRecord (VStr "72ND ST SEMINOLE") None (VStr "C D") None
              (VInt 2) (VInt 1)]
           _
           [SkippedRow (VStr "72ND ST SEMINOLE")
              "Missing city; Missing zip code"
              (VStr "C D") None (VInt 2) (VInt 1)]).
  vm_compute. reflexivity.
Defined.

End ConvertProps.

(** ** The zip of a GEO_ID *)

Module CensusProps.
Import Census ZipProps ReProps ZipExtra.

Lemma str_drop_append (pre z : string) :
  str_drop (String.length pre) (pre ++ z) = z.
Proof. induction pre; simpl; [destruct z|]; auto. Qed.

(** The last [n] characters of a string that has them. *)
Lemma str_last_append (pre z : string) :
  str_last (String.length z) (pre ++ z) = z.
Proof.
  unfold str_last. rewrite str_length_append, Nat.add_sub.
  apply str_drop_append.
Qed.

Lemma str_last_split (n : nat) (s : string) :
  n <= String.length s ->
  s = str_take (String.length s - n) s ++ str_last n s /\
  String.length (str_last n s) = n.
Proof.
  intros H. unfold str_last. rewrite str_take_drop, str_drop_length.
  split; [reflexivity | lia].
Qed.

Lemma str_isdigit_all (s : string) : str_isdigit s = true -> str_all isdigit s = true.
Proof. unfold str_isdigit. intros H. apply andb_true_iff in H. tauto. Qed.

(** [extract_zip_from_geo_id] returns a zip exactly when the GEO_ID starts
    with [860Z], has fourteen characters or more and ends in five digits, and
    the zip is these five digits; for a missing value and for every other
    GEO_ID it returns [None].  The GEO_ID of a zip code tabulation area,
    [860Z200US] followed by the five digits of the zip, gives the zip back. *)
Theorem zip_of_geo_id (geo_id : option string) (z : string) :
  (extract_zip_from_geo_id geo_id = Some z <->
   exists g pre,
     geo_id = Some g /\ g = pre ++ z /\
     str_prefix "860Z" g = true /\ 14 <= String.length g /\
     String.length z = 5 /\ str_all isdigit z = true) /\
  (String.length z = 5 -> str_all isdigit z = true ->
   extract_zip_from_geo_id (Some ("860Z200US" ++ z)) = Some z).
Proof.
  assert (Back : forall g pre,
             g = pre ++ z -> str_prefix "860Z" g = true ->
             14 <= String.length g -> String.length z = 5 ->
             str_all isdigit z = true ->
             extract_zip_from_geo_id (Some g) = Some z).
  { intros g pre -> P L Lz D. unfold extract_zip_from_geo_id.
    rewrite P. apply Nat.leb_le in L. rewrite L. cbn [andb].
    assert (E : str_last 5 (pre ++ z) = z)
      by (rewrite <- Lz; apply str_last_append).
    rewrite E, Lz, (str_isdigit_intro _ _ Lz D). reflexivity. }
  split; [split|].
  - destruct geo_id as [g|]; [|discriminate]. unfold extract_zip_from_geo_id.
    destruct (str_prefix "860Z" g) eqn:P; [|discriminate].
    destruct (14 <=? String.length g)%nat eqn:L; [|discriminate].
    apply Nat.leb_le in L. cbn [andb].
    destruct (str_isdigit (str_last 5 g)) eqn:D; [|discriminate].
    destruct (String.length (str_last 5 g) =? 5)%nat eqn:L5; [|discriminate].
    apply Nat.eqb_eq in L5. cbn [andb]. intros [= <-].
    destruct (str_last_split 5 g) as [S _]; [lia|].
    exists g, (str_take (String.length g - 5) g).
    repeat split; auto using str_isdigit_all.
  - intros [g [pre [-> [E [P [L [Lz D]]]]]]]. eapply Back; eauto.
  - intros Lz D. apply (Back _ "860Z200US"); auto.
    rewrite str_length_append, Lz. simpl. lia.
Qed.

Lemma zip_of_geo_id_witness :
  extract_zip_from_geo_id (Some "860Z200US00601") = Some "00601".
Proof.
  apply (proj2 (zip_of_geo_id None "00601")); reflexivity.
Defined.

End CensusProps.

(** ** Deduplication *)

Module DedupProps.
Import Dedup.

Section Amounts.

Context {amount : Type}.
Variable zero : amount.
Variable add : amount -> amount -> amount.
Variable round2 : amount -> amount.
Variable ltb : amount -> amount -> bool.

Lemma opt_eqb_eq (a b : option string) : opt_eqb a b = true <-> a = b.
Proof.
  destruct a as [x|], b as [y|]; simpl; split; try congruence; auto.
  - intros H. apply String.eqb_eq in H. congruence.
  - intros [= ->]. apply String.eqb_refl.
Qed.

Lemma key_eqb_eq (k1 k2 : key) : key_eqb k1 k2 = true <-> k1 = k2.
Proof.
  destruct k1 as [a1 b1], k2 as [a2 b2]. unfold key_eqb. simpl.
  rewrite andb_true_iff, !opt_eqb_eq.
  split; [intros [-> ->] | intros [= -> ->]]; auto.
Qed.

Lemma key_eqb_neq (k1 k2 : key) : key_eqb k1 k2 = false <-> k1 <> k2.
Proof.
  rewrite <- key_eqb_eq. destruct (key_eqb k1 k2); split; congruence.
Qed.

(** The keys after one update of the dict. *)
Lemma update_key_keys (k : key) (e : entry amount) (d : list (key * group amount)) :
  forall k', In k' (map fst (update_key zero add k e d)) <->
             k' = k \/ In k' (map fst d).
Proof.
  induction d as [|[k0 g0] d IH]; intros k'; cbn [update_key map fst].
  - simpl. intuition.
  - destruct (key_eqb k k0) eqn:E.
    + apply key_eqb_eq in E. subst k0. simpl. intuition.
    + simpl. rewrite IH. intuition.
Qed.

Lemma update_key_nodup (k : key) (e : entry amount) (d : list (key * group amount)) :
  NoDup (map fst d) -> NoDup (map fst (update_key zero add k e d)).
Proof.
  induction d as [|[k0 g0] d IH]; intros N; cbn [update_key map fst].
  - repeat constructor. auto.
  - cbn [map fst] in N. apply NoDup_cons_iff in N as [N0 N'].
    destruct (key_eqb k k0) eqn:E.
    + cbn [map fst]. constructor; auto.
    + apply key_eqb_neq in E. cbn [map fst]. constructor; auto.
      rewrite update_key_keys. intros [-> | H]; auto.
Qed.

(** The groups of the other keys are not touched. *)
Lemma update_key_other (k : key) (e : entry amount) (d : list (key * group amount)) :
  forall k' g', k' <> k ->
    (In (k', g') (update_key zero add k e d) <-> In (k', g') d).
Proof.
  induction d as [|[k0 g0] d IH]; intros k' g' Hk; cbn [update_key].
  - simpl. split; [intros [[= <- _] | []]; congruence | tauto].
  - destruct (key_eqb k k0) eqn:E.
    + apply key_eqb_eq in E. subst k0. simpl.
      split; (intros [[= <- _] | H]; [congruence | auto]).
    + simpl. rewrite (IH _ _ Hk). tauto.
Qed.

(** The group of the key is updated, or made from the default. *)
Lemma update_key_same (k : key) (e : entry amount) (d : list (key * group amount)) :
  NoDup (map fst d) ->
  forall g',
    In (k, g') (update_key zero add k e d) <->
    (exists g, In (k, g) d /\ g' = update_group add e g) \/
    (~ In k (map fst d) /\ g' = update_group add e (default_group zero)).
Proof.
  induction d as [|[k0 g0] d IH]; intros N g'; cbn [update_key].
  - simpl. split.
    + intros [[= <-] | []]. right. auto.
    + intros [[g [[] _]] | [_ ->]]. auto.
  - cbn [map fst] in N. apply NoDup_cons_iff in N as [N0 N'].
    destruct (key_eqb k k0) eqn:E.
    + apply key_eqb_eq in E. subst k0. simpl. split.
      * intros [[= <-] | H].
        -- left. exists g0. auto.
        -- exfalso. apply N0. apply (in_map fst) in H. exact H.
      * intros [[g [[[= <-] | H] ->]] | [H _]].
        -- auto.
        -- exfalso. apply N0. apply (in_map fst) in H. exact H.
        -- exfalso. apply H. auto.
    + apply key_eqb_neq in E. simpl. rewrite (IH N'). split.
      * intros [[= <- _] | [[g [H ->]] | [H ->]]].
        -- congruence.
        -- left. exists g. auto.
        -- right. split; [|reflexivity]. intros [X | X]; [congruence | auto].
      * intros [[g [[[= <- _] | H] ->]] | [H ->]].
        -- congruence.
        -- right. left. exists g. auto.
        -- right. right. split; [|reflexivity]. intros X. apply H. auto.
Qed.

Lemma deduplicate_snoc (data : list (entry amount)) (e : entry amount) :
  deduplicate zero add (data ++ [e]) =
    update_key zero add (entry_key e) e (deduplicate zero add data).
Proof. unfold deduplicate. rewrite fold_left_app. reflexivity. Qed.

Lemma entries_with_snoc (k : key) (data : list (entry amount)) (e : entry amount) :
  entries_with k (data ++ [e]) =
    (entries_with k data ++ if key_eqb (entry_key e) k then [e] else [])%list.
Proof.
  unfold entries_with. rewrite filter_app. simpl.
  destruct (key_eqb _ _); reflexivity.
Qed.

Lemma group_of_snoc (es : list (entry amount)) (e : entry amount) :
  group_of zero add (es ++ [e]) = update_group add e (group_of zero add es).
Proof. unfold group_of. rewrite fold_left_app. reflexivity. Qed.

Lemma snoc_not_nil {A : Type} (l : list A) (x : A) : (l ++ [x])%list <> [].
Proof. destruct l; discriminate. Qed.

(** The dict after the loop: one key for each key of the input, and at each
    key the group of the entries that have it. *)
Lemma deduplicate_groups (data : list (entry amount)) :
  NoDup (map fst (deduplicate zero add data)) /\
  (forall k, In k (map fst (deduplicate zero add data)) <->
             entries_with k data <> []) /\
  (forall k g,
     In (k, g) (deduplicate zero add data) <->
     entries_with k data <> [] /\ g = group_of zero add (entries_with k data)).
Proof.
  induction data as [|e data IH] using rev_ind.
  - split; [constructor|]. split.
    + intros k. simpl. tauto.
    + intros k g. simpl. tauto.
  - destruct IH as [N [K G]]. rewrite deduplicate_snoc.
    split; [apply update_key_nodup, N|]. split.
    + intros k. rewrite update_key_keys, K, entries_with_snoc.
      destruct (key_eqb (entry_key e) k) eqn:E.
      * apply key_eqb_eq in E. split; [|auto].
        intros _. apply snoc_not_nil.
      * apply key_eqb_neq in E. rewrite app_nil_r. split; [|auto].
        intros [-> | H]; [congruence | exact H].
    + intros k g. rewrite entries_with_snoc.
      destruct (key_eqb (entry_key e) k) eqn:E.
      * apply key_eqb_eq in E. subst k.
        rewrite (update_key_same _ _ _ N), group_of_snoc. split.
        -- intros [[g0 [H ->]] | [H ->]].
           ++ apply G in H as [H ->]. split; [apply snoc_not_nil | reflexivity].
           ++ rewrite K in H.
              destruct (entries_with (entry_key e) data);
                [|exfalso; apply H; discriminate].
              split; [discriminate | reflexivity].
        -- intros [_ ->].
           destruct (entries_with (entry_key e) data) as [|x xs] eqn:X.
           ++ right. split; [|reflexivity]. rewrite K, X. auto.
           ++ left. exists (group_of zero add (x :: xs)).
              split; [|reflexivity].
              apply G. rewrite X. split; [discriminate | reflexivity].
      * apply key_eqb_neq in E. rewrite app_nil_r.
        rewrite update_key_other by congruence. apply G.
Qed.

(** The warrant numbers and the total of a group. *)
Lemma group_of_fields (es : list (entry amount)) :
  warrant_numbers (group_of zero add es) = map e_warrant_number es /\
  total_amount (group_of zero add es) = fold_left add (map e_amount es) zero.
Proof.
  induction es as [|e es [IH1 IH2]] using rev_ind; [split; reflexivity|].
  rewrite group_of_snoc, !map_app, fold_left_app. cbn [update_group
    warrant_numbers total_amount map fold_left]. unfold list_append.
  rewrite IH1, IH2. split; reflexivity.
Qed.

Lemma entries_with_key (k : key) (data : list (entry amount)) (e : entry amount) :
  In e (entries_with k data) -> entry_key e = k.
Proof.
  unfold entries_with. rewrite filter_In. intros [_ H].
  apply key_eqb_eq, H.
Qed.

(** A non-empty list of entries ends in a last entry. *)
Lemma last_entry (es : list (entry amount)) :
  es <> [] -> exists pre e, es = (pre ++ [e])%list.
Proof.
  intros H. destruct (exists_last H) as [pre [e ->]]. eauto.
Qed.

(** The row of a group carries the key of the group. *)
Lemma output_key (data : list (entry amount)) (k : key) (g : group amount) :
  In (k, g) (deduplicate zero add data) -> row_key (output_of round2 g) = k.
Proof.
  intros H. apply (deduplicate_groups data) in H as [N ->].
  destruct (last_entry _ N) as [pre [e E]]. rewrite E, group_of_snoc.
  unfold row_key. cbn. apply (entries_with_key k data).
  rewrite E. apply in_or_app. right. left. reflexivity.
Qed.

Lemma insert_desc_perm (x : output_row amount) (l : list (output_row amount)) :
  Permutation (insert_desc ltb x l) (x :: l).
Proof.
  induction l as [|y l IH]; cbn [insert_desc]; [reflexivity|].
  destruct (ltb _ _); [|reflexivity].
  rewrite IH. apply perm_swap.
Qed.

Lemma sort_desc_perm (l : list (output_row amount)) :
  Permutation (sort_desc ltb l) l.
Proof.
  induction l as [|x l IH]; cbn [sort_desc fold_right]; [reflexivity|].
  rewrite insert_desc_perm. constructor. exact IH.
Qed.

Lemma in_output (data : list (entry amount)) (row : output_row amount) :
  In row (deduplicate_taxes zero add round2 ltb data) <->
  exists k g, In (k, g) (deduplicate zero add data) /\ row = output_of round2 g.
Proof.
  unfold deduplicate_taxes. split.
  - intros H. apply (Permutation_in _ (sort_desc_perm _)) in H.
    apply in_map_iff in H as [[k g] [E I]]. exists k, g. auto.
  - intros [k [g [I ->]]].
    apply (Permutation_in _ (Permutation_sym (sort_desc_perm _))).
    apply in_map_iff. exists (k, g). auto.
Qed.

(** Each row of the output is the group of the entries that have its owner
    name and location address: it lists their warrant numbers in the order
    of the input, counts them, carries the rounded sum of their amounts, added
    from left to right, and the business name and the county of the last of
    them. *)
Theorem rows_are_groups (data : list (entry amount)) (row : output_row amount) :
  In row (deduplicate_taxes zero add round2 ltb data) ->
  let es := entries_with (row_key row) data in
  o_warrant_numbers row = map e_warrant_number es /\
  o_number_of_warrants row = List.length es /\
  o_total_warrant_amount row = round2 (fold_left add (map e_amount es) zero) /\
  exists pre e,
    es = (pre ++ [e])%list /\
    o_business_name row = e_business_name e /\ o_county row = e_county e.
Proof.
  intros H. apply in_output in H as [k [g [I ->]]].
  rewrite (output_key data k g I). cbv zeta.
  apply (deduplicate_groups data) in I as [N ->].
  destruct (group_of_fields (entries_with k data)) as [W T].
  cbn [output_of o_warrant_numbers o_number_of_warrants
       o_total_warrant_amount o_business_name o_county].
  rewrite W, T, length_map. repeat split.
  destruct (last_entry _ N) as [pre [e E]]. exists pre, e.
  rewrite E, group_of_snoc. auto.
Qed.

(** The output has exactly one row for each pair of owner name and location
    address of the input: the keys of its rows are pairwise different, each
    entry has the row of its key, and there are no more rows than entries. *)
Theorem one_row_per_key (data : list (entry amount)) :
  NoDup (map row_key (deduplicate_taxes zero add round2 ltb data)) /\
  (forall k,
     In k (map row_key (deduplicate_taxes zero add round2 ltb data)) <->
     In k (map entry_key data)) /\
  List.length (deduplicate_taxes zero add round2 ltb data) <= List.length data.
Proof.
  destruct (deduplicate_groups data) as [N [K G]].
  assert (M : map row_key (map (fun kg => output_of round2 (snd kg))
                             (deduplicate zero add data)) =
              map fst (deduplicate zero add data)).
  { rewrite map_map. apply map_ext_in. intros [k g] I. cbn [fst snd].
    apply (output_key data k g I). }
  assert (P : Permutation
                (map row_key (deduplicate_taxes zero add round2 ltb data))
                (map fst (deduplicate zero add data))).
  { rewrite <- M. apply Permutation_map, sort_desc_perm. }
  assert (I : forall k, In k (map fst (deduplicate zero add data)) <->
                        In k (map entry_key data)).
  { intros k. rewrite K. unfold entries_with. split.
    - intros H. destruct (filter _ data) as [|e es] eqn:F; [congruence|].
      assert (X : In e (filter (fun e => key_eqb (entry_key e) k) data))
        by (rewrite F; left; reflexivity).
      apply filter_In in X as [X1 X2]. apply key_eqb_eq in X2. subst k.
      apply in_map. exact X1.
    - intros H. apply in_map_iff in H as [e [<- H]].
      intros F.
      assert (X : In e (filter (fun e0 => key_eqb (entry_key e0) (entry_key e)) data)).
      { apply filter_In. split; [exact H | apply key_eqb_eq; reflexivity]. }
      rewrite F in X. contradiction. }
  split; [|split].
  - apply (Permutation_NoDup (Permutation_sym P) N).
  - intros k. rewrite <- I. split; apply Permutation_in;
      [exact P | apply Permutation_sym, P].
  - rewrite <- (length_map row_key), (Permutation_length P).
    rewrite <- (length_map entry_key data).
    apply NoDup_incl_length; [exact N|]. intros k. apply I.
Qed.

(** One update adds the warrant number of the entry to one group. *)
Lemma update_key_warrants (k : key) (e : entry amount) (d : list (key * group amount)) :
  Permutation
    (concat (map (fun kg => warrant_numbers (snd kg)) (update_key zero add k e d)))
    (e_warrant_number e :: concat (map (fun kg => warrant_numbers (snd kg)) d)).
Proof.
  induction d as [|[k0 g0] d IH]; cbn [update_key].
  - reflexivity.
  - destruct (key_eqb k k0); cbn [map concat snd update_group warrant_numbers].
    + unfold list_append. rewrite <- app_assoc.
      apply Permutation_sym, Permutation_cons_app. reflexivity.
    + rewrite IH. apply Permutation_sym, Permutation_cons_app. reflexivity.
Qed.

(** No warrant is lost and none is counted twice: the warrant numbers of the
    rows are together those of the entries, and the numbers of warrants of
    the rows add up to the number of entries. *)
Theorem warrants_conserved (data : list (entry amount)) :
  Permutation
    (concat (map o_warrant_numbers (deduplicate_taxes zero add round2 ltb data)))
    (map e_warrant_number data) /\
  list_sum (map o_number_of_warrants (deduplicate_taxes zero add round2 ltb data)) =
    List.length data.
Proof.
  assert (D : Permutation
                (concat (map (fun kg => warrant_numbers (snd kg))
                           (deduplicate zero add data)))
                (map e_warrant_number data)).
  { induction data as [|e data IH] using rev_ind; [reflexivity|].
    rewrite deduplicate_snoc, update_key_warrants, IH, map_app.
    apply Permutation_cons_append. }
  assert (S : forall l : list (output_row amount),
             (forall r, In r l ->
                        o_number_of_warrants r = List.length (o_warrant_numbers r)) ->
             list_sum (map o_number_of_warrants l) =
               List.length (concat (map o_warrant_numbers l))).
  { induction l as [|r l IH]; intros H; [reflexivity|].
    cbn [map concat].
    change (list_sum (o_number_of_warrants r :: map o_number_of_warrants l))
      with (o_number_of_warrants r + list_sum (map o_number_of_warrants l)).
    rewrite length_app, (H r) by (left; reflexivity).
    rewrite IH; [reflexivity|]. intros r' I. apply H. right. exact I. }
  assert (P : Permutation
                (concat (map o_warrant_numbers
                           (deduplicate_taxes zero add round2 ltb data)))
                (map e_warrant_number data)).
  { rewrite <- D. unfold deduplicate_taxes.
    rewrite (Permutation_map o_warrant_numbers (sort_desc_perm _)).
    rewrite map_map. reflexivity. }
  split; [exact P|].
  rewrite S.
  - rewrite (Permutation_length P). apply length_map.
  - intros r I. apply in_output in I as [k [g [_ ->]]]. reflexivity.
Qed.

(** Inserting keeps a descending list descending. *)
Lemma insert_desc_sorted (x : output_row amount) (l : list (output_row amount)) :
  (forall a b, ltb a b = true -> ltb b a = false) ->
  (forall a b c, ltb a b = false -> ltb b c = false -> ltb a c = false) ->
  StronglySorted
    (fun r1 r2 =>
       ltb (o_total_warrant_amount r1) (o_total_warrant_amount r2) = false) l ->
  StronglySorted
    (fun r1 r2 =>
       ltb (o_total_warrant_amount r1) (o_total_warrant_amount r2) = false)
    (insert_desc ltb x l).
Proof.
  intros Asym Trans. induction l as [|y l IH]; intros S; cbn [insert_desc].
  - repeat constructor.
  - apply StronglySorted_inv in S as [S F].
    destruct (ltb (o_total_warrant_amount x) (o_total_warrant_amount y)) eqn:E.
    + constructor; [apply IH, S|].
      apply (Permutation_Forall (Permutation_sym (insert_desc_perm x l))).
      constructor; [apply Asym, E | exact F].
    + constructor; [constructor; assumption|].
      constructor; [exact E|].
      eapply Forall_impl; [|exact F]. intros z Hz. eapply Trans; eauto.
Qed.

(** When [<] orders the amounts (no amount is smaller than one that is
    smaller than it, and not being smaller is transitive), the rows of the
    output are in descending order of their total amounts: no row comes after
    a row with a smaller total. *)
Theorem output_descending (data : list (entry amount)) :
  (forall a b, ltb a b = true -> ltb b a = false) ->
  (forall a b c, ltb a b = false -> ltb b c = false -> ltb a c = false) ->
  StronglySorted
    (fun r1 r2 =>
       ltb (o_total_warrant_amount r1) (o_total_warrant_amount r2) = false)
    (deduplicate_taxes zero add round2 ltb data).
Proof.
  intros Asym Trans. unfold deduplicate_taxes.
  induction (map (fun kg => output_of round2 (snd kg)) (deduplicate zero add data))
    as [|x l IH]; cbn [sort_desc fold_right].
  - constructor.
  - apply insert_desc_sorted; assumption.
Qed.

End Amounts.

(** The script on three entries, two of them of the same owner and address. *)
Lemma rows_are_groups_witness :
  o_number_of_warrants
    (OutputRow (VStr "B2") (Some "ANN") (Some "1 MAIN ST") (VStr "DADE")
       [VInt 11; VInt 13] 40 2) = 2.
Proof.
  apply (rows_are_groups 0 Nat.add (fun x => x) Nat.ltb
           [Entry (VStr "B1") (Some "ANN") (Some "1 MAIN ST") (VStr "LEON") (VInt 11) 10;
            Entry VNone (Some "BOB") (Some "2 OAK AVE") (VStr "DADE") (VInt 12) 90;
            Entry (VStr "B2") (Some "ANN") (Some "1 MAIN ST") (VStr "DADE") (VInt 13) 30]).
  vm_compute. right. left. reflexivity.
Defined.

Lemma output_descending_witness :
  StronglySorted
    (fun r1 r2 =>
       Nat.ltb (o_total_warrant_amount r1) (o_total_warrant_amount r2) = false)
    (deduplicate_taxes 0 Nat.add (fun x => x) Nat.ltb
       [Entry (VStr "B1") (Some "ANN") (Some "1 MAIN ST") (VStr "LEON") (VInt 11) 10;
        Entry VNone (Some "BOB") (Some "2 OAK AVE") (VStr "DADE") (VInt 12) 90;
        Entry (VStr "B2") (Some "ANN") (Some "1 MAIN ST") (VStr "DADE") (VInt 13) 30]).
Proof.
  apply output_descending.
  - intros a b H. apply Nat.ltb_lt in H. apply Nat.ltb_ge. lia.
  - intros a b c H1 H2. apply Nat.ltb_ge in H1, H2. apply Nat.ltb_ge. lia.
Defined.

End DedupProps.

(** ** The house number taken as the zip *)

Module HouseNumber.
Import Re ReProps JsonToCsv Decompose ZipProps ValidatorExtra Convert.

(** A bounded greedy repetition takes all the characters it may when the
    continuation accepts that. *)
Lemma rep_exact {A : Type} (p : ascii -> bool) (lo h : nat) (t u : string) :
  forall (n : nat) (pv : option ascii) (i : nat) (k : cursor -> option A) (x : A),
    str_all p t = true -> n + String.length t = h -> lo <= h ->
    k (Cursor (prev_after pv t) (i + String.length t) u) = Some x ->
    rep p lo (Some h) n pv i (t ++ u) k = Some x.
Proof.
  induction t as [|a t IH]; intros n pv i k x P N L K.
  - cbn [String.length prev_after append] in *.
    rewrite Nat.add_0_r in *. subst h.
    assert (B : below n (Some n) = false) by apply Nat.ltb_irrefl.
    apply Nat.leb_le in L.
    destruct u as [|b u]; cbn [rep]; rewrite ?B, ?andb_false_r, L; exact K.
  - cbn [String.length prev_after append str_all] in *.
    apply andb_true_iff in P as [Pa P].
    assert (B : below n (Some h) = true) by (apply Nat.ltb_lt; lia).
    cbn [rep]. rewrite Pa, B. cbn [andb].
    rewrite (IH (S n) (Some a) (S i) k x); auto; try lia.
    rewrite <- K. f_equal. f_equal. lia.
Qed.

Lemma digit_is_w (c : ascii) : isdigit c = true -> is_w c = true.
Proof. unfold is_w. intros ->. apply orb_true_iff. left. apply orb_true_r. Qed.

Lemma five_chars (d : string) :
  String.length d = 5 ->
  exists a b c e f, d = String a (String b (String c (String e (String f "")))).
Proof.
  destruct d as [|a [|b [|c [|e [|f [|g d]]]]]]; simpl; try discriminate.
  intros _. eauto 6.
Qed.

(** The zip pattern of [parse_address_regex] matches five digits followed by
    a space at the start of the address. *)
Lemma search_zip_at_start (d tl : string) :
  String.length d = 5 -> str_all isdigit d = true ->
  search ZIP (d ++ " " ++ tl) = Some (Mtch 0 5 (Some (0, 5))).
Proof.
  intros L D. unfold search.
  assert (M : match_at ZIP (Cursor None 0 (d ++ " " ++ tl)) =
              Some (Mtch 0 5 (Some (0, 5)))).
  { unfold match_at, ZIP. cbn [run pos prev Re.rest].
    destruct (five_chars d L) as [a [b [c [e [f E]]]]].
    assert (Ha : isdigit a = true /\ isdigit f = true).
    { subst d. simpl in D. repeat (apply andb_true_iff in D as [? D]). auto. }
    destruct Ha as [Ha Hf].
    assert (B0 : at_boundary (Cursor None 0 (d ++ " " ++ tl)) = true).
    { subst d. unfold at_boundary. cbn. rewrite (digit_is_w a Ha). reflexivity. }
    rewrite B0.
    apply (rep_exact is_d 5 5 d (" " ++ tl) 0 None 0); auto.
    rewrite L. cbn [Nat.add append Re.rest]. rewrite Ascii.eqb_sym.
    change (Ascii.eqb " " "-") with false. cbv iota.
    assert (B5 : at_boundary (Cursor (prev_after None d) 5 (String " " tl)) = true).
    { subst d. unfold at_boundary. cbn. rewrite (digit_is_w f Hf). reflexivity. }
    rewrite B5. reflexivity. }
  destruct (d ++ " " ++ tl); cbn [search_from]; rewrite M; reflexivity.
Qed.

(** An address that, once cleaned, starts with five digits and a space is
    parsed by [parse_address_regex] into this number as the zip, the state
    FL and nothing else; with a county, validation accepts that. *)
Lemma house_number_parsed (s d tl : string) :
  truthy s = true -> clean_address s = d ++ " " ++ tl ->
  String.length d = 5 -> str_all isdigit d = true ->
  parse_address_regex (VStr s) = Ok (Parts "" "" "FL" d None).
Proof.
  intros T C L D. unfold parse_address_regex. rewrite T. cbn [negb].
  assert (Z : extract_zip (clean_address s) = Ok (d, "")).
  { unfold extract_zip. rewrite C, (search_zip_at_start d tl L D).
    cbn [is_some group1 m_group1 start m_start bind str_drop Nat.sub].
    rewrite <- L at 1. rewrite str_take_length_append. reflexivity. }
  rewrite Z. reflexivity.
Qed.

Lemma house_number_valid (d c o : string) :
  String.length d = 5 -> str_all isdigit d = true -> truthy c = true ->
  validate_and_fix_address (Parts "" "" "FL" d (Some c)) o =
    (Parts "" "" "FL" d None, true, "").
Proof.
  intros L D T.
  assert (F : fix_zip "FL" d = (d, [])).
  { apply fix_zip_five_digits; [exact L|].
    unfold str_isdigit. rewrite (length_truthy _ _ L), D. reflexivity. }
  unfold validate_and_fix_address, validate_reasons.
  cbn [street city state zip_code]. rewrite F.
  rewrite (fix_zip_no_alpha _ _ _ _ F).
  unfold get_county. cbn [county str_in CANADIAN existsb String.eqb Ascii.eqb
                           Bool.eqb orb truthy negb andb].
  rewrite T, (length_truthy _ _ L). reflexivity.
Qed.

(** An address that starts with a five-digit house number: when the tagger
    is not available and the cleaned address starts with five digits and a
    space, the loop writes, for a record with a county, a row whose zip is the
    house number, whose state is FL and whose street and city are empty;
    whatever followed the house number is lost, and the record is not
    skipped. *)
Theorem house_number_row
  (usaddress_tag : string -> res (list (string * string)))
  (record : tax_record) (s d tl c : string)
  (rows : list csv_row) (skipped : list skipped_row) :
  location_address record = VStr s -> record_county record = Some c ->
  truthy s = true -> truthy c = true ->
  clean_address s = d ++ " " ++ tl ->
  String.length d = 5 -> str_all isdigit d = true ->
  parse_address_regex (VStr s) = Ok (Parts "" "" "FL" d None) /\
  convert_record usaddress_tag false record rows skipped =
    Ok (list_append rows
          (CsvRow "" "" "FL" d (Some c) (owner_name record)
             (or_empty (business_name record)) (total_warrant_amount record)
             (number_of_warrants record) (VStr s)),
        skipped).
Proof.
  intros A Cy T Tc C L D.
  pose proof (house_number_parsed s d tl T C L D) as P.
  split; [exact P|].
  unfold convert_record, parse_address. rewrite A, Cy, P. cbn [bind].
  unfold with_county. cbn [street city state zip_code address_text].
  rewrite (house_number_valid d c s L D Tc).
  cbn [negb street city state zip_code address_line_1 row_county truthy
       truthy_opt orb]. rewrite Tc. reflexivity.
Qed.

Lemma house_number_row_witness :
  convert_record (fun _ => Raise TaggerError) false
    (TaxRecord (VStr "10491 72ND ST SEMINOLE FL  33777-1500") (Some "PINELLAS")
       (VStr "A B") None (VInt 1) (VInt 1)) [] [] =
    Ok ([CsvRow "" "" "FL" "10491" (Some "PINELLAS") (VStr "A B") ""
           (VInt 1) (VInt 1) (VStr "10491 72ND ST SEMINOLE FL  33777-1500")],
        []).
Proof.
  apply (house_number_row (fun _ => Raise TaggerError)
           (TaxRecord (VStr "10491 72ND ST SEMINOLE FL  33777-1500")
              (Some "PINELLAS") (VStr "A B") None (VInt 1) (VInt 1))
           "10491 72ND ST SEMINOLE FL  33777-1500" "10491"
           "72ND ST SEMINOLE FL 33777-1500" "PINELLAS" [] []);
    reflexivity.
Defined.

End HouseNumber.

(** ** The fields that the decomposers return *)

Module FieldProps.
Import Re ReProps JsonToCsv Decompose DecomposeProps.

(** A pattern without the group leaves the span of the group as it is. *)
Lemma run_keeps_group {A : Type} (r : re) :
  has_group r = false ->
  forall (c : cursor) (g : option (nat * nat))
         (k : cursor -> option (nat * nat) -> option A) (x : A),
    run r c g k = Some x -> exists c', k c' g = Some x.
Proof.
  induction r as [a | p lo hi | r1 IHr1 r2 IHr2 | r IHr | r IHr | | | ];
    intros G c g k x; cbn [run has_group] in *.
  - destruct (Re.rest c) as [|b s']; [discriminate|].
    destruct (Ascii.eqb a b); [eauto | discriminate].
  - intros H. apply rep_some in H as [c' H]. eauto.
  - apply orb_false_iff in G as [G1 G2].
    intros H. apply (IHr1 G1) in H as [c1 H]. apply (IHr2 G2) in H. exact H.
  - destruct (run r c g k) eqn:R.
    + intros [= <-]. apply (IHr G) in R. exact R.
    + eauto.
  - discriminate.
  - destruct (at_boundary c); [eauto | discriminate].
  - destruct (at_end c); [eauto | discriminate].
  - eauto.
Qed.

(** What group 1 holds after a search for [\b(G)Y], when [Y] has no group:
    a string that [G] matches. *)
Lemma grouped_search (G Y : re) (s : string) (m : mtch) :
  has_group Y = false ->
  search (Seq WordB (Seq (Grp G) Y)) s = Some m ->
  exists t, group1 (Some m) s = Ok t /\ matches G t.
Proof.
  intros HY H. unfold search in H.
  apply search_from_sound in H as [j [pv H]]. simpl in H.
  unfold match_at in H. cbn [run pos] in H.
  destruct (at_boundary _); [|discriminate].
  apply run_sound in H as [c1 [g1 [t1 [H [R1 [P1 M1]]]]]].
  apply (run_keeps_group Y HY) in H as [c2 H].
  injection H as <-. cbn [pos Re.rest] in *.
  exists t1. split; [|exact M1].
  unfold group1. cbn [m_group1]. rewrite P1, R1, Nat.add_comm, Nat.add_sub.
  rewrite str_take_length_append. reflexivity.
Qed.

(** The strings that the zip part of the patterns matches are zip tokens,
    and those that the state part matches are two capitals. *)
Lemma zip_part_token (t : string) :
  matches (Seq (Rep is_d 5 (Some 5)) (Opt (Seq (Chr "-") (Rep is_d 4 (Some 4))))) t ->
  zip_token t.
Proof.
  cbn [matches]. intros [ta [tb [-> [[Da [La1 La2]] Hb]]]].
  change (str_all isdigit ta = true) in Da.
  destruct Hb as [-> | [tc [td [-> [-> [Dd [Ld1 Ld2]]]]]]].
  - left. rewrite str_append_nil_r. split; [lia | exact Da].
  - right. exists ta, td. repeat split; auto; lia.
Qed.

Lemma state_part_capitals (t : string) :
  matches (Rep is_AZ 2 (Some 2)) t -> two_capitals t.
Proof. cbn [matches]. intros [D [L1 L2]]. split; [lia | exact D]. Qed.

Lemma FL_two_capitals : two_capitals "FL".
Proof. split; reflexivity. Qed.

(** [re.sub] with a set of characters and the empty replacement removes the
    characters of the set. *)
Lemma sub_from_one_of (chars : string) (s : string) :
  forall (pv : option ascii) (i : nat),
    sub_from (one_of chars) "" 0 pv i s =
      str_filter (fun c => negb (has_char c chars)) s.
Proof.
  induction s as [|a s IH]; intros pv i.
  - reflexivity.
  - cbn [sub_from str_filter]. unfold match_at, one_of. cbn [run prev pos Re.rest rep].
    change (below 0 (Some 1)) with true. change (1 <=? 0)%nat with false.
    destruct (has_char a chars) eqn:E; cbn [andb negb]; cbv iota.
    + assert (R : forall (k : cursor -> option mtch),
                 rep (fun c => has_char c chars) 1 (Some 1) 1 (Some a) (S i) s k =
                   k (Cursor (Some a) (S i) s)).
      { intros k. destruct s as [|b s']; cbn [rep below]; rewrite ?Nat.ltb_irrefl,
          ?andb_false_r; reflexivity. }
      rewrite R. cbn [m_end pos].
      assert (L : (i <? S i)%nat = true) by (apply Nat.ltb_lt; lia).
      rewrite L.
      replace (S i - i - 1) with 0 by lia. cbn [append]. apply IH.
    + rewrite IH. reflexivity.
Qed.

Lemma sub_one_of (chars s : string) :
  sub (one_of chars) "" s = str_filter (fun c => negb (has_char c chars)) s.
Proof. apply sub_from_one_of. Qed.

(** Stripping keeps what holds of every character, and a stripped string is
    not changed by stripping it again. *)
Lemma str_all_lstrip (q p : ascii -> bool) (s : string) :
  str_all q s = true -> str_all q (str_lstrip_by p s) = true.
Proof.
  induction s as [|c s IH]; [auto|]. intros H. cbn [str_lstrip_by].
  destruct (p c); [|exact H].
  apply andb_true_iff in H as [_ Hs]. auto.
Qed.

Lemma str_all_rstrip (q p : ascii -> bool) (s : string) :
  str_all q s = true -> str_all q (str_rstrip_by p s) = true.
Proof.
  induction s as [|c s IH]; [auto|]. intros H. cbn [str_rstrip_by].
  apply andb_true_iff in H as [Hc Hs]. specialize (IH Hs).
  destruct (str_rstrip_by p s) as [|b t].
  - destruct (p c); cbn [str_all]; rewrite ?Hc; reflexivity.
  - change (str_all q (String c (String b t)))
      with (q c && str_all q (String b t))%bool.
    rewrite Hc, IH. reflexivity.
Qed.

Lemma str_all_strip (q : ascii -> bool) (s : string) :
  str_all q s = true -> str_all q (str_strip s) = true.
Proof. intros H. apply str_all_rstrip, str_all_lstrip, H. Qed.

Lemma str_rstrip_idem (p : ascii -> bool) (s : string) :
  str_rstrip_by p (str_rstrip_by p s) = str_rstrip_by p s.
Proof.
  induction s as [|c s IH]; [reflexivity|]. cbn [str_rstrip_by].
  destruct (str_rstrip_by p s) as [|b t] eqn:E.
  - destruct (p c) eqn:P; [reflexivity|]. cbn [str_rstrip_by]. rewrite P.
    reflexivity.
  - change (str_rstrip_by p (String c (String b t)))
      with (match str_rstrip_by p (String b t) with
            | EmptyString => if p c then EmptyString else String c EmptyString
            | String x y => String c (String x y)
            end).
    rewrite IH. reflexivity.
Qed.

Lemma str_lstrip_head (p : ascii -> bool) (s : string) :
  str_lstrip_by p s = "" \/
  exists c t, str_lstrip_by p s = String c t /\ p c = false.
Proof.
  induction s as [|c s IH]; [left; reflexivity|]. cbn [str_lstrip_by].
  destruct (p c) eqn:P; [exact IH|]. right. eauto.
Qed.

Lemma str_rstrip_head (p : ascii -> bool) (c : ascii) (t : string) :
  p c = false -> str_rstrip_by p (String c t) = String c (str_rstrip_by p t).
Proof.
  intros P. cbn [str_rstrip_by]. destruct (str_rstrip_by p t); [|reflexivity].
  rewrite P. reflexivity.
Qed.

Lemma str_strip_idem (s : string) : str_strip (str_strip s) = str_strip s.
Proof.
  unfold str_strip.
  destruct (str_lstrip_head isspace s) as [-> | [c [t [-> P]]]]; [reflexivity|].
  rewrite (str_rstrip_head _ _ _ P). cbn [str_lstrip_by]. rewrite P.
  rewrite <- (str_rstrip_head _ _ _ P). apply str_rstrip_idem.
Qed.

Lemma str_join_all (q : ascii -> bool) (sep : string) (l : list string) :
  str_all q sep = true -> Forall (fun x => str_all q x = true) l ->
  str_all q (str_join sep l) = true.
Proof.
  intros Hs. induction l as [|a l IH]; [reflexivity|]. intros F.
  apply Forall_cons_iff in F as [Ha F]. specialize (IH F).
  destruct l as [|b l]; [exact Ha|].
  change (str_join sep (a :: b :: l)) with (a ++ sep ++ str_join sep (b :: l)).
  rewrite !str_all_append, Ha, Hs, IH. reflexivity.
Qed.

(** [re.sub] keeps what holds of every character of the subject and of the
    replacement. *)
Lemma sub_from_all (q : ascii -> bool) (r : re) (repl s : string) :
  str_all q repl = true ->
  forall (skip : nat) (pv : option ascii) (i : nat),
    str_all q s = true -> str_all q (sub_from r repl skip pv i s) = true.
Proof.
  intros Hr. induction s as [|a s IH]; intros skip pv i H.
  - destruct skip as [|n]; [|reflexivity]. cbn [sub_from].
    destruct (match_at r _) as [m|]; [|reflexivity].
    destruct (i <? m_end m)%nat; [|reflexivity].
    rewrite str_all_append, Hr. reflexivity.
  - apply andb_true_iff in H as [Hc Hs].
    destruct skip as [|n]; cbn [sub_from]; [|apply IH, Hs].
    assert (C : str_all q (String a (sub_from r repl 0 (Some a) (S i) s)) = true).
    { cbn [str_all]. rewrite Hc, (IH _ _ _ Hs). reflexivity. }
    destruct (match_at r _) as [m|]; [|exact C].
    destruct (i <? m_end m)%nat; [|exact C].
    rewrite str_all_append, Hr, (IH _ _ _ Hs). reflexivity.
Qed.

(** The cleaned address holds no slash. *)
Lemma replace_no_slash (s : string) :
  str_all (fun c => negb (Ascii.eqb c "/")) (str_replace "/" "," s) = true.
Proof.
  induction s as [|c s IH]; [reflexivity|]. cbn [str_replace str_all].
  rewrite IH, andb_true_r. destruct (Ascii.eqb c "/") eqn:E; [reflexivity|].
  rewrite E. reflexivity.
Qed.

Lemma clean_address_no_slash (s : string) :
  str_all (fun c => negb (Ascii.eqb c "/")) (clean_address s) = true.
Proof.
  unfold clean_address, sub. apply sub_from_all; [reflexivity|].
  apply replace_no_slash.
Qed.

(** The zip of [parse_address_regex] is a zip token or empty, and its state
    two capitals; what is left of the address keeps what holds of every
    character. *)
Lemma extract_zip_shape (address z r : string) :
  extract_zip address = Ok (z, r) ->
  (z = "" \/ zip_token z) /\
  (forall q, str_all q address = true -> str_all q r = true).
Proof.
  unfold extract_zip. destruct (search ZIP address) as [m|] eqn:M; cbn [is_some].
  - destruct (grouped_search
                (Seq (Rep is_d 5 (Some 5))
                   (Opt (Seq (Chr "-") (Rep is_d 4 (Some 4)))))
                WordB address m eq_refl M) as [t [G Mt]].
    rewrite G. cbn [bind start]. intros [= <- <-]. split.
    + right. apply zip_part_token. exact Mt.
    + intros q H. apply str_all_strip, str_all_take, H.
  - cbn [bind]. intros [= <- <-]. split; [left; reflexivity | auto].
Qed.

Lemma extract_state_shape (address st r : string) :
  extract_state address = Ok (st, r) ->
  two_capitals st /\
  (forall q, str_all q address = true -> str_all q r = true).
Proof.
  unfold extract_state.
  destruct (search STATE address) as [m|] eqn:M; cbn [is_some].
  - destruct (grouped_search (Rep is_AZ 2 (Some 2))
                (Seq (Rep is_s 0 None)
                   (Seq (Rep (fun c => has_char c ",.") 0 (Some 1))
                      (Seq (Rep is_s 0 None) Eos)))
                address m eq_refl M) as [t [G Mt]].
    rewrite G. cbn [bind start]. intros [= <- <-]. split.
    + apply state_part_capitals. exact Mt.
    + intros q H. apply str_all_strip. unfold sub.
      apply sub_from_all; [reflexivity|].
      apply str_all_strip, str_all_take, H.
  - cbn [bind]. intros [= <- <-]. split; [apply FL_two_capitals|].
    intros q H. apply str_all_strip. unfold sub.
    apply sub_from_all; [reflexivity | exact H].
Qed.

Lemma list_index_last_in {A : Type} (l : list A) (a : A) :
  list_index_last l = Ok a -> In a l.
Proof.
  unfold list_index_last. destruct (rev l) as [|b t] eqn:E; [discriminate|].
  intros [= <-]. apply in_rev. rewrite E. left. reflexivity.
Qed.

Lemma list_index_in {A : Type} (l : list A) (i : nat) (a : A) :
  list_index l i = Ok a -> In a l.
Proof.
  unfold list_index. destruct (nth_error l i) eqn:E; [|discriminate].
  intros [= <-]. eapply nth_error_In, E.
Qed.

Lemma split_street_city_all (q : ascii -> bool) (r str cty : string) :
  q " "%char = true -> str_all q r = true ->
  split_street_city r = Ok (str, cty) ->
  str_all q str = true /\ str_all q cty = true.
Proof.
  intros Hq Hr. unfold split_street_city.
  destruct (has_char "," r); [|intros [= <- <-]; auto].
  set (parts := filter truthy (map str_strip (str_split "," r))).
  assert (F : Forall (fun x => str_all q x = true) parts).
  { apply Forall_forall. intros x Hin.
    apply filter_In in Hin as [Hin _].
    apply in_map_iff in Hin as [y [<- Hy]].
    apply str_all_strip.
    pose proof (str_split_all q "," r Hr) as S.
    rewrite Forall_forall in S. auto. }
  destruct (2 <=? List.length parts)%nat.
  - intros H. apply bind_ok in H as [c [Hc H]]. injection H as <- <-. split.
    + apply str_join_all; [cbn; rewrite Hq; reflexivity|].
      unfold list_but_last.
      rewrite <- (firstn_skipn (List.length parts - 1) parts) in F.
      apply Forall_app in F as [F1 _]. exact F1.
    + rewrite Forall_forall in F. apply F. eapply list_index_last_in, Hc.
  - destruct (0 <? List.length parts)%nat.
    + intros H. apply bind_ok in H as [a [Ha H]]. injection H as <- <-.
      split; [|reflexivity].
      rewrite Forall_forall in F. apply F. eapply list_index_in, Ha.
    + cbn [bind]. intros [= <- <-]. auto.
Qed.

Lemma is_punct_split (c : ascii) :
  is_punct c = (has_char c ",.()*" || Ascii.eqb c "/")%bool.
Proof.
  unfold is_punct, has_char. cbn [str_any].
  rewrite !orb_false_r, !orb_assoc. reflexivity.
Qed.

(** Street and city: what is left after the punctuation is removed and the
    ends are stripped. *)
Lemma plain_after_strip (x : string) :
  str_all (fun c => negb (Ascii.eqb c "/")) x = true ->
  plain_field (str_strip (sub PUNCT "" x)).
Proof.
  intros H. split; [apply str_strip_idem|].
  apply (str_any_none (fun c => negb (is_punct c))).
  { intros c Hc. apply negb_true_iff in Hc. exact Hc. }
  apply str_all_strip. unfold PUNCT. rewrite sub_one_of.
  induction x as [|c x IH]; [reflexivity|].
  apply andb_true_iff in H as [Hc Hx]. cbn [str_filter].
  destruct (has_char c ",.()*") eqn:E; cbn [negb]; [auto|].
  cbn [str_all]. rewrite (IH Hx), andb_true_r, is_punct_split, E.
  apply negb_true_iff in Hc. rewrite Hc. reflexivity.
Qed.

(** The fields of [parse_address_regex] on a non-empty string. *)
Lemma regex_shape (s : string) :
  truthy s = true ->
  exists p,
    parse_address_regex (VStr s) = Ok p /\
    (zip_code p = "" \/ zip_token (zip_code p)) /\
    two_capitals (state p) /\
    plain_field (street p) /\ plain_field (city p).
Proof.
  intros T. cbn [parse_address_regex]. rewrite T. cbn [negb].
  destruct (extract_zip_ok (clean_address s)) as [z [r1 Ez]].
  rewrite Ez. cbn [bind].
  destruct (extract_state_ok r1) as [st [r2 Es]]. rewrite Es. cbn [bind].
  destruct (split_street_city_ok r2) as [str [cty Ec]]. rewrite Ec. cbn [bind].
  apply extract_zip_shape in Ez as [Z K1].
  apply extract_state_shape in Es as [S K2].
  pose proof (K2 _ (K1 _ (clean_address_no_slash s))) as N.
  destruct (split_street_city_all _ _ _ _ eq_refl N Ec) as [N1 N2].
  eexists. split; [reflexivity|]. cbn [zip_code state street city].
  split; [exact Z|]. split; [exact S|].
  split; apply plain_after_strip; assumption.
Qed.

(** For every non-empty string [parse_address_regex] returns a zip that is
    empty or a zip token, a state of two capital letters, and a street and a
    city that are stripped and hold no comma, period, parenthesis, asterisk or
    slash. *)
Theorem regex_fields (s : string) :
  truthy s = true ->
  exists p,
    parse_address_regex (VStr s) = Ok p /\
    (zip_code p = "" \/ zip_token (zip_code p)) /\
    two_capitals (state p) /\
    plain_field (street p) /\ plain_field (city p).
Proof. apply regex_shape. Qed.

Lemma regex_fields_witness :
  truthy "4390 SW 20TH AVE GAINESVILLE, FL 32607" = true /\
  exists p,
    parse_address_regex (VStr "4390 SW 20TH AVE GAINESVILLE, FL 32607") = Ok p /\
    (zip_code p = "" \/ zip_token (zip_code p)) /\
    two_capitals (state p) /\
    plain_field (street p) /\ plain_field (city p).
Proof.
  split; [reflexivity|].
  apply (regex_fields "4390 SW 20TH AVE GAINESVILLE, FL 32607"). reflexivity.
Defined.

End FieldProps.

(** ** add_leads_to_dealmachine.py: what [parse_address] returns *)

Module AddLeadsProps.
Import Re ReProps DecomposeProps FieldProps.

Lemma add_leads_extract_state (s z st rest : string) :
  AddLeads.extract s = Ok (z, st, rest) -> st = "" \/ two_capitals st.
Proof.
  unfold AddLeads.extract. intros H.
  apply bind_ok in H as [z0 [_ H]].
  apply bind_ok in H as [awz [_ H]].
  apply bind_ok in H as [st0 [Hst H]].
  apply bind_ok in H as [aws [_ H]].
  injection H as _ <- _.
  destruct (search AddLeads.STATE awz) as [m|] eqn:M; cbn [is_some] in Hst.
  - right.
    destruct (grouped_search (Rep is_AZ 2 (Some 2)) (Seq (Rep is_s 0 None) Eos)
                awz m eq_refl M) as [t [G Mt]].
    rewrite G in Hst. injection Hst as <-. apply state_part_capitals, Mt.
  - left. injection Hst as <-. reflexivity.
Qed.

(** [parse_address] of [add_leads_to_dealmachine.py] returns, for every
    string, either the whole string as the address with city, state and zip
    empty, or a zip token that ends the string together with a state of two
    capital letters: never a state without a zip or a zip without a state. *)
Theorem all_or_nothing (s : string) :
  exists p,
    AddLeads.parse_address s = Ok p /\
    (p = AddLeads.LeadParts s "" "" "" \/
     (zip_token (AddLeads.zip p) /\ trailing (AddLeads.zip p) s /\
      two_capitals (AddLeads.state p))).
Proof.
  unfold AddLeads.parse_address.
  destruct (AddLeads.extract s) as [[[z st] rest]|e] eqn:E;
    cbn [bind try_except]; [|eexists; split; [reflexivity | left; reflexivity]].
  destruct (truthy st && truthy z)%bool eqn:T;
    [|eexists; split; [reflexivity | left; reflexivity]].
  apply andb_true_iff in T as [Tst Tz].
  destruct (AddLeads.split_street_city rest) as [[str cty]|e'];
    cbn [bind try_except]; [|eexists; split; [reflexivity | left; reflexivity]].
  eexists. split; [reflexivity|]. right. cbn [AddLeads.zip AddLeads.state].
  destruct (add_leads_extract_zip _ _ _ _ E) as [-> | [Tr Zt]]; [discriminate|].
  destruct (add_leads_extract_state _ _ _ _ E) as [-> | C]; [discriminate|].
  auto.
Qed.

(** Joining the two sides of a cut of a list gives the joined list. *)
Lemma str_join_cut (sep : string) (l : list string) :
  forall n, 0 < n -> n < List.length l ->
    str_join sep (firstn n l) ++ sep ++ str_join sep (skipn n l) =
      str_join sep l.
Proof.
  induction l as [|a l IH]; intros n Hn Hl; [simpl in Hl; lia|].
  destruct n as [|n]; [lia|]. cbn [List.length] in Hl.
  destruct l as [|b l]; [simpl in Hl; lia|].
  destruct n as [|n].
  - reflexivity.
  - change (firstn (S (S n)) (a :: b :: l)) with (a :: b :: firstn n l).
    change (skipn (S (S n)) (a :: b :: l)) with (skipn (S n) (b :: l)).
    change (str_join sep (a :: b :: firstn n l))
      with (a ++ sep ++ str_join sep (firstn (S n) (b :: l))).
    change (str_join sep (a :: b :: l)) with (a ++ sep ++ str_join sep (b :: l)).
    rewrite !str_append_assoc. rewrite (IH (S n)); [reflexivity | lia | lia].
Qed.

Lemma list_index_last_skipn {A : Type} (l : list A) (c : A) :
  list_index_last l = Ok c -> skipn (List.length l - 1) l = [c].
Proof.
  unfold list_index_last. destruct (rev l) as [|b t] eqn:E; [discriminate|].
  intros [= <-]. apply (f_equal (@rev A)) in E. rewrite rev_involutive in E.
  subst l. cbn [rev]. rewrite length_app. cbn [List.length].
  rewrite Nat.add_sub. rewrite skipn_app, skipn_all, Nat.sub_diag.
  reflexivity.
Qed.

(** The words of a string are not empty. *)
Lemma str_words_from_truthy (s : string) :
  forall word, Forall (fun w => truthy w = true) (str_words_from word s).
Proof.
  induction s as [|c s IH]; intros word; cbn [str_words_from].
  - destruct (truthy word) eqn:T; auto.
  - destruct (isspace c); [|apply IH].
    destruct (truthy word) eqn:T; auto.
Qed.

Lemma str_join_truthy (sep : string) (l : list string) :
  Forall (fun w => truthy w = true) l -> l <> [] ->
  truthy (str_join sep l) = true.
Proof.
  intros F N. destruct l as [|a l]; [congruence|].
  apply Forall_cons_iff in F as [Ha _].
  destruct l; [exact Ha|].
  change (truthy (a ++ sep ++ str_join sep (s :: l)) = true).
  destruct a; [discriminate | reflexivity].
Qed.

Lemma firstn_truthy (n : nat) (l : list string) :
  Forall (fun w => truthy w = true) l -> 0 < n -> 0 < List.length l ->
  truthy (str_join " " (firstn n l)) = true.
Proof.
  intros F Hn Hl. apply str_join_truthy.
  - rewrite <- (firstn_skipn n l) in F. apply Forall_app in F as [F1 _].
    exact F1.
  - destruct n; [lia|]. destruct l; [simpl in Hl; lia | discriminate].
Qed.

Lemma skipn_truthy (n : nat) (l : list string) :
  Forall (fun w => truthy w = true) l -> n < List.length l ->
  truthy (str_join " " (skipn n l)) = true.
Proof.
  intros F Hl. apply str_join_truthy.
  - rewrite <- (firstn_skipn n l) in F. apply Forall_app in F as [_ F2].
    exact F2.
  - intros E. apply (f_equal (@List.length string)) in E.
    rewrite length_skipn in E. simpl in E. lia.
Qed.

(** The cut of the words at [n] gives a street and a city that are not empty
    and that hold all the words, in order. *)
Lemma cut_conserves (words : list string) (n : nat) :
  Forall (fun w => truthy w = true) words ->
  0 < n -> n < List.length words ->
  truthy (str_join " " (firstn n words)) = true /\
  truthy (str_join " " (skipn n words)) = true /\
  str_join " " (firstn n words) ++ " " ++ str_join " " (skipn n words) =
    str_join " " words.
Proof.
  intros F Hn Hl. split; [|split].
  - apply firstn_truthy; [exact F | exact Hn | lia].
  - apply skipn_truthy; assumption.
  - apply str_join_cut; assumption.
Qed.

Lemma last_words_city_conserves (rest : string) (words : list string) :
  Forall (fun w => truthy w = true) words -> 2 <= List.length words ->
  exists street city,
    AddLeads.last_words_city rest words = Ok (street, city) /\
    truthy street = true /\ truthy city = true /\
    street ++ " " ++ city = str_join " " words.
Proof.
  intros F L. unfold AddLeads.last_words_city, list_but_last, list_last.
  destruct (3 <? List.length words)%nat eqn:L3.
  - apply Nat.ltb_lt in L3. eexists _, _. split; [reflexivity|].
    apply cut_conserves; [exact F | lia | lia].
  - assert (L1 : (1 <? List.length words)%nat = true)
      by (apply Nat.ltb_lt; lia).
    rewrite L1.
    destruct (list_index_last_ok words) as [c Hc]; [lia|].
    rewrite Hc. cbn [bind]. eexists _, _. split; [reflexivity|].
    pose proof (cut_conserves words (List.length words - 1) F) as C.
    rewrite (list_index_last_skipn _ _ Hc) in C. apply C; lia.
Qed.

(** Without a comma and without a slash, a string of two words or more is
    split into a street and a city that are both not empty and that together
    hold all the words of the string, in order and separated by single
    spaces: no word is lost, whether a street suffix is found or not. *)
Theorem words_conserved (rest : string) :
  has_char "," rest = false -> has_char "/" rest = false ->
  2 <= List.length (str_words rest) ->
  exists street city,
    AddLeads.split_street_city rest = Ok (street, city) /\
    truthy street = true /\ truthy city = true /\
    street ++ " " ++ city = str_join " " (str_words rest).
Proof.
  intros C S L. unfold AddLeads.split_street_city. rewrite C, S.
  pose proof (str_words_from_truthy rest "") as F.
  fold (str_words rest) in F.
  destruct (AddLeads.find_street_end 0 (str_words rest)) as [i|];
    [|apply last_words_city_conserves; assumption].
  destruct ((0 <? i)%nat && (i <? List.length (str_words rest))%nat)%bool eqn:B;
    [|apply last_words_city_conserves; assumption].
  apply andb_true_iff in B as [B0 B1].
  apply Nat.ltb_lt in B0. apply Nat.ltb_lt in B1.
  eexists _, _. split; [reflexivity|]. apply cut_conserves; assumption.
Qed.

Lemma words_conserved_witness :
  has_char "," "12 OAK HILL TAMPA" = false /\
  has_char "/" "12 OAK HILL TAMPA" = false /\
  2 <= List.length (str_words "12 OAK HILL TAMPA") /\
  exists street city,
    AddLeads.split_street_city "12 OAK HILL TAMPA" = Ok (street, city) /\
    truthy street = true /\ truthy city = true /\
    street ++ " " ++ city = str_join " " (str_words "12 OAK HILL TAMPA").
Proof.
  split; [reflexivity|]. split; [reflexivity|].
  split; [vm_compute; lia|].
  apply (words_conserved "12 OAK HILL TAMPA"); [reflexivity | reflexivity |].
  vm_compute. lia.
Defined.

End AddLeadsProps.

(** ** The cleaned address *)

Module CleanProps.
Import Re ReProps Decompose FieldProps.

(** An unbounded greedy repetition takes the whole run of characters of its
    class when the continuation accepts that. *)
Lemma rep_greedy {A : Type} (p : ascii -> bool) (lo : nat) (t u : string) :
  forall (n : nat) (pv : option ascii) (i : nat) (k : cursor -> option A) (x : A),
    str_all p t = true ->
    match u with String c _ => p c = false | EmptyString => True end ->
    lo <= n + String.length t ->
    k (Cursor (prev_after pv t) (i + String.length t) u) = Some x ->
    rep p lo None n pv i (t ++ u) k = Some x.
Proof.
  induction t as [|a t IH]; intros n pv i k x P U L K.
  - cbn [String.length prev_after append] in *. rewrite Nat.add_0_r in *.
    apply Nat.leb_le in L.
    destruct u as [|b u]; cbn [rep]; rewrite ?U, L; exact K.
  - cbn [String.length prev_after append str_all] in *.
    apply andb_true_iff in P as [Pa P].
    cbn [rep below]. rewrite Pa. cbn [andb].
    rewrite (IH (S n) (Some a) (S i) k x); auto; try lia.
    rewrite <- K. f_equal. f_equal. lia.
Qed.

(** The whitespace pattern matches a whole run of whitespace, and nothing
    where no whitespace starts. *)
Lemma whitespace_match (ws y : string) (pv : option ascii) (i : nat) :
  truthy ws = true -> str_all isspace ws = true -> no_lead_space y = true ->
  match_at WHITESPACE (Cursor pv i (ws ++ y)) =
    Some (Mtch i (i + String.length ws) None).
Proof.
  intros T W Y. unfold match_at, WHITESPACE. cbn [run pos prev Re.rest].
  apply rep_greedy; auto.
  - destruct y as [|c y]; [exact I|]. apply negb_true_iff in Y. exact Y.
  - destruct ws; [discriminate | simpl; lia].
Qed.

Lemma whitespace_no_match (x : string) (pv : option ascii) (i : nat) :
  no_lead_space x = true -> match_at WHITESPACE (Cursor pv i x) = None.
Proof.
  intros X. unfold match_at, WHITESPACE. cbn [run pos prev Re.rest].
  destruct x as [|c x]; cbn [rep]; [reflexivity|].
  apply negb_true_iff in X. unfold is_s. rewrite X. reflexivity.
Qed.

(** Every string is a run of whitespace followed by a string that does not
    start with whitespace. *)
Lemma whitespace_split (x : string) :
  exists ws y,
    x = ws ++ y /\ str_all isspace ws = true /\ no_lead_space y = true.
Proof.
  induction x as [|c x [ws [y [E [W Y]]]]].
  - exists "", "". auto.
  - destruct (isspace c) eqn:C.
    + exists (String c ws), y. cbn [append str_all]. rewrite C, W, E. auto.
    + exists "", (String c x). cbn [no_lead_space]. rewrite C. auto.
Qed.

Lemma truthy_snoc (w : string) (c : ascii) :
  truthy (w ++ String c "") = true.
Proof. destruct w; reflexivity. Qed.

Lemma str_words_from_not_nil (s : string) :
  forall word, truthy word = true -> str_words_from word s <> [].
Proof.
  induction s as [|c s IH]; intros word T; cbn [str_words_from].
  - rewrite T. discriminate.
  - destruct (isspace c); [rewrite T; discriminate|].
    apply IH, truthy_snoc.
Qed.

Lemma no_trail_tail (c : ascii) (x : string) :
  no_trail_space (String c x) = true -> no_trail_space x = true.
Proof. destruct x; [reflexivity | auto]. Qed.

Lemma no_trail_space_tail (c : ascii) (x : string) :
  isspace c = true -> no_trail_space (String c x) = true -> x <> "".
Proof. intros C H ->. cbn in H. rewrite C in H. discriminate. Qed.

(** [re.sub(r'\s+', ' ', x)] on a string that does not end with whitespace:
    read after the word [word], it gives the words joined by single spaces;
    and while the rest of a matched run of whitespace is passed over, it gives
    the words that follow. *)
Lemma collapse (x : string) :
  no_trail_space x = true ->
  (forall word pv i,
     truthy word = true \/ no_lead_space x = true ->
     word ++ sub_from WHITESPACE " " 0 pv i x =
       str_join " " (str_words_from word x)) /\
  (forall ws y pv i,
     x <> "" -> x = ws ++ y -> str_all isspace ws = true ->
     no_lead_space y = true ->
     sub_from WHITESPACE " " (String.length ws) pv i x =
       str_join " " (str_words_from "" x) /\
     str_words_from "" x <> []).
Proof.
  induction x as [|a x IH]; intros H.
  - split.
    + intros word pv i _. cbn [sub_from str_words_from].
      rewrite (whitespace_no_match "" pv i eq_refl), str_append_nil_r.
      destruct word; reflexivity.
    + intros ws y pv i N. congruence.
  - destruct (IH (no_trail_tail _ _ H)) as [P1 P2].
    assert (Q1 : forall word pv i,
               truthy word = true \/ no_lead_space (String a x) = true ->
               word ++ sub_from WHITESPACE " " 0 pv i (String a x) =
                 str_join " " (str_words_from word (String a x))).
    { intros word pv i Hw. destruct (isspace a) eqn:Sa.
      - destruct Hw as [Tw | L];
          [|cbn [no_lead_space] in L; rewrite Sa in L; discriminate].
        destruct (whitespace_split x) as [ws [y [E [W Y]]]].
        pose proof (whitespace_match (String a ws) y pv i eq_refl) as M.
        cbn [str_all append String.length] in M. rewrite Sa, W, <- E in M.
        specialize (M eq_refl Y).
        destruct (P2 ws y (Some a) (S i) (no_trail_space_tail _ _ Sa H) E W Y)
          as [R N].
        cbn [sub_from str_words_from]. rewrite M, Sa, Tw. cbn [m_end].
        assert (B : (i <? i + S (String.length ws))%nat = true)
          by (apply Nat.ltb_lt; lia).
        rewrite B.
        replace (i + S (String.length ws) - i - 1) with (String.length ws)
          by lia.
        rewrite R. destruct (str_words_from "" x); [congruence | reflexivity].
      - cbn [sub_from str_words_from].
        rewrite whitespace_no_match, Sa
          by (cbn [no_lead_space]; rewrite Sa; reflexivity).
        rewrite <- (P1 (word ++ String a "") (Some a) (S i))
          by (left; apply truthy_snoc).
        rewrite str_append_assoc. reflexivity. }
    split; [exact Q1|].
    intros ws y pv i _ E W Y. destruct ws as [|b ws].
    + cbn [append] in E. subst y. cbn [String.length]. split.
      * rewrite <- (Q1 "" pv i (or_intror Y)). reflexivity.
      * cbn [no_lead_space] in Y. apply negb_true_iff in Y.
        cbn [str_words_from]. rewrite Y.
        apply str_words_from_not_nil. reflexivity.
    + cbn [append] in E. injection E as <- E.
      cbn [str_all] in W. apply andb_true_iff in W as [Sa W].
      cbn [String.length sub_from str_words_from]. rewrite Sa. cbn [truthy].
      apply (P2 ws y (Some a) (S i) (no_trail_space_tail _ _ Sa H) E W Y).
Qed.

(** Stripping leaves no whitespace at the ends, and keeps the words. *)
Lemma no_lead_lstrip (s : string) :
  no_lead_space (str_lstrip_by isspace s) = true.
Proof.
  induction s as [|c s IH]; [reflexivity|]. cbn [str_lstrip_by].
  destruct (isspace c) eqn:C; [exact IH|]. cbn [no_lead_space].
  rewrite C. reflexivity.
Qed.

Lemma no_lead_rstrip (s : string) :
  no_lead_space s = true -> no_lead_space (str_rstrip_by isspace s) = true.
Proof.
  destruct s as [|c s]; [auto|]. intros H.
  assert (C : isspace c = false) by (apply negb_true_iff; exact H).
  rewrite (str_rstrip_head _ _ _ C). exact H.
Qed.

Lemma no_trail_rstrip (s : string) :
  no_trail_space (str_rstrip_by isspace s) = true.
Proof.
  induction s as [|c s IH]; [reflexivity|]. cbn [str_rstrip_by].
  destruct (str_rstrip_by isspace s) as [|b t].
  - destruct (isspace c) eqn:C; [reflexivity|]. cbn [no_trail_space].
    rewrite C. reflexivity.
  - exact IH.
Qed.

Lemma str_words_lstrip (s : string) :
  str_words_from "" (str_lstrip_by isspace s) = str_words_from "" s.
Proof.
  induction s as [|c s IH]; [reflexivity|].
  cbn [str_lstrip_by str_words_from].
  destruct (isspace c) eqn:C; [exact IH|].
  cbn [str_words_from]. rewrite C. reflexivity.
Qed.

Lemma str_words_rstrip (s : string) :
  forall word,
    str_words_from word (str_rstrip_by isspace s) = str_words_from word s.
Proof.
  induction s as [|c s IH]; intros word; [reflexivity|].
  cbn [str_rstrip_by].
  destruct (str_rstrip_by isspace s) as [|b t] eqn:E.
  - cbn [str_words_from]. destruct (isspace c) eqn:C.
    + rewrite <- (IH ""). cbn [str_words_from truthy].
      destruct (truthy word); reflexivity.
    + cbn [str_words_from]. rewrite C, <- (IH (word ++ String c "")).
      reflexivity.
  - clear E. revert IH. generalize (String b t) as r. intros r IH.
    cbn [str_words_from]. destruct (isspace c).
    + rewrite (IH ""). reflexivity.
    + apply IH.
Qed.

Lemma str_words_strip (s : string) : str_words (str_strip s) = str_words s.
Proof.
  unfold str_words, str_strip. rewrite str_words_rstrip. apply str_words_lstrip.
Qed.

(** Replacing the slash by a comma changes no whitespace. *)
Lemma isspace_replaced (c : ascii) :
  isspace (if Ascii.eqb c "/" then "," else c) = isspace c.
Proof.
  destruct (Ascii.eqb c "/") eqn:E; [|reflexivity].
  apply Ascii.eqb_eq in E. subst c. reflexivity.
Qed.

Lemma replace_lstrip (s : string) :
  str_replace "/" "," (str_lstrip_by isspace s) =
    str_lstrip_by isspace (str_replace "/" "," s).
Proof.
  induction s as [|c s IH]; [reflexivity|].
  cbn [str_replace str_lstrip_by]. rewrite isspace_replaced.
  destruct (isspace c); [exact IH | reflexivity].
Qed.

Lemma replace_rstrip (s : string) :
  str_replace "/" "," (str_rstrip_by isspace s) =
    str_rstrip_by isspace (str_replace "/" "," s).
Proof.
  induction s as [|c s IH]; [reflexivity|].
  cbn [str_replace str_rstrip_by]. rewrite <- IH, isspace_replaced.
  destruct (str_rstrip_by isspace s) as [|b t]; cbn [str_replace].
  - destruct (isspace c); reflexivity.
  - reflexivity.
Qed.

Lemma replace_strip (s : string) :
  str_replace "/" "," (str_strip s) = str_strip (str_replace "/" "," s).
Proof. unfold str_strip. rewrite replace_rstrip, replace_lstrip. reflexivity. Qed.

(** The cleaned address is the words of the address, with every slash turned
    into a comma, joined by single spaces: whitespace at the ends is removed,
    every run of whitespace inside becomes one space, and nothing else
    changes. *)
Theorem clean_address_words (s : string) :
  clean_address s = str_join " " (str_words (str_replace "/" "," s)).
Proof.
  unfold clean_address, sub. rewrite replace_strip.
  rewrite <- (str_words_strip (str_replace "/" "," s)).
  set (u := str_strip (str_replace "/" "," s)).
  assert (T : no_trail_space u = true) by apply no_trail_rstrip.
  assert (L : no_lead_space u = true)
    by apply no_lead_rstrip, no_lead_lstrip.
  destruct (collapse u T) as [P _].
  exact (P "" None 0 (or_intror L)).
Qed.

End CleanProps.

(** ** The fields of [parse_address], with or without the tagger *)

Module CleanFields.
Import Re ReProps JsonToCsv Decompose DecomposeProps FieldProps.

Lemma str_any_weaken (q q' : ascii -> bool) (f : string) :
  (forall c, q' c = true -> q c = true) ->
  str_any q f = false -> str_any q' f = false.
Proof.
  intros W. induction f as [|c f IH]; [reflexivity|]. cbn [str_any].
  intros H. apply orb_false_iff in H as [Hc Hf]. rewrite (IH Hf), orb_false_r.
  destruct (q' c) eqn:E; [|reflexivity]. rewrite (W _ E) in Hc. discriminate.
Qed.

Lemma plain_clean (f : string) : plain_field f -> clean_field f.
Proof.
  intros [_ H]. unfold clean_field. revert H. apply str_any_weaken.
  intros c Hc. rewrite is_punct_split, Hc. reflexivity.
Qed.

(** What [re.sub(r'[,.()*]', '', x).strip()] gives. *)
Lemma stripped_clean (x : string) :
  clean_field (str_strip (sub PUNCT "" x)) /\
  str_strip (str_strip (sub PUNCT "" x)) = str_strip (sub PUNCT "" x).
Proof.
  split; [|apply str_strip_idem]. unfold clean_field, PUNCT.
  rewrite sub_one_of.
  apply (str_any_none (fun c => negb (has_char c ",.()*"))).
  { intros c Hc. apply negb_true_iff in Hc. exact Hc. }
  apply str_all_strip, str_filter_all.
Qed.

Lemma str_filter_length (p : ascii -> bool) (x : string) :
  String.length (str_filter p x) <= String.length x.
Proof.
  induction x as [|c x IH]; [auto|]. cbn [str_filter].
  destruct (p c); cbn [String.length]; lia.
Qed.

Lemma str_lstrip_length (p : ascii -> bool) (x : string) :
  String.length (str_lstrip_by p x) <= String.length x.
Proof.
  induction x as [|c x IH]; [auto|]. cbn [str_lstrip_by].
  destruct (p c); cbn [String.length]; lia.
Qed.

Lemma str_rstrip_length (p : ascii -> bool) (x : string) :
  String.length (str_rstrip_by p x) <= String.length x.
Proof.
  induction x as [|c x IH]; [auto|]. cbn [str_rstrip_by].
  destruct (str_rstrip_by p x) as [|b t].
  - destruct (p c); cbn [String.length]; lia.
  - cbn [String.length] in *. lia.
Qed.

Lemma stripped_length (x : string) :
  String.length (str_strip (sub PUNCT "" x)) <= String.length x.
Proof.
  unfold str_strip, PUNCT. rewrite sub_one_of.
  eapply Nat.le_trans; [apply str_rstrip_length|].
  eapply Nat.le_trans; [apply str_lstrip_length|].
  apply str_filter_length.
Qed.

(** Digits, hyphens and capital letters are not removed. *)
Lemma zip_token_clean (z : string) : zip_token z -> clean_field z.
Proof.
  assert (D : forall t, str_all isdigit t = true -> clean_field t).
  { intros t. apply str_any_none. intros c Hc.
    destruct c as [[] [] [] [] [] [] [] []]; try discriminate; reflexivity. }
  intros [[_ Z] | [a [b [-> [_ [Da [_ Db]]]]]]]; [auto|].
  unfold clean_field. rewrite !str_any_append.
  rewrite (D _ Da), (D _ Db). reflexivity.
Qed.

Lemma two_capitals_clean (st : string) : two_capitals st -> clean_field st.
Proof.
  intros [_ H]. revert H. apply str_any_none. intros c Hc.
  destruct c as [[] [] [] [] [] [] [] []]; try discriminate; reflexivity.
Qed.

(** The fields of a result of [parse_address]. *)
Lemma empty_parts_fields :
  clean_field (street empty_parts) /\ clean_field (city empty_parts) /\
  clean_field (state empty_parts) /\ clean_field (zip_code empty_parts) /\
  str_strip (street empty_parts) = street empty_parts /\
  str_strip (city empty_parts) = city empty_parts /\
  String.length (state empty_parts) <= 2.
Proof. repeat split; cbn; lia. Qed.

Lemma regex_clean (v : value) :
  exists p,
    parse_address_regex v = Ok p /\
    clean_field (street p) /\ clean_field (city p) /\
    clean_field (state p) /\ clean_field (zip_code p) /\
    str_strip (street p) = street p /\ str_strip (city p) = city p /\
    String.length (state p) <= 2.
Proof.
  destruct v as [| b | n | s |];
    try (exists empty_parts; split; [reflexivity | apply empty_parts_fields]).
  destruct (truthy s) eqn:T.
  - destruct (regex_shape s T) as [p [P [Z [S [[S1 P1] [S2 P2]]]]]].
    exists p. split; [exact P|].
    split; [apply plain_clean; split; assumption|].
    split; [apply plain_clean; split; assumption|].
    split; [apply two_capitals_clean, S|].
    split; [destruct Z as [-> | Z]; [reflexivity | apply zip_token_clean, Z]|].
    split; [exact S1|]. split; [exact S2|].
    destruct S as [L _]. lia.
  - exists empty_parts. cbn [parse_address_regex]. rewrite T.
    split; [reflexivity | apply empty_parts_fields].
Qed.

(** Whatever the input and whatever the tagger returns or raises, the four
    fields that [parse_address] returns hold no comma, period, parenthesis or
    asterisk, the street and the city are stripped, and the state has at most
    two characters. *)
Theorem fields_clean
  (usaddress_tag : string -> res (list (string * string)))
  (USADDRESS_AVAILABLE : bool) (v : value) :
  exists p,
    parse_address usaddress_tag USADDRESS_AVAILABLE v = Ok p /\
    clean_field (street p) /\ clean_field (city p) /\
    clean_field (state p) /\ clean_field (zip_code p) /\
    str_strip (street p) = street p /\ str_strip (city p) = city p /\
    String.length (state p) <= 2.
Proof.
  unfold parse_address. destruct USADDRESS_AVAILABLE; [|apply regex_clean].
  unfold parse_address_with_usaddress.
  destruct v as [| b | n | s |];
    try (exists empty_parts; split; [reflexivity | apply empty_parts_fields]).
  destruct (truthy s) eqn:T; cbn [negb];
    [|exists empty_parts; split; [reflexivity | apply empty_parts_fields]].
  destruct (usaddress_tag (clean_address s)) as [parsed|e];
    cbn [bind try_except];
    [|apply regex_clean].
  destruct (street_parts_ok parsed STREET_COMPONENTS) as [sp ->].
  cbn [bind].
  set (st := dict_get_default parsed "StateName" "FL").
  set (z := dict_get_default parsed "ZipCode" "").
  assert (Z : clean_field (if truthy z then str_strip (sub PUNCT "" z) else "")).
  { destruct (truthy z); [apply stripped_clean | reflexivity]. }
  destruct (truthy st && (2 <? String.length st)%nat)%bool eqn:C;
    cbn [try_except]; eexists; (split; [reflexivity|]);
    cbn [street city state zip_code];
    repeat (split; [first [apply stripped_clean | exact Z]|]).
  - cbn. lia.
  - eapply Nat.le_trans; [apply stripped_length|].
    apply andb_false_iff in C as [C | C].
    + apply truthy_false_iff in C. rewrite C. cbn. lia.
    + apply Nat.ltb_ge in C. exact C.
Qed.

End CleanFields.
